(** * ComfyuiImageAudioToVideo: a shallow embedding of [execute]

    The n8n node in [nodes/ComfyUI/ComfyuiImageAudioToVideo.node.ts] uploads an
    image (and optionally an audio file) to a ComfyUI backend, patches the
    names of the uploaded files into the workflow graph, queues the graph,
    polls [/history/<id>] until the job completes and downloads the first
    video output.

    JavaScript objects used as dictionaries are finite maps of their own
    properties ([gmap]) where only lookups and writes matter, and association
    lists in [Object.values]/[Object.keys] order where the code iterates over
    them.  A property that is absent reads as [undefined], which is [None]
    here; values produced by [JSON.parse] are never [undefined].  A read of
    [items[0].binary] by a name chosen by the user also finds the members that
    every object inherits from [Object.prototype].  Calls to the backend are
    answered by an environment record and logged in a trace.  Request headers
    (content type, bearer token) and console output are not part of the
    model.  The [timeout] parameter is a number that may have a fraction; it
    is an exact rational here, so the rounding of [60 * timeout] in a double
    and the values [NaN] and [Infinity] are left out. *)

From Stdlib Require Import ZArith QArith Qround String Ascii List.
From stdpp Require Import base option list strings gmap.

Local Open Scope Z_scope.

(** ** JavaScript string helpers *)

(** [s.startsWith(p)] *)
Definition startsWith (s p : string) : bool := String.prefix p s.

(** [s.endsWith(p)]: the last [length p] characters of [s] are [p]. *)
Definition endsWith (s p : string) : bool :=
  let n := String.length s in
  let m := String.length p in
  (m <=? n)%nat && String.eqb (String.substring (n - m) m s) p.

(** Truthiness of a string: only the empty string is falsy. *)
Definition truthy (s : string) : bool := negb (String.eqb s "").

(** ** Data model *)

(** Values that [JSON.parse] can store in a node's [inputs]. *)
#[warnings="-register-all"]
Inductive JsValue : Type :=
| JNull
| JBool (b : bool)
| JNum (z : Z)
| JStr (s : string)
| JArr (l : list JsValue).

(** [v !== undefined] for the result of a property read. *)
Definition defined (v : option JsValue) : bool :=
  match v with Some _ => true | None => false end.

(** [interface ComfyUINode]; [inputs = None] is a missing (falsy) [inputs]. *)
Record ComfyUINode : Type := mkNode {
  inputs : option (gmap string JsValue);
  class_type : string;
  _meta : option string
}.

(** [interface ComfyUIWorkflow]: the entries of the parsed object, keyed by
    node id, in the order in which [Object.values] enumerates them. *)
Abbreviation ComfyUIWorkflow := (list (string * ComfyUINode)).

(** Node ids are the property names of one object, hence pairwise distinct. *)
Definition wellFormed (wf : ComfyUIWorkflow) : Prop := NoDup (wf.*1).

(** [interface ImageInfo], the decoded answer of [/upload/image]. *)
Record ImageInfo : Type := mkImageInfo {
  name : string;
  subfolder : string;
  type : string
}.

(** The errors thrown inside [execute], one constructor per [throw] site
    (named after the taxonomy of the specification), one for a rejected
    backend request and one for a failing helper.  The outer [catch]
    rethrows each of them with the
    message prefixed by [ComfyUI API Error: ]; the kind is unchanged. *)
Inductive Error : Type :=
| NoBinaryData          (* 'No binary data found in property ...' *)
| InvalidInputImage     (* 'Invalid media type: ... Only images are supported.' *)
| InvalidInputAudio     (* 'Provided audio binary property is not audio' *)
| MalformedGraph        (* 'Invalid workflow JSON' / 'Invalid workflow structure' *)
| MissingImageNode      (* 'No LoadImage node found in the workflow...' *)
| MissingAudioNode      (* 'Audio binary provided but no LoadAudio node found...' *)
| SubmissionRejected    (* 'Failed to get prompt ID from ComfyUI' *)
| GenerationFailed      (* '[ComfyUI] Video generation failed' *)
| NoMediaOutputs        (* '[ComfyUI] No media outputs found in results' *)
| NoVideoOutputs        (* '[ComfyUI] No video outputs found in results' *)
| OutputNotFound        (* 'Video file not found at ...' *)
| GenerationTimeout     (* 'Video generation timeout after ... minutes' *)
| RequestFailed         (* a rejected [helpers.request], or an undecodable answer *)
| HelperFailed.         (* [helpers.getBinaryDataBuffer] throws *)

Inductive Result (A : Type) : Type :=
| Ok (a : A)
| Err (e : Error).
Arguments Ok {A} a.
Arguments Err {A} e.

(** ** State and exceptions

    [execute] mutates the parsed graph, talks to the backend and throws.  A
    computation takes the current state and gives the state it leaves behind
    together with a value or the error thrown. *)
Definition SE (S A : Type) : Type := S -> S * Result A.

Definition ret {S A} (a : A) : SE S A := fun s => (s, Ok a).
Definition throw {S A} (e : Error) : SE S A := fun s => (s, Err e).
Definition bind {S A B} (m : SE S A) (k : A -> SE S B) : SE S B :=
  fun s => match m s with
           | (s', Ok a) => k a s'
           | (s', Err e) => (s', Err e)
           end.

Notation "'do' x <- m ; k" := (bind m (fun x => k))
  (at level 10, x name, m at level 100, k at level 200, only parsing).

(** ** Graph patching (the in-place updates of [workflowData]) *)

(** The patch step mutates [workflowData] and may throw: a state monad over
    the graph that keeps the graph as it is at the moment of the throw. *)
Definition Patch (A : Type) : Type := SE ComfyUIWorkflow A.

(** [Object.values(workflowData).find(p)]: the position of the first node
    that satisfies [p]; the position stands for the reference that [find]
    returns. *)
Fixpoint findNode (p : ComfyUINode -> bool) (wf : ComfyUIWorkflow) : option nat :=
  match wf with
  | [] => None
  | (_, node) :: rest => if p node then Some O else S <$> findNode p rest
  end.

(** [node.inputs[key] = v].  With a missing [inputs] the assignment would be a
    [TypeError]; both [find] predicates below rule that out. *)
Definition setInput (key : string) (v : JsValue) (node : ComfyUINode) : ComfyUINode :=
  {| inputs := (fun m => <[key := v]> m) <$> inputs node;
     class_type := class_type node;
     _meta := _meta node |}.

(** Reading [node.inputs[key]]. *)
Definition getInput (key : string) (node : ComfyUINode) : option JsValue :=
  inputs node ≫= fun m => m !! key.

(** Apply an update to the node behind a reference. *)
Definition updateNode (i : nat) (f : ComfyUINode -> ComfyUINode)
    (wf : ComfyUIWorkflow) : ComfyUIWorkflow :=
  alter (fun kn => (kn.1, f kn.2)) i wf.

(** [node.class_type === 'LoadImage' && node.inputs && node.inputs.image !== undefined] *)
Definition isLoadImage (node : ComfyUINode) : bool :=
  String.eqb (class_type node) "LoadImage" &&
  match inputs node with
  | Some m => defined (m !! "image")
  | None => false
  end.

(** [node.class_type === 'LoadAudio' && node.inputs &&
     (node.inputs.audio !== undefined || node.inputs.filename !== undefined)] *)
Definition isLoadAudio (node : ComfyUINode) : bool :=
  String.eqb (class_type node) "LoadAudio" &&
  match inputs node with
  | Some m => defined (m !! "audio") || defined (m !! "filename")
  | None => false
  end.

(** "Find and update LoadImage node" *)
Definition patchImage (imageInfo : ImageInfo) : Patch unit :=
  fun wf =>
    match findNode isLoadImage wf with
    | None => throw MissingImageNode wf
    | Some i => (updateNode i (setInput "image" (JStr (name imageInfo))) wf, Ok tt)
    end.

(** The three-way write into the LoadAudio node: [audio] if defined, else
    [filename] if defined, else [audio]. *)
Definition writeAudio (audioName : string) (node : ComfyUINode) : ComfyUINode :=
  if defined (getInput "audio" node) then setInput "audio" (JStr audioName) node
  else if defined (getInput "filename" node) then setInput "filename" (JStr audioName) node
  else setInput "audio" (JStr audioName) node.

(** "Find and update LoadAudio node if audio uploaded" *)
Definition patchAudio (audioInfo : option ImageInfo) : Patch unit :=
  fun wf =>
    match audioInfo with
    | None => ret tt wf
    | Some info =>
        match findNode isLoadAudio wf with
        | None => throw MissingAudioNode wf
        | Some i => (updateNode i (writeAudio (name info)) wf, Ok tt)
        end
    end.

(** Both patches in the order of [execute]. *)
Definition patchWorkflow (imageInfo : ImageInfo) (audioInfo : option ImageInfo) : Patch unit :=
  do _u <- patchImage imageInfo;
  patchAudio audioInfo.

(** ** Inputs of one execution *)

Abbreviation Buffer := (list Byte.byte).

(** One attached binary property of the input item. *)
Record IBinaryData : Type := mkBinary {
  mimeType : option string;
  fileName : option string;
  data : Buffer
}.

(** [items[0].binary]: the attached properties in [Object.keys] order, or
    [None] when the item carries no binary data. *)
Definition IBinaryKeyData : Type := option (list (string * IBinaryData)).

(** The outcome of [JSON.parse(workflow)] followed by the structure check. *)
Inductive ParsedWorkflow : Type :=
| SyntaxError                          (* [JSON.parse] throws *)
| NotAnObject                          (* a number, string, boolean or [null] *)
| Graph (workflowData : ComfyUIWorkflow).

(** Node parameters, credentials and the first input item. *)
Record Params : Type := mkParams {
  apiUrl : string;
  workflow : ParsedWorkflow;
  inputType : string;
  inputImage : string;
  binaryPropertyName : string;
  audioBinaryPropertyName : string;
  timeout : Q;
  binary : IBinaryKeyData
}.

(** The attached property of a given name, if there is one. *)
Fixpoint assoc {A} (key : string) (l : list (string * A)) : option A :=
  match l with
  | [] => None
  | (k, v) :: rest => if String.eqb k key then Some v else assoc key rest
  end.

Definition binaryProperty (b : IBinaryKeyData) (key : string) : option IBinaryData :=
  b ≫= assoc key.

(** The property names of [Object.prototype], which every plain object
    inherits. *)
Definition objectPrototype : list string :=
  ["constructor"; "__defineGetter__"; "__defineSetter__"; "hasOwnProperty";
   "__lookupGetter__"; "__lookupSetter__"; "isPrototypeOf"; "propertyIsEnumerable";
   "toString"; "valueOf"; "__proto__"; "toLocaleString"].

Definition inObjectPrototype (key : string) : bool :=
  existsb (String.eqb key) objectPrototype.

(** What a read of [items[0].binary?.[key]] gives: an attached property, a
    member inherited from [Object.prototype] (a function or an object, hence
    truthy, and without a [mimeType]), or [undefined]. *)
Inductive Member : Type :=
| Own (b : IBinaryData)
| Inherited
| Absent.

(** A name that [items[0].binary] inherits; a missing [binary] inherits
    nothing. *)
Definition inheritedMember (b : IBinaryKeyData) (key : string) : bool :=
  match b with
  | Some _ => inObjectPrototype key
  | None => false
  end.

(** [items[0].binary?.[key]]: an attached property shadows an inherited
    member. *)
Definition binaryMember (b : IBinaryKeyData) (key : string) : Member :=
  match binaryProperty b key with
  | Some own => Own own
  | None => if inheritedMember b key then Inherited else Absent
  end.

(** [member.mimeType] *)
Definition memberMime (m : Member) : option string :=
  match m with
  | Own b => mimeType b
  | Inherited => None
  | Absent => None
  end.

(** [mimeType?.startsWith(prefix)], [undefined] being falsy. *)
Definition mimeStartsWith (m : option string) (p : string) : bool :=
  match m with
  | Some s => startsWith s p
  | None => false
  end.

(** ** The backend and the trace of calls *)

Inductive FormValue : Type :=
| FormFile (content : Buffer) (filename : string)
| FormText (value : string).

Abbreviation FormData := (list (string * FormValue)).

(** [promptResult.status] *)
Record Status : Type := mkStatus {
  completed : bool;
  status_str : string
}.

(** One entry of a node's [images] or [gifs] array. *)
Record OutputEntry : Type := mkEntry {
  filename : string;
  entry_subfolder : option string;
  entry_type : string
}.

(** One value of [promptResult.outputs]; arrays are truthy even when empty,
    [None] is a missing property. *)
Record NodeOutput : Type := mkNodeOutput {
  images : option (list OutputEntry);
  gifs : option (list OutputEntry)
}.

(** [history[promptId]] *)
Record PromptResult : Type := mkPromptResult {
  status : option Status;
  outputs : list (string * NodeOutput)
}.

(** What the backend answers; [None] is a rejected request.  The answer to a
    status query may depend on how many status queries came before it.  The
    last field is what [helpers.getBinaryDataBuffer], which is not part of
    this file, makes of a name that is not an attached property: a buffer, or
    [None] when it throws. *)
Record Backend : Type := mkBackend {
  systemStats : option unit;
  fetchUrl : string -> option Buffer;
  fromBase64 : string -> Buffer;
  uploadImage : FormData -> option ImageInfo;
  queuePrompt : ComfyUIWorkflow -> option (option string);
  history : nat -> string -> option (option PromptResult);
  view : string -> option (Z * Buffer);
  foreignBuffer : option Buffer
}.

Inductive Event : Type :=
| GetSystemStats (url : string)
| GetUrl (url : string)
| PostUpload (url : string) (body : FormData)
| PostPrompt (url : string) (prompt : ComfyUIWorkflow)
| Sleep (ms : Z)
| GetHistory (url : string)
| GetView (url : string).

Abbreviation Trace := (list Event).

Definition Exec (A : Type) : Type := SE Trace A.

(** [await this.helpers.request(...)]: log the call, then the answer or the
    rejection. *)
Definition request {A} (ev : Event) (answer : option A) : Exec A :=
  fun tr => (tr ++ [ev], match answer with Some a => Ok a | None => Err RequestFailed end).

(** [await new Promise(resolve => setTimeout(resolve, ms))] *)
Definition sleep (ms : Z) : Exec unit := fun tr => (tr ++ [Sleep ms], Ok tt).

Definition isGetHistory (ev : Event) : bool :=
  match ev with GetHistory _ => true | _ => false end.

(** Number of status queries made so far. *)
Definition historyQueries (tr : Trace) : nat := length (List.filter isGetHistory tr).

Definition isPostUpload (ev : Event) : bool :=
  match ev with PostUpload _ _ => true | _ => false end.

(** The upload requests of a trace, in order. *)
Definition uploads (tr : Trace) : list Event := List.filter isPostUpload tr.

(** ** Preparing and uploading the inputs *)

(** [await this.helpers.getBinaryDataBuffer(0, name)] for the member that the
    name reads: the bytes of an attached property. *)
Definition getBinaryDataBuffer (be : Backend) (m : Member) : Exec Buffer :=
  match m with
  | Own b => ret (data b)
  | Inherited | Absent =>
      match foreignBuffer be with
      | Some buffer => ret buffer
      | None => throw HelperFailed
      end
  end.

(** "Prepare input image"; [actual] is [items[0].binary[actualPropertyName]]. *)
Definition prepareImage (be : Backend) (p : Params) : Exec Buffer :=
  if String.eqb (inputType p) "url" then
    request (GetUrl (inputImage p)) (fetchUrl be (inputImage p))
  else if String.eqb (inputType p) "binary" then
    let binaryProperties := (default [] (binary p)).*1 in
    do actual <-
      match binaryMember (binary p) (binaryPropertyName p) with
      | Absent =>
          match List.find (fun key =>
                  mimeStartsWith (memberMime (binaryMember (binary p) key)) "image/")
                  binaryProperties with
          | Some imageProperty =>
              if truthy imageProperty then ret (binaryMember (binary p) imageProperty)
              else throw NoBinaryData
          | None => throw NoBinaryData
          end
      | found => ret found
      end;
    do imageBuffer <- getBinaryDataBuffer be actual;
    if negb (mimeStartsWith (memberMime actual) "image/") then throw InvalidInputImage
    else ret imageBuffer
  else
    ret (fromBase64 be (inputImage p)).

(** [uploadBuffer(buffer, filename)] *)
Definition uploadForm (buffer : Buffer) (filename : string) : FormData :=
  [("image", FormFile buffer filename); ("subfolder", FormText ""); ("overwrite", FormText "true")].

Definition uploadBuffer (be : Backend) (p : Params) (buffer : Buffer) (filename : string)
    : Exec ImageInfo :=
  let fd := uploadForm buffer filename in
  request (PostUpload (apiUrl p +:+ "/upload/image") fd) (uploadImage be fd).

(** "Optional audio upload" *)
Definition uploadAudio (be : Backend) (p : Params) : Exec (option ImageInfo) :=
  if truthy (audioBinaryPropertyName p) then
    match binaryMember (binary p) (audioBinaryPropertyName p) with
    | Absent => ret None
    | audioBinary =>
        let mime := default "" (memberMime audioBinary) in
        if negb (startsWith mime "audio/") then throw InvalidInputAudio
        else
          do audioBuffer <- getBinaryDataBuffer be audioBinary;
          do info <- uploadBuffer be p audioBuffer "input.mp3";
          ret (Some info)
    end
  else ret None.

(** "Parse and modify workflow JSON" up to the structure check. *)
Definition parseWorkflow (p : Params) : Exec ComfyUIWorkflow :=
  match workflow p with
  | SyntaxError => throw MalformedGraph
  | NotAnObject => throw MalformedGraph
  | Graph wf => ret wf
  end.

(** ** Output resolution *)

(** An output entry together with its download address ([{...img, url}]). *)
Record MediaOutput : Type := mkMedia {
  img : OutputEntry;
  url : string
}.

(** [nodeOutput.images || nodeOutput.gifs || []] *)
Definition nodeEntries (nodeOutput : NodeOutput) : list OutputEntry :=
  match images nodeOutput with
  | Some l => l
  | None =>
      match gifs nodeOutput with
      | Some l => l
      | None => []
      end
  end.

(** [image.type === 'output' || image.type === 'temp'] *)
Definition isOutputOrTemp (image : OutputEntry) : bool :=
  String.eqb (entry_type image) "output" || String.eqb (entry_type image) "temp".

(** [img.subfolder || ''] *)
Definition subfolderOrEmpty (image : OutputEntry) : string :=
  match entry_subfolder image with
  | Some s => if truthy s then s else ""
  | None => ""
  end.

Definition viewUrl (api : string) (image : OutputEntry) : string :=
  api +:+ "/view?filename=" +:+ filename image +:+ "&subfolder=" +:+ subfolderOrEmpty image
      +:+ "&type=" +:+ entry_type image.

(** [Object.values(outputs).flatMap(...).filter(...).map(...)] *)
Definition mediaOutputs (api : string) (outs : list (string * NodeOutput)) : list MediaOutput :=
  map (fun image => {| img := image; url := viewUrl api image |})
      (List.filter isOutputOrTemp (flat_map nodeEntries (outs.*2))).

(** The allow-list of the video filter. *)
Definition isVideo (output : MediaOutput) : bool :=
  endsWith (filename (img output)) ".webp" ||
  endsWith (filename (img output)) ".mp4" ||
  endsWith (filename (img output)) ".gif".

Definition videoOutputs (media : list MediaOutput) : list MediaOutput :=
  List.filter isVideo media.

(** From the raw outputs to [videoOutputs[0]], with the two emptiness checks. *)
Definition resolveOutput (api : string) (outs : list (string * NodeOutput)) : Result MediaOutput :=
  let media := mediaOutputs api outs in
  if (length media =? 0)%nat then Err NoMediaOutputs
  else
    let videos := videoOutputs media in
    if (length videos =? 0)%nat then Err NoVideoOutputs
    else
      match videos with
      | videoOutput :: _ => Ok videoOutput
      | [] => Err NoVideoOutputs
      end.

(** "Determine MIME type based on file extension": [(mimeType, fileExtension)] *)
Definition mimeAndExtension (fname : string) : string * string :=
  if endsWith fname ".mp4" then ("video/mp4", "mp4")
  else if endsWith fname ".gif" then ("image/gif", "gif")
  else ("image/webp", "webp").

(** The item returned by [execute].  [data] is the downloaded body (the source
    stores its base64 text); the [fileSize] label, a rounded floating point
    number, is left out. *)
Record VideoItem : Type := mkVideoItem {
  out_mimeType : string;
  out_fileName : string;
  out_data : Buffer;
  out_status : Status;
  out_fileType : string;
  out_fileExtension : string
}.

(** The body of [if (promptResult.status?.completed)] after the error check. *)
Definition retrieve (be : Backend) (p : Params) (st : Status)
    (outs : list (string * NodeOutput)) : Exec VideoItem :=
  match resolveOutput (apiUrl p) outs with
  | Err e => throw e
  | Ok videoOutput =>
      do videoResponse <- request (GetView (url videoOutput)) (view be (url videoOutput));
      if (videoResponse.1 =? 404) then throw OutputNotFound
      else
        let me := mimeAndExtension (filename (img videoOutput)) in
        ret {| out_mimeType := me.1;
               out_fileName := filename (img videoOutput);
               out_data := videoResponse.2;
               out_status := st;
               out_fileType := "video";
               out_fileExtension := me.2 |}
  end.

(** ** Queueing and polling *)

(** "Queue video generation" *)
Definition queue (be : Backend) (p : Params) (wf : ComfyUIWorkflow) : Exec string :=
  do response <- request (PostPrompt (apiUrl p +:+ "/prompt") wf) (queuePrompt be wf);
  match response with
  | Some promptId => if truthy promptId then ret promptId else throw SubmissionRejected
  | None => throw SubmissionRejected
  end.

(** The status query of one tick; its answer is the one the backend gives to
    the query with that ordinal. *)
Definition getHistory (be : Backend) (p : Params) (promptId : string)
    : Exec (option PromptResult) :=
  fun tr => request (GetHistory (apiUrl p +:+ "/history/" +:+ promptId))
                    (history be (historyQueries tr) promptId) tr.

(** How one pass through the loop body ends: [continue] (or falling off the
    end of the body), or [return]. *)
Inductive Tick : Type :=
| Continue
| Return (item : VideoItem).

(** The body of the [while] loop. *)
Definition pollTick (be : Backend) (p : Params) (promptId : string) : Exec Tick :=
  do _u <- sleep 1000;
  do promptResult <- getHistory be p promptId;
  match promptResult with
  | None => ret Continue
  | Some pr =>
      match status pr with
      | None => ret Continue
      | Some st =>
          if completed st then
            if String.eqb (status_str st) "error" then throw GenerationFailed
            else
              do item <- retrieve be p st (outputs pr);
              ret (Return item)
          else ret Continue
      end
  end.

(** [attempts < maxAttempts]: the counter is an integer, the cap a number
    that may have a fraction. *)
Definition belowCap (attempts : Z) (maxAttempts : Q) : bool :=
  match (inject_Z attempts ?= maxAttempts)%Q with
  | Lt => true
  | _ => false
  end.

(** [while (attempts < maxAttempts) { ...; attempts++; ... }] followed by the
    timeout [throw].  [fuel] bounds the number of passes; [None] means that
    the fuel ran out before the loop ended. *)
Fixpoint pollLoop (fuel : nat) (be : Backend) (p : Params) (promptId : string)
    (maxAttempts : Q) (attempts : Z) (tr : Trace) : option (Trace * Result VideoItem) :=
  match fuel with
  | O => None
  | S fuel' =>
      if belowCap attempts maxAttempts then
        match pollTick be p promptId tr with
        | (tr', Ok Continue) => pollLoop fuel' be p promptId maxAttempts (attempts + 1) tr'
        | (tr', Ok (Return item)) => Some (tr', Ok item)
        | (tr', Err e) => Some (tr', Err e)
        end
      else Some (tr, Err GenerationTimeout)
  end.

(** The number of integers from 0 on that are below [maxAttempts]: the
    cap rounded up, and none when the cap is zero or less. *)
Definition passes (maxAttempts : Q) : nat := Z.to_nat (Qceiling maxAttempts).

(** "Poll for completion": the warm-up delay, then the loop.  The loop makes
    at most [passes maxAttempts] passes, so this much fuel is never used up
    (see [poll_total]). *)
Definition poll (be : Backend) (p : Params) (promptId : string) (tr : Trace)
    : option (Trace * Result VideoItem) :=
  let maxAttempts := (60 * timeout p)%Q in
  match sleep 5000 tr with
  | (tr', _) => pollLoop (S (passes maxAttempts)) be p promptId maxAttempts 0 tr'
  end.

(** ** The whole of [execute] *)

(** Everything before the poll loop; the value is the prompt id and the graph
    as it was sent. *)
Definition submitJob (be : Backend) (p : Params) : Exec (string * ComfyUIWorkflow) :=
  do _u <- request (GetSystemStats (apiUrl p +:+ "/system_stats")) (systemStats be);
  do imageBuffer <- prepareImage be p;
  do imageInfo <- uploadBuffer be p imageBuffer "input.png";
  do audioInfo <- uploadAudio be p;
  do workflowData <- parseWorkflow p;
  match patchWorkflow imageInfo audioInfo workflowData with
  | (_, Err e) => throw e
  | (patched, Ok _) =>
      do promptId <- queue be p patched;
      ret (promptId, patched)
  end.

Definition execute (be : Backend) (p : Params) : option (Trace * Result VideoItem) :=
  match submitJob be p [] with
  | (tr, Err e) => Some (tr, Err e)
  | (tr, Ok (promptId, _)) => poll be p promptId tr
  end.

(** ** Vocabulary of the properties and sample data *)

(** The two-part eligibility tests, in words. *)
Definition eligibleImage (node : ComfyUINode) : Prop :=
  class_type node = "LoadImage" ∧ is_Some (getInput "image" node).

Definition eligibleAudio (node : ComfyUINode) : Prop :=
  class_type node = "LoadAudio" ∧
  (is_Some (getInput "audio" node) ∨ is_Some (getInput "filename" node)).

(** Sample graphs: the graph of the end-to-end scenario with an audio loader
    next to it, and graphs that lack one of the two loaders. *)
Definition sampleImageNode : ComfyUINode :=
  mkNode (Some {["image" := JStr ""]}) "LoadImage" None.

Definition sampleAudioNode : ComfyUINode :=
  mkNode (Some {["audio" := JStr "old.mp3"]}) "LoadAudio" (Some "Load Audio").

Definition sampleFilenameNode : ComfyUINode :=
  mkNode (Some {["filename" := JStr "old.mp3"]}) "LoadAudio" None.

(** A node that reuses the LoadImage role without an [image] input. *)
Definition roleOnlyNode : ComfyUINode :=
  mkNode (Some {["upload" := JStr "x"]}) "LoadImage" None.

Definition sampleGraph : ComfyUIWorkflow :=
  [("3", sampleImageNode); ("7", sampleAudioNode)].

Definition sampleImageInfo : ImageInfo := mkImageInfo "input (1).png" "" "input".
Definition sampleAudioInfo : ImageInfo := mkImageInfo "input.mp3" "" "input".

Definition roleOnlyGraph : ComfyUIWorkflow :=
  [("3", roleOnlyNode); ("7", sampleAudioNode)].

(** The graph of the end-to-end scenario: one LoadImage node, no audio node. *)
Definition imageOnlyGraph : ComfyUIWorkflow := [("3", sampleImageNode)].

(** The flatten step of the source: the entries each node contributes. *)
Definition candidates (outs : list (string * NodeOutput)) : list OutputEntry :=
  flat_map nodeEntries (outs.*2).

(** The flatten step read literally from the specification: every node gives
    its image-like entries and its gif-like entries. *)
Definition candidatesImagesAndGifs (outs : list (string * NodeOutput)) : list OutputEntry :=
  flat_map (fun nodeOutput => default [] (images nodeOutput) ++ default [] (gifs nodeOutput))
           (outs.*2).

(** Resolution as specified, over the literal flatten step: keep kinds
    [output] and [temp], fail on an empty list, keep the three extensions,
    fail if nothing is left, take the first. *)
Definition resolveImagesAndGifs (api : string) (outs : list (string * NodeOutput))
    : Result MediaOutput :=
  match List.filter isOutputOrTemp (candidatesImagesAndGifs outs) with
  | [] => Err NoMediaOutputs
  | kept =>
      match List.filter (fun e => isVideo {| img := e; url := viewUrl api e |}) kept with
      | [] => Err NoVideoOutputs
      | e :: _ => Ok {| img := e; url := viewUrl api e |}
      end
  end.

(** Kind and extension tests in words. *)
Definition keptKind (e : OutputEntry) : Prop :=
  entry_type e = "output" ∨ entry_type e = "temp".

Definition videoName (f : string) : Prop :=
  exists stem, f = stem +:+ ".webp" ∨ f = stem +:+ ".mp4" ∨ f = stem +:+ ".gif".

Definition isVideoName (f : string) : bool :=
  endsWith f ".webp" || endsWith f ".mp4" || endsWith f ".gif".

(** Sample outputs: the two-candidate list of the specification, the same
    without the animated file, and a node that reports both [images] and
    [gifs]. *)
Definition aPng : OutputEntry := mkEntry "a.png" (Some "") "output".
Definition bWebp : OutputEntry := mkEntry "b.webp" (Some "") "output".

Definition pngAndWebp : list (string * NodeOutput) :=
  [("9", mkNodeOutput (Some [aPng; bWebp]) None)].

Definition pngOnly : list (string * NodeOutput) :=
  [("9", mkNodeOutput (Some [aPng]) None)].

Definition imagesAndGifs : list (string * NodeOutput) :=
  [("9", mkNodeOutput (Some [aPng]) (Some [bWebp]))].

(** The address of the status query. *)
Definition historyUrl (p : Params) (promptId : string) : string :=
  apiUrl p +:+ "/history/" +:+ promptId.

(** What [n] passes through the loop body add to the trace. *)
Fixpoint ticks (p : Params) (promptId : string) (n : nat) : Trace :=
  match n with
  | O => []
  | S n' => Sleep 1000 :: GetHistory (historyUrl p promptId) :: ticks p promptId n'
  end.

(** An answer to a status query on which the loop keeps polling: no record
    for the id, a record without [status], or [completed] false. *)
Definition pendingAnswer (a : option (option PromptResult)) : Prop :=
  a = Some None ∨
  exists pr, a = Some (Some pr) ∧
    (status pr = None ∨ exists st, status pr = Some st ∧ completed st = false).

(** An answer with [completed] true and [status_str] equal to ['error']. *)
Definition errorAnswer (a : option (option PromptResult)) : Prop :=
  exists pr st, a = Some (Some pr) ∧ status pr = Some st ∧
    completed st = true ∧ status_str st = "error".

(** Sample executions: the end-to-end scenario of the specification (inline
    bytes, no audio, timeout 1) against three backends. *)
Definition sampleParams : Params :=
  mkParams "http://comfy" (Graph imageOnlyGraph) "base64" "aGk=" "data" "" 1 None.

(** The number of passes that the poll loop makes at most. *)
Definition attemptCap (p : Params) : nat := passes (60 * timeout p).


(** A backend that never has a record for the job. *)
Definition idleBackend : Backend :=
  mkBackend (Some tt) (fun _ => None) (fun _ => []) (fun _ => Some sampleImageInfo)
            (fun _ => Some (Some "job-1")) (fun _ _ => Some None) (fun _ => None) None.

(** A backend that reports no record, then a record without status, then an
    unfinished job, then a failed one. *)
Definition failingBackend : Backend :=
  mkBackend (Some tt) (fun _ => None) (fun _ => []) (fun _ => Some sampleImageInfo)
            (fun _ => Some (Some "job-1"))
            (fun k _ =>
               match k with
               | O => Some None
               | 1%nat => Some (Some (mkPromptResult None []))
               | 2%nat => Some (Some (mkPromptResult (Some (mkStatus false "")) []))
               | _ => Some (Some (mkPromptResult (Some (mkStatus true "error")) []))
               end)
            (fun _ => None) None.

(** The upload request that [uploadBuffer] sends. *)
Definition uploadRequest (p : Params) (buffer : Buffer) (fname : string) : Event :=
  PostUpload (apiUrl p +:+ "/upload/image") (uploadForm buffer fname).

(** A computation that sends no upload request. *)
Definition quiet {A} (m : Exec A) : Prop :=
  forall tr tr' r, m tr = (tr', r) -> uploads tr' = uploads tr.

(** The possible lists of upload requests of one execution. *)
Definition canonicalUploads (p : Params) (ups : list Event) : Prop :=
  ups = [] ∨
  exists imageBuffer,
    ups = [uploadRequest p imageBuffer "input.png"] ∨
    exists audioBinary,
      binaryProperty (binary p) (audioBinaryPropertyName p) = Some audioBinary ∧
      ups = [uploadRequest p imageBuffer "input.png";
             uploadRequest p (data audioBinary) "input.mp3"].

(** The same parameters with the audio property name left empty. *)
Definition withoutAudio (p : Params) : Params :=
  mkParams (apiUrl p) (workflow p) (inputType p) (inputImage p) (binaryPropertyName p)
           "" (timeout p) (binary p).

(** Errors other than the two audio failures. *)
Definition audioFree (e : Error) : Prop := e ≠ InvalidInputAudio ∧ e ≠ MissingAudioNode.

(** A computation that throws neither audio failure. *)
Definition silent {A} (m : Exec A) : Prop :=
  forall tr tr' e, m tr = (tr', Err e) -> audioFree e.

(** A backend on which the job succeeds at the second status query with one
    animated WebP output. *)
Definition successBackend : Backend :=
  mkBackend (Some tt) (fun _ => None) (fun _ => []) (fun _ => Some sampleImageInfo)
            (fun _ => Some (Some "job-1"))
            (fun k _ =>
               match k with
               | O => Some None
               | _ => Some (Some (mkPromptResult (Some (mkStatus true "success"))
                        [("9", mkNodeOutput (Some [mkEntry "result.webp" None "output"]) None)]))
               end)
            (fun _ => Some (200, [Byte.x52; Byte.x49])) None.

(** An input item with an image and a WAV file attached. *)
Definition audioParams : Params :=
  mkParams "http://comfy" (Graph sampleGraph) "binary" "" "data" "song" 1
    (Some [("data", mkBinary (Some "image/jpeg") (Some "photo.jpg") [Byte.xff]);
           ("song", mkBinary (Some "audio/wav") (Some "voice.wav") [Byte.x01])]).

(** An input item with an image attached and an audio property name that
    is attached nowhere but is a member of every object. *)
Definition inheritedAudioParams : Params :=
  mkParams "http://comfy" (Graph sampleGraph) "binary" "" "data" "toString" 1
    (Some [("data", mkBinary (Some "image/jpeg") (Some "photo.jpg") [Byte.xff])]).

(** The same item without the WAV file, the property name still given. *)
Definition missingAudioParams : Params :=
  mkParams "http://comfy" (Graph sampleGraph) "binary" "" "data" "song" 1
    (Some [("data", mkBinary (Some "image/jpeg") (Some "photo.jpg") [Byte.xff])]).

(** ** Further vocabulary: graphs, inputs and the request protocol *)

(** A graph with two eligible LoadImage nodes and a plain node. *)
Definition secondImageNode : ComfyUINode :=
  mkNode (Some {["image" := JStr "mask.png"]}) "LoadImage" None.

Definition samplerNode : ComfyUINode :=
  mkNode (Some {["seed" := JNum 7; "image" := JArr [JStr "3"; JNum 0]]}) "KSampler" None.

Definition twoImagesGraph : ComfyUIWorkflow :=
  [("1", samplerNode); ("3", sampleImageNode); ("5", secondImageNode)].

(** What the patch step may change in a node: nothing but the inputs
    [image], [audio] and [filename], and those only in a node of the
    matching class. *)
Definition framed (node node' : ComfyUINode) : Prop :=
  class_type node' = class_type node ∧
  _meta node' = _meta node ∧
  (forall key, key ≠ "image" -> key ≠ "audio" -> key ≠ "filename" ->
     getInput key node' = getInput key node) ∧
  (¬ eligibleImage node -> ¬ eligibleAudio node -> node' = node) ∧
  (class_type node ≠ "LoadAudio" ->
     getInput "audio" node' = getInput "audio" node ∧
     getInput "filename" node' = getInput "filename" node) ∧
  (class_type node ≠ "LoadImage" -> getInput "image" node' = getInput "image" node).

(** Input items: a video named by the image property next to a photo; a
    photo under another name than the one asked for; no image at all. *)
Definition wrongTypeParams : Params :=
  mkParams "http://comfy" (Graph imageOnlyGraph) "binary" "" "data" "" 1
    (Some [("data", mkBinary (Some "video/mp4") (Some "clip.mp4") [Byte.x00]);
           ("photo", mkBinary (Some "image/png") (Some "p.png") [Byte.x89])]).

Definition fallbackParams : Params :=
  mkParams "http://comfy" (Graph imageOnlyGraph) "binary" "" "data" "" 1
    (Some [("notes", mkBinary (Some "text/plain") None [Byte.x41]);
           ("photo", mkBinary (Some "image/png") (Some "p.png") [Byte.x89]);
           ("scan", mkBinary (Some "image/jpeg") None [Byte.xff])]).

Definition noImageParams : Params :=
  mkParams "http://comfy" (Graph imageOnlyGraph) "binary" "" "data" "" 1
    (Some [("notes", mkBinary (Some "text/plain") None [Byte.x41]);
           ("untyped", mkBinary None None [Byte.x42])]).

(** A photo attached under another name, the name asked for being one that
    every object inherits. *)
Definition inheritedImageParams : Params :=
  mkParams "http://comfy" (Graph imageOnlyGraph) "binary" "" "constructor" "" 1
    (Some [("photo", mkBinary (Some "image/png") (Some "p.png") [Byte.x89])]).

(** An input type that is none of the three offered. *)
Definition otherTypeParams : Params :=
  mkParams "http://comfy" (Graph imageOnlyGraph) "file" "aGk=" "data" "" 1 None.

(** An answer with [completed] true and a status other than ['error']. *)
Definition completedAnswer (a : option (option PromptResult)) (pr : PromptResult)
    (st : Status) : Prop :=
  a = Some (Some pr) ∧ status pr = Some st ∧
  completed st = true ∧ status_str st ≠ "error".

(** The item that [execute] returns for a selected output and its body. *)
Definition videoItem (st : Status) (videoOutput : MediaOutput) (body : Buffer) : VideoItem :=
  {| out_mimeType := (mimeAndExtension (filename (img videoOutput))).1;
     out_fileName := filename (img videoOutput);
     out_data := body;
     out_status := st;
     out_fileType := "video";
     out_fileExtension := (mimeAndExtension (filename (img videoOutput))).2 |}.

(** Backends for the poll phase: the output file is gone (404); the job
    succeeds with a still image only; the second status query is rejected;
    the job completes too late for a timeout of one minute. *)
Definition goneBackend : Backend :=
  mkBackend (Some tt) (fun _ => None) (fun _ => []) (fun _ => Some sampleImageInfo)
            (fun _ => Some (Some "job-1"))
            (fun k _ =>
               match k with
               | O => Some None
               | _ => Some (Some (mkPromptResult (Some (mkStatus true "success"))
                        [("9", mkNodeOutput (Some [mkEntry "result.webp" None "output"]) None)]))
               end)
            (fun _ => Some (404, [])) None.

Definition stillImageBackend : Backend :=
  mkBackend (Some tt) (fun _ => None) (fun _ => []) (fun _ => Some sampleImageInfo)
            (fun _ => Some (Some "job-1"))
            (fun _ _ => Some (Some (mkPromptResult (Some (mkStatus true "success"))
                        [("9", mkNodeOutput (Some [mkEntry "frame.png" None "output"]) None)])))
            (fun _ => Some (200, [Byte.x01])) None.

Definition flakyBackend : Backend :=
  mkBackend (Some tt) (fun _ => None) (fun _ => []) (fun _ => Some sampleImageInfo)
            (fun _ => Some (Some "job-1"))
            (fun k _ => match k with O => Some None | _ => None end)
            (fun _ => None) None.


(** The errors that the poll phase can end with. *)
Definition pollError (e : Error) : Prop :=
  e = RequestFailed ∨ e = GenerationFailed ∨ e = NoMediaOutputs ∨
  e = NoVideoOutputs ∨ e = OutputNotFound ∨ e = GenerationTimeout.

(** An item that was built from a completed, non-failed status record, the
    output selected from it and a download that was not answered with 404. *)
Definition retrievedItem (be : Backend) (p : Params) (item : VideoItem) : Prop :=
  exists outs st videoOutput code body,
    completed st = true ∧ status_str st ≠ "error" ∧
    resolveOutput (apiUrl p) outs = Ok videoOutput ∧
    view be (url videoOutput) = Some (code, body) ∧ code ≠ 404 ∧
    item = videoItem st videoOutput body.

(** The first request of every execution and the request that queues the
    graph. *)
Definition healthCheck (p : Params) : Event :=
  GetSystemStats (apiUrl p +:+ "/system_stats").

Definition promptRequest (p : Params) (prompt : ComfyUIWorkflow) : Event :=
  PostPrompt (apiUrl p +:+ "/prompt") prompt.

Definition isPostPrompt (ev : Event) : bool :=
  match ev with PostPrompt _ _ => true | _ => false end.

(** The prompt requests of a trace, in order. *)
Definition prompts (tr : Trace) : list Event := List.filter isPostPrompt tr.

(** The inputs are uploaded: the health check passed, the image was prepared
    and uploaded with answer [imageInfo], and the audio phase ended without an
    error with [audioInfo], leaving the trace [tr]. *)
Definition inputsUploaded (be : Backend) (p : Params) (tr : Trace)
    (imageInfo : ImageInfo) (audioInfo : option ImageInfo) : Prop :=
  exists tr1 imageBuffer,
    systemStats be = Some tt ∧
    prepareImage be p [healthCheck p] = (tr1, Ok imageBuffer) ∧
    uploadImage be (uploadForm imageBuffer "input.png") = Some imageInfo ∧
    uploadAudio be p (tr1 ++ [uploadRequest p imageBuffer "input.png"])
      = (tr, Ok audioInfo).

(** The ways in which the steps before polling can end, one per exit of the
    source, with the trace at that exit. *)
Inductive Submitted (be : Backend) (p : Params)
    : Trace -> Result (string * ComfyUIWorkflow) -> Prop :=
| SubmitUnreachable :
    systemStats be = None ->
    Submitted be p [healthCheck p] (Err RequestFailed)
| SubmitNoImage tr1 e :
    systemStats be = Some tt ->
    prepareImage be p [healthCheck p] = (tr1, Err e) ->
    Submitted be p tr1 (Err e)
| SubmitImageUploadFailed tr1 imageBuffer :
    systemStats be = Some tt ->
    prepareImage be p [healthCheck p] = (tr1, Ok imageBuffer) ->
    uploadImage be (uploadForm imageBuffer "input.png") = None ->
    Submitted be p (tr1 ++ [uploadRequest p imageBuffer "input.png"]) (Err RequestFailed)
| SubmitAudioFailed tr1 imageBuffer imageInfo tr3 e :
    systemStats be = Some tt ->
    prepareImage be p [healthCheck p] = (tr1, Ok imageBuffer) ->
    uploadImage be (uploadForm imageBuffer "input.png") = Some imageInfo ->
    uploadAudio be p (tr1 ++ [uploadRequest p imageBuffer "input.png"]) = (tr3, Err e) ->
    Submitted be p tr3 (Err e)
| SubmitMalformed tr3 imageInfo audioInfo :
    inputsUploaded be p tr3 imageInfo audioInfo ->
    (forall wf, workflow p ≠ Graph wf) ->
    Submitted be p tr3 (Err MalformedGraph)
| SubmitUnpatchable tr3 imageInfo audioInfo wf wf' e :
    inputsUploaded be p tr3 imageInfo audioInfo ->
    workflow p = Graph wf ->
    patchWorkflow imageInfo audioInfo wf = (wf', Err e) ->
    Submitted be p tr3 (Err e)
| SubmitQueueFailed tr3 imageInfo audioInfo wf patched :
    inputsUploaded be p tr3 imageInfo audioInfo ->
    workflow p = Graph wf ->
    patchWorkflow imageInfo audioInfo wf = (patched, Ok tt) ->
    queuePrompt be patched = None ->
    Submitted be p (tr3 ++ [promptRequest p patched]) (Err RequestFailed)
| SubmitRejected tr3 imageInfo audioInfo wf patched answer :
    inputsUploaded be p tr3 imageInfo audioInfo ->
    workflow p = Graph wf ->
    patchWorkflow imageInfo audioInfo wf = (patched, Ok tt) ->
    queuePrompt be patched = Some answer ->
    (answer = None ∨ answer = Some "") ->
    Submitted be p (tr3 ++ [promptRequest p patched]) (Err SubmissionRejected)
| SubmitQueued tr3 imageInfo audioInfo wf patched promptId :
    inputsUploaded be p tr3 imageInfo audioInfo ->
    workflow p = Graph wf ->
    patchWorkflow imageInfo audioInfo wf = (patched, Ok tt) ->
    queuePrompt be patched = Some (Some promptId) ->
    promptId ≠ "" ->
    Submitted be p (tr3 ++ [promptRequest p patched]) (Ok (promptId, patched)).

(** Parameters whose workflow text is not JSON, and a backend that answers
    the prompt request without a prompt id. *)
Definition brokenJsonParams : Params :=
  mkParams "http://comfy" SyntaxError "base64" "aGk=" "data" "" 1 None.

Definition rejectingBackend : Backend :=
  mkBackend (Some tt) (fun _ => None) (fun _ => []) (fun _ => Some sampleImageInfo)
            (fun _ => Some None) (fun _ _ => Some None) (fun _ => None) None.

(** An input item whose audio property holds a text file. *)
Definition textAsAudioParams : Params :=
  mkParams "http://comfy" (Graph sampleGraph) "binary" "" "data" "song" 1
    (Some [("data", mkBinary (Some "image/jpeg") (Some "photo.jpg") [Byte.xff]);
           ("song", mkBinary (Some "text/plain") (Some "lyrics.txt") [Byte.x41])]).

(** An input item whose audio property carries no MIME type. *)
Definition untypedAudioParams : Params :=
  mkParams "http://comfy" (Graph sampleGraph) "binary" "" "data" "song" 1
    (Some [("data", mkBinary (Some "image/jpeg") (Some "photo.jpg") [Byte.xff]);
           ("song", mkBinary None (Some "voice.mp3") [Byte.x01])]).

(** * Properties *)

(** ** Strings *)

Lemma truthy_true (s : string) : truthy s = true <-> s ≠ "".
Proof.
  unfold truthy. rewrite negb_true_iff. split.
  - intros H ->. by rewrite String.eqb_refl in H.
  - intros H. by apply String.eqb_neq.
Qed.

Lemma truthy_false (s : string) : truthy s = false <-> s = "".
Proof. unfold truthy. rewrite negb_false_iff. apply String.eqb_eq. Qed.

(** ** Looking up and updating nodes *)

Lemma defined_true (v : option JsValue) : defined v = true <-> is_Some v.
Proof. destruct v; simpl; split; intros H; try done; by destruct H. Qed.

Lemma defined_false (v : option JsValue) : defined v = false <-> v = None.
Proof. destruct v; simpl; split; intros H; done. Qed.

Lemma isLoadImage_spec (node : ComfyUINode) :
  isLoadImage node = true <-> eligibleImage node.
Proof.
  unfold isLoadImage, eligibleImage, getInput.
  rewrite andb_true_iff, String.eqb_eq.
  destruct (inputs node) as [m|]; simpl.
  - by rewrite defined_true.
  - split; intros [? H]; [done | by destruct H].
Qed.

Lemma isLoadAudio_spec (node : ComfyUINode) :
  isLoadAudio node = true <-> eligibleAudio node.
Proof.
  unfold isLoadAudio, eligibleAudio, getInput.
  rewrite andb_true_iff, String.eqb_eq.
  destruct (inputs node) as [m|]; simpl.
  - by rewrite orb_true_iff, !defined_true.
  - split; intros [? H]; [done | by destruct H as [[]|[]]].
Qed.

Lemma findNode_Some (p : ComfyUINode -> bool) (wf : ComfyUIWorkflow) (i : nat) :
  findNode p wf = Some i <->
  (exists kn, wf !! i = Some kn ∧ p kn.2 = true) ∧
  (forall j kn, (j < i)%nat -> wf !! j = Some kn -> p kn.2 = false).
Proof.
  revert i. induction wf as [|[k n] rest IH]; intros i; simpl.
  - split; [done | by intros [[kn [H _]] _]].
  - destruct (p n) eqn:Hp.
    + split.
      * intros [= <-]. split; [by exists (k, n) | intros j kn Hj; lia].
      * intros [[kn [Hi Hkn]] Hfirst]. destruct i as [|i]; [done|].
        specialize (Hfirst O (k, n)). simpl in Hfirst.
        rewrite Hp in Hfirst. discriminate Hfirst; [lia | done].
    + split.
      * intros H. apply fmap_Some in H as (i' & Hf & ->).
        apply IH in Hf as [Hex Hfirst]. split; [done|].
        intros [|j] kn Hj Hl; simpl in Hl.
        -- by injection Hl as <-.
        -- apply (Hfirst j); [lia | done].
      * intros [[kn [Hi Hkn]] Hfirst]. destruct i as [|i]; simpl in Hi.
        -- injection Hi as <-. simpl in Hkn. congruence.
        -- apply fmap_Some. exists i. split; [|done].
           apply IH. split; [by exists kn|].
           intros j kn' Hj Hl. apply (Hfirst (S j)); [lia | done].
Qed.

Lemma findNode_None (p : ComfyUINode -> bool) (wf : ComfyUIWorkflow) :
  findNode p wf = None <-> forall j kn, wf !! j = Some kn -> p kn.2 = false.
Proof.
  induction wf as [|[k n] rest IH]; simpl.
  - split; [by intros _ j kn | done].
  - destruct (p n) eqn:Hp.
    + split; [done|]. intros H. specialize (H O (k, n) eq_refl). simpl in H. congruence.
    + rewrite fmap_None, IH. split.
      * intros H [|j] kn Hl; simpl in Hl.
        -- by injection Hl as <-.
        -- by apply (H j).
      * intros H j kn Hl. by apply (H (S j)).
Qed.

Lemma updateNode_lookup (i : nat) f (wf : ComfyUIWorkflow) k node :
  wf !! i = Some (k, node) -> updateNode i f wf !! i = Some (k, f node).
Proof. intros H. unfold updateNode. by rewrite list_lookup_alter_eq, H. Qed.

Lemma updateNode_lookup_ne (i j : nat) f (wf : ComfyUIWorkflow) :
  i ≠ j -> updateNode i f wf !! j = wf !! j.
Proof. intros H. unfold updateNode. by apply list_lookup_alter_ne. Qed.

Lemma updateNode_keys (i : nat) f (wf : ComfyUIWorkflow) :
  (updateNode i f wf).*1 = wf.*1.
Proof.
  unfold updateNode. revert i. induction wf as [|[k n] rest IH]; intros [|i]; simpl; try done.
  f_equal. apply IH.
Qed.

Lemma getInput_setInput_eq key v node :
  is_Some (inputs node) -> getInput key (setInput key v node) = Some v.
Proof.
  intros [m Hm]. unfold getInput, setInput. simpl. rewrite Hm. simpl.
  apply lookup_insert_eq.
Qed.

Lemma getInput_setInput_ne key key' v node :
  key ≠ key' -> getInput key' (setInput key v node) = getInput key' node.
Proof.
  intros Hne. unfold getInput, setInput. simpl.
  destruct (inputs node) as [m|]; simpl; [|done]. by apply lookup_insert_ne.
Qed.

Lemma getInput_is_Some_inputs key node :
  is_Some (getInput key node) -> is_Some (inputs node).
Proof. unfold getInput. destruct (inputs node); simpl; [eauto | by intros []]. Qed.

(** ** The image patch *)

Lemma patchImage_found (imageInfo : ImageInfo) (wf : ComfyUIWorkflow) i :
  findNode isLoadImage wf = Some i ->
  patchImage imageInfo wf =
    (updateNode i (setInput "image" (JStr (name imageInfo))) wf, Ok tt).
Proof. intros H. unfold patchImage. by rewrite H. Qed.

Lemma patchImage_not_found (imageInfo : ImageInfo) (wf : ComfyUIWorkflow) :
  findNode isLoadImage wf = None ->
  patchImage imageInfo wf = (wf, Err MissingImageNode).
Proof. intros H. unfold patchImage. by rewrite H. Qed.

(** C1: in a well-formed graph whose only eligible LoadImage node sits at
    position [i] under id [k], the image patch succeeds, the node at [i] keeps
    its id, class and meta data, its [image] input becomes the [name] field of
    the upload answer, its other inputs are as before, every other entry of
    the graph is unchanged, and the graph is still well formed. *)
Theorem patchImage_sets_unique_node
    (imageInfo : ImageInfo) (wf : ComfyUIWorkflow) (i : nat) (k : string)
    (node : ComfyUINode) :
  wellFormed wf ->
  wf !! i = Some (k, node) ->
  eligibleImage node ->
  (forall j k' node', wf !! j = Some (k', node') -> eligibleImage node' -> j = i) ->
  exists wf' node',
    patchImage imageInfo wf = (wf', Ok tt) ∧
    wf' !! i = Some (k, node') ∧
    getInput "image" node' = Some (JStr (name imageInfo)) ∧
    (forall key, key ≠ "image" -> getInput key node' = getInput key node) ∧
    class_type node' = class_type node ∧
    _meta node' = _meta node ∧
    (forall j, j ≠ i -> wf' !! j = wf !! j) ∧
    length wf' = length wf ∧
    wellFormed wf'.
Proof.
  intros Hwf Hi Hel Huniq.
  assert (findNode isLoadImage wf = Some i) as Hfind.
  { apply findNode_Some. split.
    - exists (k, node). split; [done|]. by apply isLoadImage_spec.
    - intros j [k' node'] Hj Hl. simpl.
      destruct (isLoadImage node') eqn:Hp; [|done].
      apply isLoadImage_spec in Hp. specialize (Huniq j k' node' Hl Hp). lia. }
  exists (updateNode i (setInput "image" (JStr (name imageInfo))) wf),
         (setInput "image" (JStr (name imageInfo)) node).
  split; [by apply patchImage_found|].
  split; [by apply updateNode_lookup|].
  split.
  { apply getInput_setInput_eq. destruct Hel as [_ Hsome].
    by apply getInput_is_Some_inputs in Hsome. }
  split; [intros key Hkey; by apply getInput_setInput_ne|].
  split; [done|]. split; [done|].
  split; [intros j Hj; by apply updateNode_lookup_ne|].
  split; [apply length_alter|].
  unfold wellFormed. by rewrite updateNode_keys.
Qed.

Lemma patchImage_sets_unique_node_witness :
  exists wf' node',
    patchImage sampleImageInfo sampleGraph = (wf', Ok tt) ∧
    wf' !! O = Some ("3", node') ∧
    getInput "image" node' = Some (JStr "input (1).png") ∧
    (forall key, key ≠ "image" -> getInput key node' = getInput key sampleImageNode) ∧
    class_type node' = class_type sampleImageNode ∧
    _meta node' = _meta sampleImageNode ∧
    (forall j, j ≠ O -> wf' !! j = sampleGraph !! j) ∧
    length wf' = length sampleGraph ∧
    wellFormed wf'.
Proof.
  apply (patchImage_sets_unique_node sampleImageInfo sampleGraph O "3" sampleImageNode).
  - unfold wellFormed. simpl.
    apply NoDup_cons_2; [rewrite list_elem_of_singleton; discriminate | apply NoDup_singleton].
  - reflexivity.
  - split; [reflexivity | exists (JStr ""); vm_compute; reflexivity].
  - intros [|[|j]] k' node'; simpl; intros Hl Hel.
    + reflexivity.
    + injection Hl as <- <-. destruct Hel as [Hc _]. discriminate Hc.
    + discriminate Hl.
Defined.

Lemma findNode_is_Some (p : ComfyUINode -> bool) (wf : ComfyUIWorkflow) j kn :
  wf !! j = Some kn -> p kn.2 = true -> is_Some (findNode p wf).
Proof.
  intros Hl Hp. destruct (findNode p wf) as [i|] eqn:Hf; [by exists i|].
  rewrite findNode_None in Hf. specialize (Hf j kn Hl). congruence.
Qed.

Lemma no_eligible_image (wf : ComfyUIWorkflow) :
  (forall j k node, wf !! j = Some (k, node) -> ¬ eligibleImage node) <->
  findNode isLoadImage wf = None.
Proof.
  rewrite findNode_None. split.
  - intros H j [k node] Hl. simpl. destruct (isLoadImage node) eqn:Hp; [|done].
    apply isLoadImage_spec in Hp. by destruct (H j k node Hl).
  - intros H j k node Hl Hel. apply isLoadImage_spec in Hel.
    specialize (H j (k, node) Hl). simpl in H. congruence.
Qed.

Lemma no_eligible_audio (wf : ComfyUIWorkflow) :
  (forall j k node, wf !! j = Some (k, node) -> ¬ eligibleAudio node) <->
  findNode isLoadAudio wf = None.
Proof.
  rewrite findNode_None. split.
  - intros H j [k node] Hl. simpl. destruct (isLoadAudio node) eqn:Hp; [|done].
    apply isLoadAudio_spec in Hp. by destruct (H j k node Hl).
  - intros H j k node Hl Hel. apply isLoadAudio_spec in Hel.
    specialize (H j (k, node) Hl). simpl in H. congruence.
Qed.

(** C5: when no node of the graph is a LoadImage node with a defined [image]
    input, the patch step throws MissingImageNode, with or without an audio
    upload, and leaves the graph as it was.  A LoadImage node without an
    [image] input is not eligible. *)
Theorem patch_without_image_node
    (imageInfo : ImageInfo) (audioInfo : option ImageInfo) (wf : ComfyUIWorkflow) :
  wellFormed wf ->
  (forall j k node, wf !! j = Some (k, node) ->
     ¬ (class_type node = "LoadImage" ∧ is_Some (getInput "image" node))) ->
  patchWorkflow imageInfo audioInfo wf = (wf, Err MissingImageNode) ∧
  patchImage imageInfo wf = (wf, Err MissingImageNode).
Proof.
  intros _ Hnone. apply no_eligible_image in Hnone.
  unfold patchWorkflow, bind. by rewrite (patchImage_not_found _ _ Hnone).
Qed.

Lemma patch_without_image_node_witness :
  patchWorkflow sampleImageInfo (Some sampleAudioInfo) roleOnlyGraph
    = (roleOnlyGraph, Err MissingImageNode) ∧
  patchImage sampleImageInfo roleOnlyGraph = (roleOnlyGraph, Err MissingImageNode).
Proof.
  apply (patch_without_image_node sampleImageInfo (Some sampleAudioInfo) roleOnlyGraph).
  - unfold wellFormed. simpl.
    apply NoDup_cons_2; [rewrite list_elem_of_singleton; discriminate | apply NoDup_singleton].
  - intros [|[|j]] k node; simpl; intros Hl [Hc Hin]; try discriminate Hl.
    + injection Hl as <- <-. destruct Hin as [v Hv]. vm_compute in Hv. discriminate Hv.
    + injection Hl as <- <-. discriminate Hc.
Defined.

(** ** The audio patch *)

Lemma isLoadAudio_setInput_image v node :
  isLoadAudio (setInput "image" v node) = isLoadAudio node.
Proof.
  unfold isLoadAudio, setInput. simpl. destruct (inputs node) as [m|]; simpl; [|done].
  by rewrite !lookup_insert_ne.
Qed.

Lemma findNode_updateNode (p : ComfyUINode -> bool) f i (wf : ComfyUIWorkflow) :
  (forall n, p (f n) = p n) -> findNode p (updateNode i f wf) = findNode p wf.
Proof.
  intros Hp. revert i.
  induction wf as [|[k n] rest IH]; intros [|i]; try done.
  - cbn. by rewrite Hp.
  - change (updateNode (S i) f ((k, n) :: rest)) with ((k, n) :: updateNode i f rest).
    cbn [findNode]. by rewrite IH.
Qed.

Lemma image_audio_positions_differ (wf : ComfyUIWorkflow) i0 i :
  findNode isLoadImage wf = Some i0 -> findNode isLoadAudio wf = Some i -> i0 ≠ i.
Proof.
  intros [[kn0 [Hl0 Hp0]] _]%findNode_Some [[kn [Hl Hp]] _]%findNode_Some ->.
  assert (kn0 = kn) as -> by congruence.
  apply isLoadImage_spec in Hp0 as [Hc0 _]. apply isLoadAudio_spec in Hp as [Hc _].
  congruence.
Qed.

Lemma writeAudio_audio nm node :
  is_Some (getInput "audio" node) ->
  writeAudio nm node = setInput "audio" (JStr nm) node.
Proof. intros H%defined_true. unfold writeAudio. by rewrite H. Qed.

Lemma writeAudio_filename nm node :
  getInput "audio" node = None -> is_Some (getInput "filename" node) ->
  writeAudio nm node = setInput "filename" (JStr nm) node.
Proof.
  intros Ha%defined_false Hf%defined_true. unfold writeAudio. by rewrite Ha, Hf.
Qed.

Lemma writeAudio_fallback nm node :
  getInput "audio" node = None -> getInput "filename" node = None ->
  writeAudio nm node = setInput "audio" (JStr nm) node.
Proof.
  intros Ha%defined_false Hf%defined_false. unfold writeAudio. by rewrite Ha, Hf.
Qed.

(** C6: let [node] be the first eligible LoadAudio node in enumeration
    order, the one that [find] returns.  With an uploaded audio asset the
    audio patch succeeds and rewrites that node and no other; so does the
    whole patch step of an execution that reaches the audio patch (the graph
    has an eligible LoadImage node).  When [audio] is defined, [audio]
    receives the uploaded name and [filename] is not touched; when only
    [filename] is defined, [filename] receives the name and [audio] stays
    undefined; and the write itself, on a node where neither key is defined,
    sets [audio]. *)
Theorem patchAudio_writes_key
    (imageInfo audioInfo : ImageInfo) (wf : ComfyUIWorkflow) (i : nat) (k : string)
    (node : ComfyUINode) :
  wf !! i = Some (k, node) ->
  eligibleAudio node ->
  (forall j k' node', (j < i)%nat -> wf !! j = Some (k', node') -> ¬ eligibleAudio node') ->
  exists node',
    (exists wf',
       patchAudio (Some audioInfo) wf = (wf', Ok tt) ∧
       wf' !! i = Some (k, node') ∧
       forall j, j ≠ i -> wf' !! j = wf !! j) ∧
    ((exists j k0 node0, wf !! j = Some (k0, node0) ∧ eligibleImage node0) ->
     exists wf',
       patchWorkflow imageInfo (Some audioInfo) wf = (wf', Ok tt) ∧
       wf' !! i = Some (k, node')) ∧
    (is_Some (getInput "audio" node) ->
       getInput "audio" node' = Some (JStr (name audioInfo)) ∧
       getInput "filename" node' = getInput "filename" node) ∧
    (getInput "audio" node = None ->
       is_Some (getInput "filename" node) ∧
       getInput "filename" node' = Some (JStr (name audioInfo)) ∧
       getInput "audio" node' = None) ∧
    (forall nm n, is_Some (inputs n) ->
       getInput "audio" n = None -> getInput "filename" n = None ->
       getInput "audio" (writeAudio nm n) = Some (JStr nm) ∧
       getInput "filename" (writeAudio nm n) = None).
Proof.
  intros Hl Hel Hfirst.
  assert (findNode isLoadAudio wf = Some i) as Hfind.
  { apply findNode_Some. split.
    - exists (k, node). split; [done | by apply isLoadAudio_spec].
    - intros j' [k' node'] Hj Hl'. simpl.
      destruct (isLoadAudio node') eqn:Hp; [|done].
      apply isLoadAudio_spec in Hp. by destruct (Hfirst j' k' node' Hj Hl'). }
  destruct Hel as [_ Hkeys].
  exists (writeAudio (name audioInfo) node).
  split; [|split; [|split; [|split]]].
  - exists (updateNode i (writeAudio (name audioInfo)) wf).
    split; [unfold patchAudio; by rewrite Hfind|].
    split; [by apply updateNode_lookup|].
    intros j Hj. by apply updateNode_lookup_ne.
  - intros (j & k0 & node0 & Hl0 & Hel0).
    destruct (findNode_is_Some isLoadImage wf j (k0, node0) Hl0) as [i0 Hfind0];
      [by apply isLoadImage_spec|].
    pose proof (image_audio_positions_differ wf i0 i Hfind0 Hfind) as Hne.
    set (wf1 := updateNode i0 (setInput "image" (JStr (name imageInfo))) wf).
    assert (wf1 !! i = Some (k, node)) as Hl1.
    { unfold wf1. by rewrite updateNode_lookup_ne. }
    exists (updateNode i (writeAudio (name audioInfo)) wf1).
    split; [|by apply updateNode_lookup].
    unfold patchWorkflow, bind. rewrite (patchImage_found _ _ _ Hfind0). fold wf1.
    unfold patchAudio, wf1.
    rewrite (findNode_updateNode isLoadAudio); [|apply isLoadAudio_setInput_image].
    by rewrite Hfind.
  - intros Ha. rewrite (writeAudio_audio _ _ Ha). split.
    + apply getInput_setInput_eq. by apply getInput_is_Some_inputs in Ha.
    + by apply getInput_setInput_ne.
  - intros Ha. destruct Hkeys as [Hk|Hk]; [rewrite Ha in Hk; by destruct Hk|].
    split; [done|]. rewrite (writeAudio_filename _ _ Ha Hk). split.
    + apply getInput_setInput_eq. by apply getInput_is_Some_inputs in Hk.
    + by rewrite getInput_setInput_ne.
  - intros nm n Hin Ha Hf. rewrite (writeAudio_fallback _ _ Ha Hf). split.
    + by apply getInput_setInput_eq.
    + by rewrite getInput_setInput_ne.
Qed.

Lemma patchAudio_writes_key_witness :
  exists node',
    (exists wf',
       patchAudio (Some sampleAudioInfo) sampleGraph = (wf', Ok tt) ∧
       wf' !! 1%nat = Some ("7", node') ∧
       forall j, j ≠ 1%nat -> wf' !! j = sampleGraph !! j) ∧
    (exists wf',
       patchWorkflow sampleImageInfo (Some sampleAudioInfo) sampleGraph = (wf', Ok tt) ∧
       wf' !! 1%nat = Some ("7", node')) ∧
    getInput "audio" node' = Some (JStr "input.mp3") ∧
    getInput "filename" node' = None.
Proof.
  destruct (patchAudio_writes_key sampleImageInfo sampleAudioInfo sampleGraph 1 "7"
              sampleAudioNode) as (node' & Hstep & Hwhole & Haudio & _).
  - reflexivity.
  - split; [reflexivity | left; exists (JStr "old.mp3"); vm_compute; reflexivity].
  - intros [|j] k' node' Hj; simpl; [|lia].
    intros [= <- <-] [Hc _]. discriminate Hc.
  - exists node'. split; [exact Hstep|]. split.
    + apply Hwhole. exists O, "3", sampleImageNode. split; [reflexivity|].
      split; [reflexivity | exists (JStr ""); vm_compute; reflexivity].
    + apply Haudio. exists (JStr "old.mp3"). vm_compute. reflexivity.
Defined.

(** A graph whose LoadAudio node has only a [filename] input: [filename] is
    written and [audio] stays undefined. *)
Example patchAudio_filename_only :
  let wf' := (patchWorkflow sampleImageInfo (Some sampleAudioInfo)
                [("3", sampleImageNode); ("7", sampleFilenameNode)]).1 in
  (wf' !! 1%nat ≫= fun kn => getInput "filename" kn.2) = Some (JStr "input.mp3") ∧
  (wf' !! 1%nat ≫= fun kn => getInput "audio" kn.2) = None ∧
  (wf' !! 0%nat ≫= fun kn => getInput "image" kn.2) = Some (JStr "input (1).png").
Proof. repeat split; vm_compute; reflexivity. Qed.

Lemma patchImage_error (imageInfo : ImageInfo) (wf : ComfyUIWorkflow) wf' e :
  patchImage imageInfo wf = (wf', Err e) -> e = MissingImageNode.
Proof.
  unfold patchImage, throw. destruct (findNode isLoadImage wf); intros [= _ H]; done.
Qed.

(** ** Suffixes of file names *)

Lemma append_String (c : ascii) (s t : string) :
  String c s +:+ t = String c (s +:+ t).
Proof. reflexivity. Qed.

Lemma append_empty (t : string) : "" +:+ t = t.
Proof. reflexivity. Qed.

Lemma length_append (s t : string) :
  String.length (s +:+ t) = (String.length s + String.length t)%nat.
Proof.
  induction s as [|c s IH]; [done|].
  rewrite append_String. simpl. by rewrite IH.
Qed.

Lemma append_assoc (a b c : string) : (a +:+ b) +:+ c = a +:+ (b +:+ c).
Proof.
  induction a as [|x a IH]; [done|].
  rewrite !append_String. by rewrite IH.
Qed.

Lemma substring_all (p : string) : String.substring 0 (String.length p) p = p.
Proof. induction p as [|c p IH]; simpl; [done | f_equal; apply IH]. Qed.

Lemma substring_append_r (pre p : string) :
  String.substring (String.length pre) (String.length p) (pre +:+ p) = p.
Proof.
  induction pre as [|c pre IH]; [apply substring_all|].
  rewrite append_String. simpl. apply IH.
Qed.

Lemma substring_split (s : string) (k : nat) :
  (k <= String.length s)%nat ->
  s = String.substring 0 k s +:+ String.substring k (String.length s - k) s.
Proof.
  revert k. induction s as [|c s IH]; intros [|k] Hk; simpl in *.
  - done.
  - lia.
  - rewrite append_empty. by rewrite substring_all.
  - rewrite append_String. f_equal. apply IH. lia.
Qed.

Lemma append_inj_r (a b p q : string) :
  String.length p = String.length q -> a +:+ p = b +:+ q -> p = q.
Proof.
  revert b. induction a as [|x a IH]; intros [|y b] Hlen Heq;
    rewrite ?append_String, ?append_empty in Heq.
  - done.
  - apply (f_equal String.length) in Heq. simpl in Heq. rewrite length_append in Heq. lia.
  - apply (f_equal String.length) in Heq. simpl in Heq. rewrite length_append in Heq. lia.
  - injection Heq as _ Heq. by apply (IH b).
Qed.

(** [endsWith] is the suffix relation. *)
Lemma endsWith_spec (s p : string) :
  endsWith s p = true <-> exists pre, s = pre +:+ p.
Proof.
  unfold endsWith. rewrite andb_true_iff, Nat.leb_le, String.eqb_eq. split.
  - intros [Hle Hsub]. exists (String.substring 0 (String.length s - String.length p) s).
    pose proof (substring_split s (String.length s - String.length p)) as Hs.
    replace (String.length s - (String.length s - String.length p))%nat
      with (String.length p) in Hs by lia.
    rewrite Hsub in Hs. apply Hs. lia.
  - intros [pre ->]. rewrite length_append. split; [lia|].
    replace (String.length pre + String.length p - String.length p)%nat
      with (String.length pre) by lia.
    apply substring_append_r.
Qed.

(** A name cannot end in two different suffixes of the same length. *)
Lemma endsWith_disjoint (s r p q : string) :
  String.length p = String.length q -> p ≠ q ->
  endsWith s (r +:+ p) = true -> endsWith s q = false.
Proof.
  intros Hlen Hne [pre ->]%endsWith_spec.
  destruct (endsWith _ q) eqn:Hq; [|done].
  apply endsWith_spec in Hq as [pre' Heq]. rewrite <- append_assoc in Heq.
  by apply append_inj_r in Heq.
Qed.

(** ** MIME type and extension of the result *)

(** The three-way mapping, case by case. *)
Lemma mimeAndExtension_cases (fname : string) :
  (endsWith fname ".mp4" = true -> mimeAndExtension fname = ("video/mp4", "mp4")) ∧
  (endsWith fname ".mp4" = false -> endsWith fname ".gif" = true ->
     mimeAndExtension fname = ("image/gif", "gif")) ∧
  (endsWith fname ".mp4" = false -> endsWith fname ".gif" = false ->
     mimeAndExtension fname = ("image/webp", "webp")) ∧
  (endsWith fname ".webp" = true -> mimeAndExtension fname = ("image/webp", "webp")).
Proof.
  unfold mimeAndExtension. repeat split.
  - by intros ->.
  - by intros -> ->.
  - by intros -> ->.
  - intros Hw.
    rewrite (endsWith_disjoint fname "." "webp" ".mp4" eq_refl); [|discriminate|exact Hw].
    by rewrite (endsWith_disjoint fname "." "webp" ".gif" eq_refl); [|discriminate|exact Hw].
Qed.

(** An item is returned only by the retrieval step, from the output that the
    resolution selected. *)
Lemma retrieve_item (be : Backend) (p : Params) (st : Status)
    (outs : list (string * NodeOutput)) (tr tr' : Trace) (item : VideoItem) :
  retrieve be p st outs tr = (tr', Ok item) ->
  exists videoOutput,
    resolveOutput (apiUrl p) outs = Ok videoOutput ∧
    out_fileName item = filename (img videoOutput) ∧
    (out_mimeType item, out_fileExtension item)
      = mimeAndExtension (filename (img videoOutput)).
Proof.
  unfold retrieve. destruct (resolveOutput (apiUrl p) outs) as [videoOutput|e]; [|done].
  unfold bind, request. destruct (view be (url videoOutput)) as [[code body]|]; [|done].
  simpl. destruct (code =? 404); [done|]. intros [= _ <-]. exists videoOutput. simpl.
  split; [done|]. split; [done|]. by destruct (mimeAndExtension _).
Qed.

Lemma pollTick_item (be : Backend) (p : Params) (promptId : string) (tr tr' : Trace)
    (item : VideoItem) :
  pollTick be p promptId tr = (tr', Ok (Return item)) ->
  exists st outs tr0, retrieve be p st outs tr0 = (tr', Ok item).
Proof.
  unfold pollTick, bind, sleep, getHistory, request.
  destruct (history be _ promptId) as [[pr|]|]; [|done..].
  destruct (status pr) as [st|]; [|done].
  destruct (completed st); [|done].
  destruct (String.eqb (status_str st) "error"); [done|].
  destruct (retrieve be p st (outputs pr) _) as [tr1 [item1|e]] eqn:Hret; [|done].
  intros [= <- <-]. by exists st, (outputs pr), ((tr ++ [Sleep 1000]) ++
    [GetHistory (apiUrl p +:+ "/history/" +:+ promptId)]).
Qed.

Lemma pollLoop_item (be : Backend) (p : Params) (promptId : string) (maxAttempts : Q)
    (fuel : nat) (attempts : Z) (tr tr' : Trace) (item : VideoItem) :
  pollLoop fuel be p promptId maxAttempts attempts tr = Some (tr', Ok item) ->
  exists st outs tr0, retrieve be p st outs tr0 = (tr', Ok item).
Proof.
  revert attempts tr. induction fuel as [|fuel IH]; intros attempts tr; simpl; [done|].
  destruct (belowCap attempts maxAttempts); [|done].
  destruct (pollTick be p promptId tr) as [tr1 [[|item1]|e]] eqn:Htick; [apply IH| |done].
  intros [= <- <-]. by apply pollTick_item in Htick.
Qed.

Lemma execute_item (be : Backend) (p : Params) (tr : Trace) (item : VideoItem) :
  execute be p = Some (tr, Ok item) ->
  exists st outs tr0, retrieve be p st outs tr0 = (tr, Ok item).
Proof.
  unfold execute. destruct (submitJob be p []) as [tr0 [[promptId wf]|e]]; [|done].
  unfold poll, sleep. apply pollLoop_item.
Qed.

(** C8: the returned MIME type and extension label are those that the fixed
    mapping gives for the file name of the selected output, and for nothing
    else: the item that the retrieval step builds carries the file name of
    the selected output and the pair that the mapping gives for that name,
    and so does the item that an execution returns.  For a returned item, a
    name ending in [.mp4] comes with video/mp4 and mp4; otherwise a name
    ending in [.gif] comes with image/gif and gif; every other name comes
    with image/webp and webp, and a name ending in [.webp] is such a name.
    The mapping itself has these three cases for every file name. *)
Theorem mimeAndExtension_mapping (be : Backend) (p : Params) :
  (forall st outs tr tr' item,
     retrieve be p st outs tr = (tr', Ok item) ->
     exists videoOutput,
       resolveOutput (apiUrl p) outs = Ok videoOutput ∧
       out_fileName item = filename (img videoOutput) ∧
       (out_mimeType item, out_fileExtension item)
         = mimeAndExtension (filename (img videoOutput))) ∧
  (forall tr item,
     execute be p = Some (tr, Ok item) ->
     (out_mimeType item, out_fileExtension item) = mimeAndExtension (out_fileName item) ∧
     (endsWith (out_fileName item) ".mp4" = true ->
        out_mimeType item = "video/mp4" ∧ out_fileExtension item = "mp4") ∧
     (endsWith (out_fileName item) ".mp4" = false ->
      endsWith (out_fileName item) ".gif" = true ->
        out_mimeType item = "image/gif" ∧ out_fileExtension item = "gif") ∧
     (endsWith (out_fileName item) ".mp4" = false ->
      endsWith (out_fileName item) ".gif" = false ->
        out_mimeType item = "image/webp" ∧ out_fileExtension item = "webp") ∧
     (endsWith (out_fileName item) ".webp" = true ->
        out_mimeType item = "image/webp" ∧ out_fileExtension item = "webp")) ∧
  (forall fname,
     (endsWith fname ".mp4" = true -> mimeAndExtension fname = ("video/mp4", "mp4")) ∧
     (endsWith fname ".mp4" = false -> endsWith fname ".gif" = true ->
        mimeAndExtension fname = ("image/gif", "gif")) ∧
     (endsWith fname ".mp4" = false -> endsWith fname ".gif" = false ->
        mimeAndExtension fname = ("image/webp", "webp")) ∧
     (endsWith fname ".webp" = true -> mimeAndExtension fname = ("image/webp", "webp"))).
Proof.
  split; [|split].
  - intros st outs tr tr' item. apply retrieve_item.
  - intros tr item (st & outs & tr0 & Hret)%execute_item.
    apply retrieve_item in Hret as (videoOutput & _ & Hname & Hpair).
    rewrite <- Hname in Hpair. split; [done|].
    destruct (mimeAndExtension_cases (out_fileName item)) as (Hmp4 & Hgif & Hother & Hwebp).
    rewrite <- Hpair in Hmp4, Hgif, Hother, Hwebp.
    split; [|split; [|split]].
    + intros H. specialize (Hmp4 H). by injection Hmp4.
    + intros H1 H2. specialize (Hgif H1 H2). by injection Hgif.
    + intros H1 H2. specialize (Hother H1 H2). by injection Hother.
    + intros H. specialize (Hwebp H). by injection Hwebp.
  - apply mimeAndExtension_cases.
Qed.

(** The scenario of the specification: the output [result.webp] is returned
    as image/webp with the extension webp. *)
Lemma mimeAndExtension_mapping_witness :
  exists tr item,
    execute successBackend sampleParams = Some (tr, Ok item) ∧
    out_fileName item = "result.webp" ∧
    out_mimeType item = "image/webp" ∧ out_fileExtension item = "webp".
Proof.
  destruct (execute successBackend sampleParams) as [[tr [item|e]]|] eqn:Hex;
    [|vm_compute in Hex; discriminate Hex..].
  exists tr, item. split; [reflexivity|].
  assert (out_fileName item = "result.webp") as Hname.
  { pose proof Hex as Hval. vm_compute in Hval. injection Hval as _ <-. reflexivity. }
  split; [exact Hname|].
  destruct (mimeAndExtension_mapping successBackend sampleParams) as (_ & Hexec & _).
  destruct (Hexec tr item Hex) as (_ & _ & _ & _ & Hwebp).
  apply Hwebp. rewrite Hname. reflexivity.
Defined.

(** ** Resolution of the outputs *)

Lemma isOutputOrTemp_spec (e : OutputEntry) : isOutputOrTemp e = true <-> keptKind e.
Proof. unfold isOutputOrTemp, keptKind. by rewrite orb_true_iff, !String.eqb_eq. Qed.

Lemma isVideoName_spec (f : string) : isVideoName f = true <-> videoName f.
Proof.
  unfold isVideoName, videoName. rewrite !orb_true_iff, !endsWith_spec. split.
  - intros [[[s H]|[s H]]|[s H]]; exists s; auto.
  - intros [s [H|[H|H]]]; [left; left | left; right | right]; by exists s.
Qed.

Lemma filter_filter_andb {A} (p q : A -> bool) (l : list A) :
  List.filter q (List.filter p l) = List.filter (fun x => p x && q x) l.
Proof.
  induction l as [|x l IH]; simpl; [done|].
  destruct (p x); simpl; [destruct (q x)|]; by rewrite IH.
Qed.

Lemma filter_map_comm {A B} (f : A -> B) (q : B -> bool) (l : list A) :
  List.filter q (map f l) = map f (List.filter (fun x => q (f x)) l).
Proof.
  induction l as [|x l IH]; simpl; [done|].
  destruct (q (f x)); simpl; by rewrite IH.
Qed.

Lemma filter_nil_iff {A} (p : A -> bool) (l : list A) :
  List.filter p l = [] <-> forall x, In x l -> p x = false.
Proof.
  induction l as [|x l IH]; simpl.
  - split; [by intros _ x [] | done].
  - destruct (p x) eqn:Hp.
    + split; [done|]. intros H. specialize (H x (or_introl eq_refl)). congruence.
    + rewrite IH. split.
      * intros H y [<-|Hy]; [done | by apply H].
      * intros H y Hy. apply H. by right.
Qed.

(** The head of a filtered list is the first element that passes. *)
Lemma filter_head_iff {A} (p : A -> bool) (l : list A) (x : A) :
  (exists rest, List.filter p l = x :: rest) <->
  exists pre post, l = pre ++ x :: post ∧ p x = true ∧ forall y, In y pre -> p y = false.
Proof.
  induction l as [|a l IH]; simpl.
  - split; [by intros [rest H]|]. intros (pre & post & H & _). by destruct pre.
  - destruct (p a) eqn:Hp.
    + split.
      * intros [rest [= <- _]]. by exists [], l.
      * intros (pre & post & Hl & Hx & Hpre). destruct pre as [|b pre]; simpl in Hl.
        -- injection Hl as -> _. by eexists.
        -- injection Hl as <- _. specialize (Hpre a (or_introl eq_refl)). congruence.
    + rewrite IH. split.
      * intros (pre & post & -> & Hx & Hpre). exists (a :: pre), post.
        split; [done|]. split; [done|]. intros y [<-|Hy]; [done | by apply Hpre].
      * intros (pre & post & Hl & Hx & Hpre). destruct pre as [|b pre]; simpl in Hl.
        -- injection Hl as -> _. congruence.
        -- injection Hl as <- ->. exists pre, post. split; [done|]. split; [done|].
           intros y Hy. apply Hpre. by right.
Qed.

(** [resolveOutput] in terms of the entries rather than the decorated
    outputs. *)
Lemma resolveOutput_unfold (api : string) (outs : list (string * NodeOutput)) :
  resolveOutput api outs =
    match List.filter isOutputOrTemp (candidates outs) with
    | [] => Err NoMediaOutputs
    | kept =>
        match List.filter (fun e => isVideoName (filename e)) kept with
        | [] => Err NoVideoOutputs
        | e :: _ => Ok {| img := e; url := viewUrl api e |}
        end
    end.
Proof.
  unfold resolveOutput, mediaOutputs, videoOutputs. fold (candidates outs).
  rewrite filter_map_comm.
  change (fun x => isVideo {| img := x; url := viewUrl api x |})
    with (fun e => isVideoName (filename e)).
  destruct (List.filter isOutputOrTemp (candidates outs)) as [|e kept]; [done|].
  cbn [map length Nat.eqb].
  destruct (List.filter _ (e :: kept)) as [|v videos]; done.
Qed.

(** C2, as stated: with both [images] and [gifs] flattened into the candidate
    list, the node [{images: [a.png], gifs: [b.webp]}] would resolve to
    [b.webp]; the code takes [images] only and fails with NoVideoOutputs. *)
Lemma resolveOutput_drops_gifs_counterexample :
  resolveImagesAndGifs "http://comfy" imagesAndGifs
    = Ok {| img := bWebp; url := "http://comfy/view?filename=b.webp&subfolder=&type=output" |} ∧
  resolveOutput "http://comfy" imagesAndGifs = Err NoVideoOutputs.
Proof. split; vm_compute; reflexivity. Qed.

Lemma kept_nil_iff (outs : list (string * NodeOutput)) :
  List.filter isOutputOrTemp (candidates outs) = [] <->
  forall e, In e (candidates outs) -> ¬ keptKind e.
Proof.
  rewrite filter_nil_iff. split.
  - intros H e He Hk. apply isOutputOrTemp_spec in Hk. rewrite (H e He) in Hk. done.
  - intros H e He. destruct (isOutputOrTemp e) eqn:Hk; [|done].
    apply isOutputOrTemp_spec in Hk. by destruct (H e He).
Qed.

Lemma kept_not_nil_iff (outs : list (string * NodeOutput)) :
  List.filter isOutputOrTemp (candidates outs) ≠ [] <->
  exists e, In e (candidates outs) ∧ keptKind e.
Proof.
  split.
  - destruct (List.filter isOutputOrTemp (candidates outs)) as [|e kept] eqn:Hk; [done|].
    intros _. exists e. rewrite <- isOutputOrTemp_spec. apply filter_In.
    rewrite Hk. by left.
  - intros [e [He Hk]] Hnil. rewrite kept_nil_iff in Hnil. by apply (Hnil e).
Qed.

Lemma videos_nil_iff (outs : list (string * NodeOutput)) :
  List.filter (fun e => isVideoName (filename e))
    (List.filter isOutputOrTemp (candidates outs)) = [] <->
  forall e, In e (candidates outs) -> keptKind e -> ¬ videoName (filename e).
Proof.
  rewrite filter_nil_iff. split.
  - intros H e He Hk Hv. apply isVideoName_spec in Hv. apply isOutputOrTemp_spec in Hk.
    rewrite (H e) in Hv; [done|]. by apply filter_In.
  - intros H e [He Hk]%filter_In. apply isOutputOrTemp_spec in Hk.
    destruct (isVideoName (filename e)) eqn:Hv; [|done].
    apply isVideoName_spec in Hv. by destruct (H e He Hk).
Qed.

Lemma videos_head_iff (outs : list (string * NodeOutput)) (x : OutputEntry) :
  (exists rest, List.filter (fun e => isVideoName (filename e))
                  (List.filter isOutputOrTemp (candidates outs)) = x :: rest) <->
  exists pre post,
    candidates outs = pre ++ x :: post ∧ keptKind x ∧ videoName (filename x) ∧
    forall e, In e pre -> ¬ (keptKind e ∧ videoName (filename e)).
Proof.
  rewrite filter_filter_andb, filter_head_iff. split.
  - intros (pre & post & Hl & Hm & Hpre). exists pre, post.
    apply andb_true_iff in Hm as [Hmk Hmv].
    split; [done|]. split; [by apply isOutputOrTemp_spec|].
    split; [by apply isVideoName_spec|].
    intros e He [Hek Hev]. apply isOutputOrTemp_spec in Hek.
    apply isVideoName_spec in Hev. specialize (Hpre e He). simpl in Hpre.
    rewrite Hek, Hev in Hpre. done.
  - intros (pre & post & Hl & Hmk & Hmv & Hpre). exists pre, post.
    split; [done|]. split.
    + apply andb_true_iff. split; [by apply isOutputOrTemp_spec | by apply isVideoName_spec].
    + intros e He. apply andb_false_iff.
      destruct (isOutputOrTemp e) eqn:Hek; [|by left]. right.
      destruct (isVideoName (filename e)) eqn:Hev; [|done].
      destruct (Hpre e He). split; [by apply isOutputOrTemp_spec | by apply isVideoName_spec].
Qed.

Lemma resolveOutput_NoMedia (api : string) (outs : list (string * NodeOutput)) :
  resolveOutput api outs = Err NoMediaOutputs <->
  List.filter isOutputOrTemp (candidates outs) = [].
Proof.
  rewrite resolveOutput_unfold.
  destruct (List.filter isOutputOrTemp (candidates outs)) as [|e kept]; [done|].
  destruct (List.filter _ (e :: kept)); done.
Qed.

Lemma resolveOutput_NoVideo (api : string) (outs : list (string * NodeOutput)) :
  resolveOutput api outs = Err NoVideoOutputs <->
  List.filter isOutputOrTemp (candidates outs) ≠ [] ∧
  List.filter (fun e => isVideoName (filename e))
    (List.filter isOutputOrTemp (candidates outs)) = [].
Proof.
  rewrite resolveOutput_unfold.
  destruct (List.filter isOutputOrTemp (candidates outs)) as [|e kept].
  - split; [done | by intros []].
  - destruct (List.filter _ (e :: kept)); split; try done. by intros [].
Qed.

Lemma resolveOutput_Ok (api : string) (outs : list (string * NodeOutput)) (m : MediaOutput) :
  resolveOutput api outs = Ok m <->
  url m = viewUrl api (img m) ∧
  exists rest, List.filter (fun e => isVideoName (filename e))
                 (List.filter isOutputOrTemp (candidates outs)) = img m :: rest.
Proof.
  rewrite resolveOutput_unfold.
  destruct (List.filter isOutputOrTemp (candidates outs)) as [|e kept].
  - simpl. split; [done | by intros [_ [rest H]]].
  - destruct (List.filter _ (e :: kept)) as [|v videos].
    + split; [done | by intros [_ [rest H]]].
    + split.
      * intros [= <-]. simpl. split; [done | by exists videos].
      * intros [Hu [rest [= -> _]]]. destruct m as [i u]. simpl in *. by subst.
Qed.

(** C2, amended: each node contributes its [images] array when it has one
    (even an empty one) and its [gifs] array only otherwise.  Over that
    candidate list, resolution fails with NoMediaOutputs exactly when no
    candidate has kind [output] or [temp], fails with NoVideoOutputs exactly
    when such candidates exist but none has a name ending in [.webp], [.mp4]
    or [.gif], and otherwise returns the first candidate in flatten order
    that passes both tests, with its download address.  For [a.png, b.webp]
    it selects [b.webp]; for [a.png] alone it fails with NoVideoOutputs. *)
Theorem resolveOutput_first_video (api : string) (outs : list (string * NodeOutput)) :
  (forall l g, nodeEntries (mkNodeOutput (Some l) g) = l) ∧
  (forall g, nodeEntries (mkNodeOutput None (Some g)) = g) ∧
  nodeEntries (mkNodeOutput None None) = [] ∧
  (resolveOutput api outs = Err NoMediaOutputs <->
     forall e, In e (candidates outs) -> ¬ keptKind e) ∧
  (resolveOutput api outs = Err NoVideoOutputs <->
     (exists e, In e (candidates outs) ∧ keptKind e) ∧
     forall e, In e (candidates outs) -> keptKind e -> ¬ videoName (filename e)) ∧
  (forall m, resolveOutput api outs = Ok m <->
     url m = viewUrl api (img m) ∧
     exists pre post,
       candidates outs = pre ++ img m :: post ∧
       keptKind (img m) ∧ videoName (filename (img m)) ∧
       forall e, In e pre -> ¬ (keptKind e ∧ videoName (filename e))) ∧
  resolveOutput api pngAndWebp = Ok {| img := bWebp; url := viewUrl api bWebp |} ∧
  resolveOutput api pngOnly = Err NoVideoOutputs.
Proof.
  split; [done|]. split; [done|]. split; [done|].
  split; [|split; [|split; [|split]]].
  - by rewrite resolveOutput_NoMedia, kept_nil_iff.
  - by rewrite resolveOutput_NoVideo, kept_not_nil_iff, videos_nil_iff.
  - intros m. by rewrite resolveOutput_Ok, videos_head_iff.
  - reflexivity.
  - reflexivity.
Qed.

Lemma resolveOutput_first_video_witness :
  resolveOutput "http://comfy" [("9", mkNodeOutput None (Some [bWebp]))]
    = Ok {| img := bWebp; url := "http://comfy/view?filename=b.webp&subfolder=&type=output" |}.
Proof.
  destruct (resolveOutput_first_video "http://comfy" [("9", mkNodeOutput None (Some [bWebp]))])
    as (_ & _ & _ & _ & _ & Hok & _).
  apply Hok. split; [reflexivity|]. exists [], []. split; [reflexivity|].
  split; [by left|]. split; [by exists "b"; left|].
  intros e [].
Defined.

(** ** The poll loop *)

Lemma historyQueries_app (tr tr' : Trace) :
  historyQueries (tr ++ tr') = (historyQueries tr + historyQueries tr')%nat.
Proof. unfold historyQueries. by rewrite List.filter_app, length_app. Qed.

Lemma historyQueries_ticks (p : Params) (promptId : string) (n : nat) :
  historyQueries (ticks p promptId n) = n.
Proof.
  induction n as [|n IH]; [done|].
  change (historyQueries (ticks p promptId (S n)))
    with (S (historyQueries (ticks p promptId n))). by rewrite IH.
Qed.

Lemma pollTick_pending (be : Backend) (p : Params) (promptId : string) (tr : Trace) :
  pendingAnswer (history be (historyQueries tr) promptId) ->
  pollTick be p promptId tr = (tr ++ ticks p promptId 1, Ok Continue).
Proof.
  intros Hpend. unfold pollTick, bind, sleep, getHistory, request.
  rewrite historyQueries_app. simpl (historyQueries [Sleep 1000]).
  rewrite Nat.add_0_r, <- app_assoc. simpl.
  destruct Hpend as [->|(pr & -> & [Hst|(st & Hst & Hc)])]; [done|..].
  - by rewrite Hst.
  - by rewrite Hst, Hc.
Qed.

Lemma pollTick_error (be : Backend) (p : Params) (promptId : string) (tr : Trace) :
  errorAnswer (history be (historyQueries tr) promptId) ->
  pollTick be p promptId tr = (tr ++ ticks p promptId 1, Err GenerationFailed).
Proof.
  intros (pr & st & Ha & Hst & Hc & Herr). unfold pollTick, bind, sleep, getHistory, request.
  rewrite historyQueries_app. simpl (historyQueries [Sleep 1000]).
  rewrite Nat.add_0_r, <- app_assoc. simpl.
  by rewrite Ha, Hst, Hc, Herr.
Qed.

Lemma ticks_app (p : Params) (promptId : string) (n m : nat) :
  ticks p promptId (n + m) = ticks p promptId n ++ ticks p promptId m.
Proof. induction n as [|n IH]; [done|]. simpl. by rewrite IH. Qed.

(** An integer is below a number exactly when it is below that number
    rounded up. *)
Lemma below_ceiling (z : Z) (q : Q) : (inject_Z z < q)%Q <-> z < Qceiling q.
Proof.
  split; intros H.
  - rewrite Zlt_Qlt. eapply Qlt_le_trans; [exact H|apply Qle_ceiling].
  - eapply Qle_lt_trans; [|apply Qceiling_lt]. rewrite <- Zle_Qle. lia.
Qed.

Lemma belowCap_true (attempts : Z) (maxAttempts : Q) :
  belowCap attempts maxAttempts = true <-> attempts < Qceiling maxAttempts.
Proof.
  rewrite <- below_ceiling, Qlt_alt. unfold belowCap.
  by destruct (inject_Z attempts ?= maxAttempts)%Q.
Qed.

Lemma belowCap_false (attempts : Z) (maxAttempts : Q) :
  belowCap attempts maxAttempts = false <-> Qceiling maxAttempts <= attempts.
Proof.
  pose proof (belowCap_true attempts maxAttempts) as H.
  destruct (belowCap attempts maxAttempts).
  - split; [done|]. intros Hle. apply proj1 in H. specialize (H eq_refl). lia.
  - split; [|done]. intros _.
    destruct (Z_lt_le_dec attempts (Qceiling maxAttempts)) as [Hlt|]; [|done].
    apply H in Hlt. done.
Qed.





(** [n] passes on which the backend answers "not completed" are [n] passes of
    [continue]. *)
Lemma pollLoop_skip (be : Backend) (p : Params) (promptId : string) (maxAttempts : Q)
    (n fuel : nat) (attempts : Z) (tr : Trace) :
  (n <= Z.to_nat (Qceiling maxAttempts - attempts))%nat ->
  (forall k, (k < n)%nat ->
     pendingAnswer (history be (historyQueries tr + k) promptId)) ->
  pollLoop (n + fuel) be p promptId maxAttempts attempts tr =
  pollLoop fuel be p promptId maxAttempts (attempts + Z.of_nat n) (tr ++ ticks p promptId n).
Proof.
  revert attempts tr. induction n as [|n IH]; intros attempts tr Hn Hpend.
  - simpl. by rewrite Z.add_0_r, app_nil_r.
  - cbn [Nat.add pollLoop].
    assert (belowCap attempts maxAttempts = true) as -> by (apply belowCap_true; lia).
    rewrite pollTick_pending.
    2:{ specialize (Hpend O). rewrite Nat.add_0_r in Hpend. apply Hpend. lia. }
    rewrite IH.
    + replace (attempts + 1 + Z.of_nat n) with (attempts + Z.of_nat (S n)) by lia.
      by rewrite <- app_assoc.
    + lia.
    + intros k Hk. rewrite historyQueries_app, historyQueries_ticks.
      replace (historyQueries tr + 1 + k)%nat with (historyQueries tr + S k)%nat by lia.
      apply Hpend. lia.
Qed.

(** The loop ends within the fuel that [poll] gives it. *)
Lemma pollLoop_total (be : Backend) (p : Params) (promptId : string) (maxAttempts : Q)
    (fuel : nat) (attempts : Z) (tr : Trace) :
  (Z.to_nat (Qceiling maxAttempts - attempts) < fuel)%nat ->
  is_Some (pollLoop fuel be p promptId maxAttempts attempts tr).
Proof.
  revert attempts tr. induction fuel as [|fuel IH]; intros attempts tr Hfuel; [lia|].
  simpl. destruct (belowCap attempts maxAttempts) eqn:Hlt; [|by eexists].
  apply belowCap_true in Hlt.
  destruct (pollTick be p promptId tr) as [tr' [[|item]|e]]; [|by eexists..].
  apply IH. lia.
Qed.

Lemma poll_total (be : Backend) (p : Params) (promptId : string) (tr : Trace) :
  is_Some (poll be p promptId tr).
Proof. unfold poll, sleep, passes. apply pollLoop_total. lia. Qed.

Lemma execute_total (be : Backend) (p : Params) : is_Some (execute be p).
Proof.
  unfold execute. destruct (submitJob be p []) as [tr [[promptId wf]|e]]; [|by eexists].
  apply poll_total.
Qed.





(** C4: if the first [n] status queries of the poll phase are answered "not
    completed" (no record, no status, or [completed] false), each of those
    passes continues the loop; if the next answer has [completed] true and
    [status_str] 'error' and the attempt cap allows that pass, the phase ends
    with GenerationFailed right after that query: the trace holds exactly
    [n + 1] status queries and the failing one is its last event. *)
Theorem poll_error_stops
    (be : Backend) (p : Params) (promptId : string) (tr : Trace) (n : nat) :
  (inject_Z (Z.of_nat n) < 60 * timeout p)%Q ->
  (forall k, (k < n)%nat ->
     pendingAnswer (history be (historyQueries tr + k) promptId)) ->
  errorAnswer (history be (historyQueries tr + n) promptId) ->
  exists tr',
    poll be p promptId tr = Some (tr', Err GenerationFailed) ∧
    tr' = tr ++ Sleep 5000 :: ticks p promptId (S n) ∧
    historyQueries tr' = (historyQueries tr + S n)%nat ∧
    last tr' = Some (GetHistory (historyUrl p promptId)) ∧
    forall k, (k < n)%nat ->
      pollTick be p promptId (tr ++ Sleep 5000 :: ticks p promptId k)
        = ((tr ++ Sleep 5000 :: ticks p promptId k) ++ ticks p promptId 1, Ok Continue).
Proof.
  intros Hcap%below_ceiling Hpend Herr.
  assert (forall k, tr ++ Sleep 5000 :: ticks p promptId k
                    = (tr ++ [Sleep 5000]) ++ ticks p promptId k) as Hshape.
  { intros k. by rewrite <- app_assoc. }
  assert (forall k, historyQueries (tr ++ Sleep 5000 :: ticks p promptId k)
                    = (historyQueries tr + k)%nat) as Hcount.
  { intros k. rewrite Hshape, !historyQueries_app, historyQueries_ticks.
    change (historyQueries [Sleep 5000]) with O. lia. }
  assert (historyQueries (tr ++ [Sleep 5000]) = historyQueries tr) as Hwarm.
  { rewrite historyQueries_app. change (historyQueries [Sleep 5000]) with O. lia. }
  exists (tr ++ Sleep 5000 :: ticks p promptId (S n)).
  split; [|split; [done|split; [apply Hcount|split]]].
  - unfold poll, sleep, passes.
    set (cap := Z.to_nat (Qceiling (60 * timeout p))).
    replace (S cap) with (n + S (cap - n))%nat by lia.
    rewrite pollLoop_skip; [|lia|].
    2:{ intros k Hk. rewrite Hwarm. by apply Hpend. }
    cbn [pollLoop].
    assert (belowCap (0 + Z.of_nat n) (60 * timeout p) = true) as ->
      by (apply belowCap_true; lia).
    rewrite pollTick_error.
    + do 2 f_equal. rewrite Hshape.
      rewrite <- (app_assoc _ (ticks p promptId n) (ticks p promptId 1)).
      rewrite <- ticks_app. do 2 f_equal. lia.
    + rewrite <- Hshape. by rewrite Hcount.
  - rewrite Hshape. replace (S n) with (n + 1)%nat by lia.
    rewrite ticks_app.
    change (ticks p promptId 1) with ([Sleep 1000] ++ [GetHistory (historyUrl p promptId)]).
    rewrite !app_assoc. apply last_snoc.
  - intros k Hk. apply pollTick_pending. rewrite Hcount. by apply Hpend.
Qed.


Lemma poll_error_stops_witness :
  exists tr',
    poll failingBackend sampleParams "job-1" [] = Some (tr', Err GenerationFailed) ∧
    tr' = Sleep 5000 :: ticks sampleParams "job-1" 4 ∧
    historyQueries tr' = 4%nat ∧
    last tr' = Some (GetHistory "http://comfy/history/job-1") ∧
    forall k, (k < 3)%nat ->
      pollTick failingBackend sampleParams "job-1" (Sleep 5000 :: ticks sampleParams "job-1" k)
        = ((Sleep 5000 :: ticks sampleParams "job-1" k) ++ ticks sampleParams "job-1" 1,
           Ok Continue).
Proof.
  apply (poll_error_stops failingBackend sampleParams "job-1" [] 3).
  - reflexivity.
  - intros [|[|[|k]]] Hk; simpl.
    + by left.
    + right. eexists. split; [reflexivity|]. by left.
    + right. eexists. split; [reflexivity|]. right. by eexists.
    + lia.
  - do 2 eexists. simpl. done.
Defined.

(** ** Upload requests *)

Lemma uploads_app (tr tr' : Trace) : uploads (tr ++ tr') = uploads tr ++ uploads tr'.
Proof. apply List.filter_app. Qed.

Lemma quiet_ret {A} (a : A) : quiet (ret a).
Proof. by intros tr tr' r [= <- _]. Qed.

Lemma quiet_throw {A} (e : Error) : quiet (@throw Trace A e).
Proof. by intros tr tr' r [= <- _]. Qed.

Lemma quiet_request {A} (ev : Event) (answer : option A) :
  isPostUpload ev = false -> quiet (request ev answer).
Proof.
  intros Hev tr tr' r [= <- _]. rewrite uploads_app. unfold uploads at 2. simpl.
  rewrite Hev. apply app_nil_r.
Qed.

Lemma quiet_sleep (ms : Z) : quiet (sleep ms).
Proof. intros tr tr' r [= <- _]. rewrite uploads_app. apply app_nil_r. Qed.

Lemma quiet_bind {A B} (m : Exec A) (k : A -> Exec B) :
  quiet m -> (forall a, quiet (k a)) -> quiet (bind m k).
Proof.
  intros Hm Hk tr tr' r. unfold bind.
  destruct (m tr) as [tr1 [a|e]] eqn:Hm1.
  - intros Hk1. rewrite (Hk a _ _ _ Hk1). by apply (Hm _ _ _ Hm1).
  - intros [= <- _]. by apply (Hm _ _ _ Hm1).
Qed.

(** ** Reading the binary data of the input item *)

Lemma binaryMember_Own (b : IBinaryKeyData) (key : string) (own : IBinaryData) :
  binaryMember b key = Own own <-> binaryProperty b key = Some own.
Proof.
  unfold binaryMember. destruct (binaryProperty b key) as [own'|].
  - split; congruence.
  - by destruct (inheritedMember b key).
Qed.

Lemma binaryMember_Absent (b : IBinaryKeyData) (key : string) :
  binaryMember b key = Absent <->
  binaryProperty b key = None ∧ inheritedMember b key = false.
Proof.
  unfold binaryMember. destruct (binaryProperty b key) as [own|].
  - split; [done|]. by intros [? _].
  - destruct (inheritedMember b key); split; try done. by intros [_ ?].
Qed.

Lemma binaryMember_Inherited (b : IBinaryKeyData) (key : string) :
  binaryMember b key = Inherited <->
  binaryProperty b key = None ∧ inheritedMember b key = true.
Proof.
  unfold binaryMember. destruct (binaryProperty b key) as [own|].
  - split; [done|]. by intros [? _].
  - destruct (inheritedMember b key); split; try done. by intros [_ ?].
Qed.

(** The audio phase by what the name reads: an inherited member has no MIME
    type and fails the check; the bytes are fetched for an attached property
    only. *)
Lemma uploadAudio_unfold (be : Backend) (p : Params) :
  uploadAudio be p =
  if truthy (audioBinaryPropertyName p) then
    match binaryProperty (binary p) (audioBinaryPropertyName p) with
    | None =>
        if inheritedMember (binary p) (audioBinaryPropertyName p)
        then throw InvalidInputAudio else ret None
    | Some audioBinary =>
        if negb (startsWith (default "" (mimeType audioBinary)) "audio/")
        then throw InvalidInputAudio
        else
          do info <- uploadBuffer be p (data audioBinary) "input.mp3";
          ret (Some info)
    end
  else ret None.
Proof.
  unfold uploadAudio, binaryMember.
  destruct (truthy (audioBinaryPropertyName p)); [|done].
  destruct (binaryProperty (binary p) (audioBinaryPropertyName p)) as [audioBinary|].
  - by destruct (negb _).
  - by destruct (inheritedMember _ _).
Qed.

Lemma find_pred_ext {A} (f g : A -> bool) (l : list A) :
  (forall a, f a = g a) -> List.find f l = List.find g l.
Proof. intros Hfg. induction l as [|a l IH]; [done|]. simpl. by rewrite Hfg, IH. Qed.

(** The image taken from the binary data: the named member if the name reads
    anything, else the first attached property with an image MIME type. *)
Lemma prepareImage_binary (be : Backend) (p : Params) (tr : Trace) :
  inputType p = "binary" ->
  prepareImage be p tr =
  match binaryProperty (binary p) (binaryPropertyName p) with
  | Some b =>
      (tr, if mimeStartsWith (mimeType b) "image/" then Ok (data b) else Err InvalidInputImage)
  | None =>
      if inheritedMember (binary p) (binaryPropertyName p) then
        (tr, match foreignBuffer be with
             | Some _ => Err InvalidInputImage
             | None => Err HelperFailed
             end)
      else
        match List.find (fun key =>
                match binaryProperty (binary p) key with
                | Some b => mimeStartsWith (mimeType b) "image/"
                | None => false
                end) (default [] (binary p)).*1 with
        | Some imageProperty =>
            if truthy imageProperty then
              match binaryMember (binary p) imageProperty with
              | Own b =>
                  (tr, if mimeStartsWith (mimeType b) "image/" then Ok (data b)
                       else Err InvalidInputImage)
              | _ =>
                  (tr, match foreignBuffer be with
                       | Some _ => Err InvalidInputImage
                       | None => Err HelperFailed
                       end)
              end
            else (tr, Err NoBinaryData)
        | None => (tr, Err NoBinaryData)
        end
  end.
Proof.
  intros Htype. unfold prepareImage. rewrite Htype. simpl.
  assert (forall key,
            mimeStartsWith (memberMime (binaryMember (binary p) key)) "image/"
            = match binaryProperty (binary p) key with
              | Some b => mimeStartsWith (mimeType b) "image/"
              | None => false
              end) as Hpred.
  { intros key. unfold binaryMember.
    destruct (binaryProperty (binary p) key); [done|]. by destruct (inheritedMember _ _). }
  rewrite (find_pred_ext _ _ _ Hpred).
  unfold binaryMember at 1.
  destruct (binaryProperty (binary p) (binaryPropertyName p)) as [b|]; unfold bind; simpl.
  - by destruct (mimeStartsWith (mimeType b) "image/").
  - destruct (inheritedMember (binary p) (binaryPropertyName p)); simpl.
    + by destruct (foreignBuffer be).
    + destruct (List.find _ _) as [imageProperty|]; [|done].
      destruct (truthy imageProperty); [|done]. simpl.
      destruct (binaryMember (binary p) imageProperty) as [b| |]; simpl.
      * by destruct (mimeStartsWith (mimeType b) "image/").
      * by destruct (foreignBuffer be).
      * by destruct (foreignBuffer be).
Qed.

(** In no mode does preparing the image send an upload. *)
Lemma quiet_getBinaryDataBuffer (be : Backend) (m : Member) : quiet (getBinaryDataBuffer be m).
Proof.
  destruct m; simpl; [apply quiet_ret|..];
    (destruct (foreignBuffer be); [apply quiet_ret | apply quiet_throw]).
Qed.

Lemma quiet_prepareImage (be : Backend) (p : Params) : quiet (prepareImage be p).
Proof.
  unfold prepareImage.
  destruct (String.eqb (inputType p) "url"); [by apply quiet_request|].
  destruct (String.eqb (inputType p) "binary"); [|apply quiet_ret].
  apply quiet_bind.
  - destruct (binaryMember (binary p) (binaryPropertyName p)); [apply quiet_ret..|].
    destruct (List.find _ _) as [imageProperty|]; [|apply quiet_throw].
    destruct (truthy imageProperty); [apply quiet_ret | apply quiet_throw].
  - intros actual. apply quiet_bind; [apply quiet_getBinaryDataBuffer|]. intros imageBuffer.
    destruct (negb _); [apply quiet_throw | apply quiet_ret].
Qed.

Lemma quiet_queue (be : Backend) (p : Params) (wf : ComfyUIWorkflow) : quiet (queue be p wf).
Proof.
  unfold queue. apply quiet_bind; [by apply quiet_request|].
  intros [promptId|]; [|apply quiet_throw].
  destruct (truthy promptId); [apply quiet_ret | apply quiet_throw].
Qed.

Lemma quiet_retrieve (be : Backend) (p : Params) st outs : quiet (retrieve be p st outs).
Proof.
  unfold retrieve. destruct (resolveOutput (apiUrl p) outs) as [videoOutput|e];
    [|apply quiet_throw].
  apply quiet_bind; [by apply quiet_request|].
  intros videoResponse. destruct (videoResponse.1 =? 404); [apply quiet_throw | apply quiet_ret].
Qed.

Lemma quiet_pollTick (be : Backend) (p : Params) (promptId : string) :
  quiet (pollTick be p promptId).
Proof.
  unfold pollTick. apply quiet_bind; [apply quiet_sleep|]. intros _.
  apply quiet_bind.
  - intros tr tr' r. unfold getHistory. by apply quiet_request.
  - intros [pr|]; [|apply quiet_ret].
    destruct (status pr) as [st|]; [|apply quiet_ret].
    destruct (completed st); [|apply quiet_ret].
    destruct (String.eqb (status_str st) "error"); [apply quiet_throw|].
    apply quiet_bind; [apply quiet_retrieve | intros item; apply quiet_ret].
Qed.

Lemma pollLoop_uploads (be : Backend) (p : Params) (promptId : string) (maxAttempts : Q)
    (fuel : nat) (attempts : Z) (tr tr' : Trace) r :
  pollLoop fuel be p promptId maxAttempts attempts tr = Some (tr', r) ->
  uploads tr' = uploads tr.
Proof.
  revert attempts tr. induction fuel as [|fuel IH]; intros attempts tr; simpl; [done|].
  destruct (belowCap attempts maxAttempts); [|by intros [= <- _]].
  destruct (pollTick be p promptId tr) as [tr1 [[|item]|e]] eqn:Htick;
    pose proof (quiet_pollTick be p promptId _ _ _ Htick) as Hq.
  - intros H. by rewrite (IH _ _ H).
  - by intros [= <- _].
  - by intros [= <- _].
Qed.

Lemma poll_uploads (be : Backend) (p : Params) (promptId : string) (tr tr' : Trace) r :
  poll be p promptId tr = Some (tr', r) -> uploads tr' = uploads tr.
Proof.
  unfold poll, sleep. intros H%pollLoop_uploads. rewrite H, uploads_app. apply app_nil_r.
Qed.

Lemma uploadBuffer_uploads (be : Backend) (p : Params) buffer fname (tr tr' : Trace) r :
  uploadBuffer be p buffer fname tr = (tr', r) ->
  uploads tr' = uploads tr ++ [uploadRequest p buffer fname].
Proof. intros [= <- _]. by rewrite uploads_app. Qed.

(** The audio phase sends nothing, or one upload of the named property's
    bytes under the name [input.mp3]. *)
Lemma uploadAudio_uploads (be : Backend) (p : Params) (tr tr' : Trace) r :
  uploadAudio be p tr = (tr', r) ->
  (uploads tr' = uploads tr ∧ (r = Ok None ∨ r = Err InvalidInputAudio)) ∨
  (exists audioBinary,
     binaryProperty (binary p) (audioBinaryPropertyName p) = Some audioBinary ∧
     uploads tr' = uploads tr ++ [uploadRequest p (data audioBinary) "input.mp3"]).
Proof.
  rewrite uploadAudio_unfold.
  destruct (truthy (audioBinaryPropertyName p)); [|intros [= <- <-]; auto].
  destruct (binaryProperty (binary p) (audioBinaryPropertyName p)) as [audioBinary|];
    [|destruct (inheritedMember _ _); intros [= <- <-]; auto].
  destruct (negb _); [intros [= <- <-]; auto|].
  unfold bind. destruct (uploadBuffer _ _ _ _ tr) as [tr1 [info|e]] eqn:Hup;
    apply uploadBuffer_uploads in Hup; intros [= <- _]; right; by exists audioBinary.
Qed.

Lemma quiet_parseWorkflow (p : Params) : quiet (parseWorkflow p).
Proof.
  unfold parseWorkflow. destruct (workflow p); [apply quiet_throw.. | apply quiet_ret].
Qed.

(** What follows the uploads, up to the queue request, sends no upload. *)
Lemma quiet_patch_and_queue (be : Backend) (p : Params) imageInfo audioInfo :
  quiet (do workflowData <- parseWorkflow p;
         match patchWorkflow imageInfo audioInfo workflowData with
         | (_, Err e) => throw e
         | (patched, Ok _) =>
             do promptId <- queue be p patched;
             ret (promptId, patched)
         end).
Proof.
  apply quiet_bind; [apply quiet_parseWorkflow|]. intros workflowData.
  destruct (patchWorkflow imageInfo audioInfo workflowData) as [patched [[]|e]];
    [|apply quiet_throw].
  apply quiet_bind; [apply quiet_queue | intros promptId; apply quiet_ret].
Qed.

Lemma submitJob_uploads (be : Backend) (p : Params) (tr : Trace) r :
  submitJob be p [] = (tr, r) -> canonicalUploads p (uploads tr).
Proof.
  unfold submitJob. unfold bind at 1.
  destruct (request _ (systemStats be) []) as [tr0 [u|e]] eqn:H0;
    apply quiet_request in H0; [|done| |done]; [|intros [= <- _]; by left].
  unfold bind at 1.
  destruct (prepareImage be p tr0) as [tr1 [imageBuffer|e]] eqn:H1;
    apply quiet_prepareImage in H1; [|intros [= <- _]; left; by rewrite H1, H0].
  unfold bind at 1.
  destruct (uploadBuffer be p imageBuffer "input.png" tr1) as [tr2 [imageInfo|e]] eqn:H2;
    apply uploadBuffer_uploads in H2; rewrite H1, H0 in H2; simpl in H2;
    [|intros [= <- _]; right; exists imageBuffer; by left].
  unfold bind at 1.
  destruct (uploadAudio be p tr2) as [tr3 [audioInfo|e]] eqn:H3;
    apply uploadAudio_uploads in H3 as [[H3 _]|(audioBinary & Hprop & H3)];
    rewrite H2 in H3; simpl in H3.
  - intros H4%quiet_patch_and_queue. right. exists imageBuffer. left. congruence.
  - intros H4%quiet_patch_and_queue. right. exists imageBuffer. right.
    exists audioBinary. split; [done | congruence].
  - intros [= <- _]. right. exists imageBuffer. by left.
  - intros [= <- _]. right. exists imageBuffer. right. by exists audioBinary.
Qed.

(** C9: every execution ends, and its upload requests are none (the execution
    failed earlier), or one request that carries the image bytes under the file
    name [input.png], or that request followed by one that carries the bytes
    of the named audio property under the file name [input.mp3].  The names
    are constants; no parameter or attached file name enters them.  Every
    upload request posts to [/upload/image] the bytes under field [image]
    and the fields [subfolder] = "" and [overwrite] = "true". *)
Theorem uploads_use_canonical_names (be : Backend) (p : Params) :
  (exists tr r, execute be p = Some (tr, r) ∧ canonicalUploads p (uploads tr)) ∧
  (forall buffer fname,
     uploadRequest p buffer fname =
       PostUpload (apiUrl p +:+ "/upload/image")
         [("image", FormFile buffer fname);
          ("subfolder", FormText "");
          ("overwrite", FormText "true")]) ∧
  (forall buffer fname tr,
     (uploadBuffer be p buffer fname tr).1 = tr ++ [uploadRequest p buffer fname]).
Proof.
  split; [|by split].
  destruct (execute_total be p) as [[tr r] Hex]. exists tr, r. split; [done|].
  unfold execute in Hex.
  destruct (submitJob be p []) as [tr0 [[promptId wf]|e]] eqn:Hsub;
    apply submitJob_uploads in Hsub.
  - apply poll_uploads in Hex. by rewrite Hex.
  - by injection Hex as <- _.
Qed.

(** ** Where the audio failures come from *)

Lemma silent_ret {A} (a : A) : silent (ret a).
Proof. by intros tr tr' e. Qed.

Lemma silent_throw {A} (e : Error) : audioFree e -> silent (@throw Trace A e).
Proof. by intros He tr tr' e' [= _ <-]. Qed.

Lemma silent_request {A} (ev : Event) (answer : option A) : silent (request ev answer).
Proof. intros tr tr' e. unfold request. destruct answer; intros [= _ <-]. by split. Qed.

Lemma silent_bind {A B} (m : Exec A) (k : A -> Exec B) :
  silent m -> (forall a, silent (k a)) -> silent (bind m k).
Proof.
  intros Hm Hk tr tr' e. unfold bind. destruct (m tr) as [tr1 [a|e1]] eqn:Hm1.
  - apply Hk.
  - intros [= _ <-]. by apply (Hm _ _ _ Hm1).
Qed.

Lemma silent_getBinaryDataBuffer (be : Backend) (m : Member) :
  silent (getBinaryDataBuffer be m).
Proof.
  destruct m; simpl; [apply silent_ret|..];
    (destruct (foreignBuffer be); [apply silent_ret | by apply silent_throw]).
Qed.

Lemma silent_prepareImage (be : Backend) (p : Params) : silent (prepareImage be p).
Proof.
  unfold prepareImage.
  destruct (String.eqb (inputType p) "url"); [apply silent_request|].
  destruct (String.eqb (inputType p) "binary"); [|apply silent_ret].
  apply silent_bind.
  - destruct (binaryMember (binary p) (binaryPropertyName p)); [apply silent_ret..|].
    destruct (List.find _ _) as [imageProperty|]; [|by apply silent_throw].
    destruct (truthy imageProperty); [apply silent_ret | by apply silent_throw].
  - intros actual. apply silent_bind; [apply silent_getBinaryDataBuffer|]. intros imageBuffer.
    destruct (negb _); [by apply silent_throw | apply silent_ret].
Qed.

Lemma silent_queue (be : Backend) (p : Params) (wf : ComfyUIWorkflow) : silent (queue be p wf).
Proof.
  unfold queue. apply silent_bind; [apply silent_request|].
  intros [promptId|]; [|by apply silent_throw].
  destruct (truthy promptId); [apply silent_ret | by apply silent_throw].
Qed.

Lemma resolveOutput_errors (api : string) outs e :
  resolveOutput api outs = Err e -> e = NoMediaOutputs ∨ e = NoVideoOutputs.
Proof.
  unfold resolveOutput. destruct (length _ =? 0)%nat; [intros [= <-]; auto|].
  destruct (length _ =? 0)%nat; [intros [= <-]; auto|].
  destruct (videoOutputs _); [intros [= <-]; auto | done].
Qed.

Lemma silent_retrieve (be : Backend) (p : Params) st outs : silent (retrieve be p st outs).
Proof.
  unfold retrieve. destruct (resolveOutput (apiUrl p) outs) as [videoOutput|e] eqn:Hres.
  - apply silent_bind; [apply silent_request|]. intros videoResponse.
    destruct (videoResponse.1 =? 404); [by apply silent_throw | apply silent_ret].
  - apply silent_throw. by destruct (resolveOutput_errors _ _ _ Hres) as [-> | ->].
Qed.

Lemma silent_pollTick (be : Backend) (p : Params) (promptId : string) :
  silent (pollTick be p promptId).
Proof.
  unfold pollTick. apply silent_bind; [by intros tr tr' e|]. intros _.
  apply silent_bind.
  - intros tr tr' e. unfold getHistory. apply silent_request.
  - intros [pr|]; [|apply silent_ret].
    destruct (status pr) as [st|]; [|apply silent_ret].
    destruct (completed st); [|apply silent_ret].
    destruct (String.eqb (status_str st) "error"); [by apply silent_throw|].
    apply silent_bind; [apply silent_retrieve | intros item; apply silent_ret].
Qed.

Lemma pollLoop_errors (be : Backend) (p : Params) (promptId : string) (maxAttempts : Q)
    (fuel : nat) (attempts : Z) (tr tr' : Trace) e :
  pollLoop fuel be p promptId maxAttempts attempts tr = Some (tr', Err e) -> audioFree e.
Proof.
  revert attempts tr. induction fuel as [|fuel IH]; intros attempts tr; simpl; [done|].
  destruct (belowCap attempts maxAttempts); [|by intros [= _ <-]].
  destruct (pollTick be p promptId tr) as [tr1 [[|item]|e1]] eqn:Htick.
  - apply IH.
  - done.
  - intros [= _ <-]. by apply (silent_pollTick _ _ _ _ _ _ Htick).
Qed.

Lemma patchWorkflow_errors imageInfo audioInfo (wf wf' : ComfyUIWorkflow) e :
  patchWorkflow imageInfo audioInfo wf = (wf', Err e) ->
  e = MissingImageNode ∨ (e = MissingAudioNode ∧ is_Some audioInfo).
Proof.
  unfold patchWorkflow, bind.
  destruct (patchImage imageInfo wf) as [wf1 [[]|e1]] eqn:Himg.
  - unfold patchAudio. destruct audioInfo as [info|]; [|done].
    destruct (findNode isLoadAudio wf1); [done|]. intros [= _ <-]. right. by eauto.
  - intros [= _ <-]. left. by apply patchImage_error in Himg.
Qed.

(** How the audio phase can end: with nothing to upload, with the MIME
    failure on an inherited member, or by the MIME type of the attached
    property. *)
Lemma uploadAudio_cases (be : Backend) (p : Params) (tr tr' : Trace) r :
  uploadAudio be p tr = (tr', r) ->
  r = Ok None ∨
  (audioBinaryPropertyName p ≠ "" ∧
   binaryMember (binary p) (audioBinaryPropertyName p) = Inherited ∧
   r = Err InvalidInputAudio) ∨
  exists audioBinary,
    audioBinaryPropertyName p ≠ "" ∧
    binaryProperty (binary p) (audioBinaryPropertyName p) = Some audioBinary ∧
    ((r = Err InvalidInputAudio ∧
      startsWith (default "" (mimeType audioBinary)) "audio/" = false) ∨
     (startsWith (default "" (mimeType audioBinary)) "audio/" = true ∧
      (r = Err RequestFailed ∨ exists info, r = Ok (Some info)))).
Proof.
  rewrite uploadAudio_unfold.
  destruct (truthy (audioBinaryPropertyName p)) eqn:Hname; [|intros [= _ <-]; auto].
  apply truthy_true in Hname.
  destruct (binaryProperty (binary p) (audioBinaryPropertyName p)) as [audioBinary|] eqn:Hprop.
  - intros H. right. right. exists audioBinary. split; [done|]. split; [done|].
    destruct (startsWith _ "audio/"); simpl in H.
    + right. split; [done|]. unfold bind, uploadBuffer, request in H.
      destruct (uploadImage be _); injection H as _ <-; eauto.
    + left. by injection H as _ <-.
  - destruct (inheritedMember _ _) eqn:Hinh; intros [= _ <-]; [|by left].
    right. left. split; [done|]. split; [|done]. by apply binaryMember_Inherited.
Qed.

(** Errors of the steps between the uploads and the poll loop. *)
Lemma patch_and_queue_errors (be : Backend) (p : Params) imageInfo audioInfo
    (tr tr' : Trace) e :
  (do workflowData <- parseWorkflow p;
   match patchWorkflow imageInfo audioInfo workflowData with
   | (_, Err e) => throw e
   | (patched, Ok _) =>
       do promptId <- queue be p patched;
       ret (promptId, patched)
   end) tr = (tr', Err e) ->
  e ≠ InvalidInputAudio ∧ (e = MissingAudioNode -> is_Some audioInfo).
Proof.
  unfold bind at 1. unfold parseWorkflow.
  destruct (workflow p) as [| |wf]; try (intros [= _ <-]; by split).
  unfold ret at 1.
  destruct (patchWorkflow imageInfo audioInfo wf) as [patched [[]|e5]] eqn:H5.
  - intros Hq. assert (audioFree e) as [? ?]; [|by split].
    revert Hq. apply silent_bind; [apply silent_queue | intros a; apply silent_ret].
  - intros [= _ <-]. apply patchWorkflow_errors in H5 as [->|[-> ?]]; by split.
Qed.

(** An audio failure of the steps before polling requires the audio property
    name to read something: an attached property with an audio MIME type for
    the missing node, a member without one for the MIME failure. *)
Lemma submitJob_audio_errors (be : Backend) (p : Params) (tr : Trace) e :
  submitJob be p [] = (tr, Err e) ->
  e = InvalidInputAudio ∨ e = MissingAudioNode ->
  audioBinaryPropertyName p ≠ "" ∧
  (e = InvalidInputAudio ->
     binaryMember (binary p) (audioBinaryPropertyName p) ≠ Absent ∧
     startsWith (default "" (memberMime (binaryMember (binary p) (audioBinaryPropertyName p))))
       "audio/" = false) ∧
  (e = MissingAudioNode ->
     exists audioBinary,
       binaryProperty (binary p) (audioBinaryPropertyName p) = Some audioBinary ∧
       startsWith (default "" (mimeType audioBinary)) "audio/" = true).
Proof.
  intros Hsub He.
  assert (¬ audioFree e) as Hnot by (intros [? ?]; by destruct He).
  revert Hsub. unfold submitJob. unfold bind at 1.
  destruct (request _ (systemStats be) []) as [tr0 [u|e0]] eqn:H0;
    [|intros [= _ <-]; by apply silent_request in H0].
  unfold bind at 1.
  destruct (prepareImage be p tr0) as [tr1 [imageBuffer|e1]] eqn:H1;
    [|intros [= _ <-]; by apply silent_prepareImage in H1].
  unfold bind at 1.
  destruct (uploadBuffer be p imageBuffer "input.png" tr1) as [tr2 [imageInfo|e2]] eqn:H2;
    [|intros [= _ <-]; by apply silent_request in H2].
  unfold bind at 1.
  destruct (uploadAudio be p tr2) as [tr3 r3] eqn:H3.
  apply uploadAudio_cases in H3
    as [->|[(Hname & Hinh & ->)|(audioBinary & Hname & Hprop & Hmime)]].
  - intros [Hne Hsome]%patch_and_queue_errors. destruct He as [->| ->]; [done|].
    by destruct (Hsome eq_refl).
  - intros [= _ <-]. split; [done|]. split; [|done]. intros _. by rewrite Hinh.
  - intros Hrest. split; [done|].
    apply binaryMember_Own in Hprop as Hown.
    destruct Hmime as [[-> Hmime]|[Hmime [->|[info ->]]]].
    + injection Hrest as _ <-. split; [|done]. intros _. by rewrite Hown.
    + injection Hrest as _ <-. by split.
    + apply patch_and_queue_errors in Hrest as [? _]. split; [done|].
      intros _. by exists audioBinary.
Qed.

(** The same for a whole execution. *)
Lemma execute_audio_errors (be : Backend) (p : Params) (tr : Trace) e :
  execute be p = Some (tr, Err e) ->
  e = InvalidInputAudio ∨ e = MissingAudioNode ->
  audioBinaryPropertyName p ≠ "" ∧
  (e = InvalidInputAudio ->
     binaryMember (binary p) (audioBinaryPropertyName p) ≠ Absent ∧
     startsWith (default "" (memberMime (binaryMember (binary p) (audioBinaryPropertyName p))))
       "audio/" = false) ∧
  (e = MissingAudioNode ->
     exists audioBinary,
       binaryProperty (binary p) (audioBinaryPropertyName p) = Some audioBinary ∧
       startsWith (default "" (mimeType audioBinary)) "audio/" = true).
Proof.
  unfold execute. destruct (submitJob be p []) as [tr0 [[promptId wf]|e0]] eqn:Hsub.
  - unfold poll, sleep. intros [He1 He2]%pollLoop_errors [->| ->]; done.
  - intros [= <- <-]. by apply (submitJob_audio_errors be p tr0).
Qed.

(** ** The guard of the audio patch *)

(** C7: without an uploaded audio asset the audio patch does nothing and the
    patch step as a whole is the image patch, so it never throws
    MissingAudioNode, whatever the graph.  The audio patch throws
    MissingAudioNode exactly when an audio asset exists and no node of the
    graph is a LoadAudio node with a defined [audio] or [filename] input; the
    same holds for the whole patch step of an execution that gets as far as
    the audio patch (the graph has an eligible LoadImage node).  An execution
    that ends with MissingAudioNode has the named audio property attached,
    with an audio MIME type. *)
Theorem patchAudio_guard
    (imageInfo : ImageInfo) (audioInfo : option ImageInfo) (wf : ComfyUIWorkflow) :
  (audioInfo = None ->
     patchAudio audioInfo wf = (wf, Ok tt) ∧
     patchWorkflow imageInfo audioInfo wf = patchImage imageInfo wf ∧
     (patchWorkflow imageInfo audioInfo wf).2 ≠ Err MissingAudioNode) ∧
  ((patchAudio audioInfo wf).2 = Err MissingAudioNode <->
     is_Some audioInfo ∧
     forall j k node, wf !! j = Some (k, node) ->
       ¬ (class_type node = "LoadAudio" ∧
          (is_Some (getInput "audio" node) ∨ is_Some (getInput "filename" node)))) ∧
  ((exists j k0 node0, wf !! j = Some (k0, node0) ∧ eligibleImage node0) ->
     ((patchWorkflow imageInfo audioInfo wf).2 = Err MissingAudioNode <->
        is_Some audioInfo ∧
        forall j k node, wf !! j = Some (k, node) ->
          ¬ (class_type node = "LoadAudio" ∧
             (is_Some (getInput "audio" node) ∨ is_Some (getInput "filename" node))))) ∧
  (forall be p tr, execute be p = Some (tr, Err MissingAudioNode) ->
     exists audioBinary,
       audioBinaryPropertyName p ≠ "" ∧
       binaryProperty (binary p) (audioBinaryPropertyName p) = Some audioBinary ∧
       startsWith (default "" (mimeType audioBinary)) "audio/" = true).
Proof.
  split; [|split; [|split]]; cycle 3.
  { intros be p tr Hex.
    destruct (execute_audio_errors be p tr _ Hex) as (Hname & _ & Hnode); [auto|].
    destruct (Hnode eq_refl) as (b & Hb & Hmime). by exists b. }
  - intros ->. split; [done|].
    assert (patchWorkflow imageInfo None wf = patchImage imageInfo wf) as Heq.
    { unfold patchWorkflow, bind. by destruct (patchImage imageInfo wf) as [wf' [[]|e]]. }
    split; [done|]. rewrite Heq.
    destruct (patchImage imageInfo wf) as [wf' [[]|e]] eqn:Hp; simpl; [done|].
    apply patchImage_error in Hp as ->. done.
  - fold (eligibleAudio). unfold patchAudio.
    destruct audioInfo as [info|]; simpl.
    + destruct (findNode isLoadAudio wf) as [i|] eqn:Hf; simpl.
      * split; [done|]. intros [_ Hnone]. apply no_eligible_audio in Hnone. congruence.
      * split; [|done]. intros _. split; [by eexists|]. by apply no_eligible_audio.
    + split; [done|]. by intros [[? ?] _].
  - intros (j & k0 & node0 & Hl0 & Hel0).
    destruct (findNode_is_Some isLoadImage wf j (k0, node0) Hl0) as [i0 Hfind0];
      [by apply isLoadImage_spec|].
    unfold patchWorkflow, bind. rewrite (patchImage_found _ _ _ Hfind0).
    unfold patchAudio. destruct audioInfo as [info|]; simpl.
    + rewrite (findNode_updateNode isLoadAudio); [|apply isLoadAudio_setInput_image].
      destruct (findNode isLoadAudio wf) as [i|] eqn:Hf; simpl.
      * split; [done|]. intros [_ Hnone]. apply no_eligible_audio in Hnone. congruence.
      * split; [|done]. intros _. split; [by eexists|]. by apply no_eligible_audio.
    + split; [done|]. by intros [[? ?] _].
Qed.

Lemma patchAudio_guard_witness :
  patchAudio None imageOnlyGraph = (imageOnlyGraph, Ok tt) ∧
  (patchWorkflow sampleImageInfo None imageOnlyGraph).2 ≠ Err MissingAudioNode ∧
  (patchWorkflow sampleImageInfo (Some sampleAudioInfo) imageOnlyGraph).2
    = Err MissingAudioNode.
Proof.
  destruct (patchAudio_guard sampleImageInfo None imageOnlyGraph) as [Hskip _].
  destruct (Hskip eq_refl) as (Hnoop & _ & Hnever).
  destruct (patchAudio_guard sampleImageInfo (Some sampleAudioInfo) imageOnlyGraph)
    as (_ & _ & Hwhole & _).
  split; [exact Hnoop|]. split; [exact Hnever|].
  apply Hwhole.
  - exists O, "3", sampleImageNode. split; [reflexivity|].
    split; [reflexivity | exists (JStr ""); vm_compute; reflexivity].
  - split; [by eexists|].
    intros [|j] k node; simpl; intros Hl [Hc _]; [|discriminate Hl].
    injection Hl as <- <-. discriminate Hc.
Defined.

(** ** Skipping a missing audio property *)

Lemma pollLoop_withoutAudio (be : Backend) (p : Params) (promptId : string)
    (maxAttempts : Q) (fuel : nat) (attempts : Z) (tr : Trace) :
  pollLoop fuel be (withoutAudio p) promptId maxAttempts attempts tr =
  pollLoop fuel be p promptId maxAttempts attempts tr.
Proof.
  revert attempts tr. induction fuel as [|fuel IH]; intros attempts tr; simpl; [done|].
  destruct (belowCap attempts maxAttempts); [|done].
  change (pollTick be (withoutAudio p) promptId tr) with (pollTick be p promptId tr).
  destruct (pollTick be p promptId tr) as [tr1 [[|item]|e1]]; [apply IH | done..].
Qed.

(** An execution in which the audio property name reads nothing is the
    execution with the name left empty. *)
Lemma execute_withoutAudio (be : Backend) (p : Params) :
  audioBinaryPropertyName p ≠ "" ->
  binaryMember (binary p) (audioBinaryPropertyName p) = Absent ->
  uploadAudio be p = ret None ∧ execute be p = execute be (withoutAudio p).
Proof.
  intros Hname Hprop.
  assert (uploadAudio be p = ret None) as Hskip.
  { unfold uploadAudio. apply truthy_true in Hname. by rewrite Hname, Hprop. }
  split; [done|]. unfold execute.
  assert (submitJob be (withoutAudio p) = submitJob be p) as ->.
  { unfold submitJob. rewrite Hskip. reflexivity. }
  destruct (submitJob be p []) as [tr0 [[promptId wf]|e0]]; [|done].
  unfold poll. apply symmetry, pollLoop_withoutAudio.
Qed.

(** C10, the code at the failing input: with the audio property name
    [toString] and an input item that has only an image attached, so that no
    property of that name is attached, the audio phase does not skip the
    upload: the read finds the member that every object inherits, the MIME
    check runs on it and the execution ends with InvalidInputAudio after the
    image upload, whereas with the name left empty the same execution returns
    the video. *)
Theorem inherited_audio_name_is_not_skipped :
  audioBinaryPropertyName inheritedAudioParams = "toString" ∧
  binaryProperty (binary inheritedAudioParams) (audioBinaryPropertyName inheritedAudioParams)
    = None ∧
  (default [] (binary inheritedAudioParams)).*1 = ["data"] ∧
  (forall tr, uploadAudio successBackend inheritedAudioParams tr = (tr, Err InvalidInputAudio)) ∧
  execute successBackend inheritedAudioParams
    = Some ([GetSystemStats "http://comfy/system_stats";
             uploadRequest inheritedAudioParams [Byte.xff] "input.png"],
            Err InvalidInputAudio) ∧
  (exists tr item,
     execute successBackend (withoutAudio inheritedAudioParams) = Some (tr, Ok item)).
Proof.
  split; [reflexivity|]. split; [reflexivity|]. split; [reflexivity|].
  split; [intros tr; reflexivity|]. split; [vm_compute; reflexivity|].
  do 2 eexists. vm_compute. reflexivity.
Qed.

(** The end-to-end scenario: one upload, the graph queued with the returned
    name, two status queries, and the WebP result. *)
Example execute_scenario :
  exists tr,
    execute successBackend sampleParams =
      Some (tr, Ok {| out_mimeType := "image/webp";
                      out_fileName := "result.webp";
                      out_data := [Byte.x52; Byte.x49];
                      out_status := mkStatus true "success";
                      out_fileType := "video";
                      out_fileExtension := "webp" |}) ∧
    uploads tr = [uploadRequest sampleParams [] "input.png"] ∧
    historyQueries tr = 2%nat.
Proof. eexists. split; [vm_compute; reflexivity | split; vm_compute; reflexivity]. Qed.

(** With a WAV file attached, both uploads use the fixed names. *)
Example execute_with_audio :
  exists tr r,
    execute successBackend audioParams = Some (tr, r) ∧
    uploads tr = [uploadRequest audioParams [Byte.xff] "input.png";
                  uploadRequest audioParams [Byte.x01] "input.mp3"].
Proof. do 2 eexists. split; vm_compute; reflexivity. Qed.

(** * Further properties of the code *)

(** ** Patching: which node is written and what is left alone *)

Lemma updateNode_lookup_gen (i j : nat) f (wf : ComfyUIWorkflow) :
  updateNode i f wf !! j =
    (fun kn => (kn.1, if decide (i = j) then f kn.2 else kn.2)) <$> wf !! j.
Proof.
  unfold updateNode. rewrite list_lookup_alter. case_decide as Hij.
  - subst. by destruct (wf !! j) as [[k n]|].
  - by destruct (wf !! j) as [[k n]|].
Qed.

(** X1: with several eligible LoadImage nodes, the image patch writes the
    returned name into the first one in enumeration order and changes no
    other entry, so later LoadImage nodes keep their [image] input. *)
Theorem patchImage_patches_first_only
    (imageInfo : ImageInfo) (wf : ComfyUIWorkflow) (i : nat) (k : string)
    (node : ComfyUINode) :
  wf !! i = Some (k, node) ->
  eligibleImage node ->
  (forall j k' node', (j < i)%nat -> wf !! j = Some (k', node') -> ¬ eligibleImage node') ->
  exists wf' node',
    patchImage imageInfo wf = (wf', Ok tt) ∧
    wf' !! i = Some (k, node') ∧
    getInput "image" node' = Some (JStr (name imageInfo)) ∧
    forall j, j ≠ i -> wf' !! j = wf !! j.
Proof.
  intros Hl Hel Hfirst.
  assert (findNode isLoadImage wf = Some i) as Hfind.
  { apply findNode_Some. split.
    - exists (k, node). split; [done | by apply isLoadImage_spec].
    - intros j [k' node'] Hj Hl'. simpl.
      destruct (isLoadImage node') eqn:Hp; [|done].
      apply isLoadImage_spec in Hp. by destruct (Hfirst j k' node' Hj Hl'). }
  exists (updateNode i (setInput "image" (JStr (name imageInfo))) wf),
         (setInput "image" (JStr (name imageInfo)) node).
  split; [by apply patchImage_found|].
  split; [by apply updateNode_lookup|].
  split.
  - apply getInput_setInput_eq. destruct Hel as [_ Hsome].
    by apply getInput_is_Some_inputs in Hsome.
  - intros j Hj. by apply updateNode_lookup_ne.
Qed.

Lemma patchImage_patches_first_only_witness :
  exists wf' node',
    patchImage sampleImageInfo twoImagesGraph = (wf', Ok tt) ∧
    wf' !! 1%nat = Some ("3", node') ∧
    getInput "image" node' = Some (JStr "input (1).png") ∧
    forall j, j ≠ 1%nat -> wf' !! j = twoImagesGraph !! j.
Proof.
  apply (patchImage_patches_first_only sampleImageInfo twoImagesGraph 1 "3" sampleImageNode).
  - reflexivity.
  - split; [reflexivity | exists (JStr ""); vm_compute; reflexivity].
  - intros [|j] k' node' Hj; simpl; [|lia].
    intros [= <- <-] [Hc _]. discriminate Hc.
Defined.

Lemma writeAudio_cases nm node :
  writeAudio nm node = setInput "audio" (JStr nm) node ∨
  (getInput "audio" node = None ∧ writeAudio nm node = setInput "filename" (JStr nm) node).
Proof.
  unfold writeAudio. destruct (defined (getInput "audio" node)) eqn:Ha; [by left|].
  apply defined_false in Ha. destruct (defined (getInput "filename" node)); auto.
Qed.

(** What one patch does to the entry at position [j]. *)
Lemma patchImage_entry (imageInfo : ImageInfo) (wf : ComfyUIWorkflow) j k node :
  wf !! j = Some (k, node) ->
  (patchImage imageInfo wf).1 !! j = Some (k, node) ∨
  (eligibleImage node ∧
   (patchImage imageInfo wf).1 !! j
     = Some (k, setInput "image" (JStr (name imageInfo)) node)).
Proof.
  intros Hl. unfold patchImage.
  destruct (findNode isLoadImage wf) as [i|] eqn:Hfind; simpl; [|by left].
  rewrite updateNode_lookup_gen, Hl. simpl. case_decide as Hij; [|by left].
  subst. right. split; [|done].
  apply findNode_Some in Hfind as [[kn [Hl' Hp]] _].
  rewrite Hl in Hl'. injection Hl' as <-. by apply isLoadImage_spec.
Qed.

Lemma patchAudio_entry (audioInfo : option ImageInfo) (wf : ComfyUIWorkflow) j k node :
  wf !! j = Some (k, node) ->
  (patchAudio audioInfo wf).1 !! j = Some (k, node) ∨
  (exists a, audioInfo = Some a ∧ eligibleAudio node ∧
     (patchAudio audioInfo wf).1 !! j = Some (k, writeAudio (name a) node)).
Proof.
  intros Hl. unfold patchAudio. destruct audioInfo as [a|]; simpl; [|by left].
  destruct (findNode isLoadAudio wf) as [i|] eqn:Hfind; simpl; [|by left].
  rewrite updateNode_lookup_gen, Hl. simpl. case_decide as Hij; [|by left].
  subst. right. exists a. split; [done|]. split; [|done].
  apply findNode_Some in Hfind as [[kn [Hl' Hp]] _].
  rewrite Hl in Hl'. injection Hl' as <-. by apply isLoadAudio_spec.
Qed.

Lemma patchWorkflow_graph (imageInfo : ImageInfo) audioInfo (wf : ComfyUIWorkflow) :
  (patchWorkflow imageInfo audioInfo wf).1 = (patchImage imageInfo wf).1 ∨
  ((patchImage imageInfo wf).2 = Ok tt ∧
   (patchWorkflow imageInfo audioInfo wf).1
     = (patchAudio audioInfo (patchImage imageInfo wf).1).1).
Proof.
  unfold patchWorkflow, bind. destruct (patchImage imageInfo wf) as [wf1 [[]|e]]; simpl.
  - right. by destruct (patchAudio audioInfo wf1).
  - by left.
Qed.

Lemma patch_keys (imageInfo : ImageInfo) audioInfo (wf : ComfyUIWorkflow) :
  (patchImage imageInfo wf).1.*1 = wf.*1 ∧ (patchAudio audioInfo wf).1.*1 = wf.*1.
Proof.
  split.
  - unfold patchImage. destruct (findNode isLoadImage wf); simpl; [apply updateNode_keys | done].
  - unfold patchAudio. destruct audioInfo; simpl; [|done].
    destruct (findNode isLoadAudio wf); simpl; [apply updateNode_keys | done].
Qed.

Lemma framed_refl node : framed node node.
Proof. repeat split; done. Qed.

Lemma framed_setInput_image v node :
  eligibleImage node -> framed node (setInput "image" v node).
Proof.
  intros Hel. pose proof Hel as [Hc _]. split; [done|]. split; [done|].
  split; [intros key ? ? ?; by apply getInput_setInput_ne|].
  split; [intros Hn; by destruct (Hn Hel)|].
  split; [intros _; split; by apply getInput_setInput_ne|].
  intros Hn. by destruct (Hn Hc).
Qed.

Lemma framed_writeAudio nm node :
  eligibleAudio node -> framed node (writeAudio nm node).
Proof.
  intros Hel. pose proof Hel as [Hc _].
  destruct (writeAudio_cases nm node) as [-> | [Ha ->]];
    (split; [done|]); (split; [done|]);
    (split; [intros key ? ? ?; by apply getInput_setInput_ne|]);
    (split; [intros ? Hn; by destruct (Hn Hel)|]);
    (split; [intros Hn; by destruct (Hn Hc)|]);
    intros _; by apply getInput_setInput_ne.
Qed.

(** X2: whatever its outcome, the patch step keeps the node ids and their
    order, and for every node the class, the meta data and all inputs other
    than [image], [audio] and [filename].  A node that is neither an eligible
    LoadImage nor an eligible LoadAudio node is left exactly as it was; the
    image patch leaves [audio] and [filename] alone and the audio patch leaves
    [image] alone. *)
Theorem patchWorkflow_frame
    (imageInfo : ImageInfo) (audioInfo : option ImageInfo) (wf : ComfyUIWorkflow) :
  (patchWorkflow imageInfo audioInfo wf).1.*1 = wf.*1 ∧
  forall j k node, wf !! j = Some (k, node) ->
    exists node',
      (patchWorkflow imageInfo audioInfo wf).1 !! j = Some (k, node') ∧
      class_type node' = class_type node ∧
      _meta node' = _meta node ∧
      (forall key, key ≠ "image" -> key ≠ "audio" -> key ≠ "filename" ->
         getInput key node' = getInput key node) ∧
      (¬ eligibleImage node -> ¬ eligibleAudio node -> node' = node) ∧
      (class_type node ≠ "LoadAudio" ->
         getInput "audio" node' = getInput "audio" node ∧
         getInput "filename" node' = getInput "filename" node) ∧
      (class_type node ≠ "LoadImage" -> getInput "image" node' = getInput "image" node).
Proof.
  split.
  - destruct (patchWorkflow_graph imageInfo audioInfo wf) as [-> | [_ ->]].
    + apply patch_keys; exact audioInfo.
    + destruct (patch_keys imageInfo audioInfo (patchImage imageInfo wf).1) as [_ ->].
      apply patch_keys; exact audioInfo.
  - intros j k node Hl. fold (framed node).
    assert (exists node', (patchWorkflow imageInfo audioInfo wf).1 !! j = Some (k, node')
                          ∧ framed node node') as (node' & Hl' & Hfr);
      [|by exists node'].
    destruct (patchWorkflow_graph imageInfo audioInfo wf) as [-> | [_ ->]].
    + destruct (patchImage_entry imageInfo wf j k node Hl) as [H1 | [Hel1 H1]].
      * exists node. split; [done | apply framed_refl].
      * eexists. split; [exact H1 | by apply framed_setInput_image].
    + destruct (patchImage_entry imageInfo wf j k node Hl) as [H1 | [Hel1 H1]];
        destruct (patchAudio_entry audioInfo _ j k _ H1) as [H2 | (a & Ha & Hel2 & H2)].
      * exists node. split; [done | apply framed_refl].
      * eexists. split; [exact H2 | by apply framed_writeAudio].
      * eexists. split; [exact H2 | by apply framed_setInput_image].
      * destruct Hel1 as [Hc1 _]. destruct Hel2 as [Hc2 _]. simpl in Hc2. congruence.
Qed.

Lemma patchWorkflow_frame_witness :
  exists node',
    (patchWorkflow sampleImageInfo None twoImagesGraph).1 !! 0%nat = Some ("1", node') ∧
    node' = samplerNode.
Proof.
  destruct (patchWorkflow_frame sampleImageInfo None twoImagesGraph) as [_ Hframe].
  destruct (Hframe O "1" samplerNode eq_refl) as (node' & Hl & _ & _ & _ & Hsame & _).
  exists node'. split; [exact Hl|]. apply Hsame.
  - intros [Hc _]. discriminate Hc.
  - intros [Hc _]. discriminate Hc.
Defined.

(** X3: when the patch step succeeds, the patched graph holds a LoadImage
    node whose [image] input is the name returned for the image upload and,
    if audio was uploaded, a different node of class LoadAudio whose [audio]
    or [filename] input is the name returned for the audio upload. *)
Theorem patchWorkflow_success_names
    (imageInfo : ImageInfo) (audioInfo : option ImageInfo) (wf wf' : ComfyUIWorkflow) :
  patchWorkflow imageInfo audioInfo wf = (wf', Ok tt) ->
  exists i0 k0 n0,
    wf' !! i0 = Some (k0, n0) ∧
    class_type n0 = "LoadImage" ∧
    getInput "image" n0 = Some (JStr (name imageInfo)) ∧
    forall a, audioInfo = Some a ->
      exists i k n,
        i ≠ i0 ∧
        wf' !! i = Some (k, n) ∧
        class_type n = "LoadAudio" ∧
        (getInput "audio" n = Some (JStr (name a)) ∨
         getInput "filename" n = Some (JStr (name a))).
Proof.
  unfold patchWorkflow, bind, patchImage.
  destruct (findNode isLoadImage wf) as [i0|] eqn:Hfind0; [|done].
  pose proof Hfind0 as [[[k0 node0] [Hl0 Hp0]] _]%findNode_Some. simpl in Hp0.
  apply isLoadImage_spec in Hp0 as [Hc0 Hi0].
  set (wf1 := updateNode i0 (setInput "image" (JStr (name imageInfo))) wf).
  assert (wf1 !! i0 = Some (k0, setInput "image" (JStr (name imageInfo)) node0)) as Hl1
    by by apply updateNode_lookup.
  assert (getInput "image" (setInput "image" (JStr (name imageInfo)) node0)
          = Some (JStr (name imageInfo))) as Himg.
  { apply getInput_setInput_eq. by apply getInput_is_Some_inputs in Hi0. }
  unfold patchAudio. destruct audioInfo as [a|].
  - destruct (findNode isLoadAudio wf1) as [i|] eqn:Hfind; [|done].
    intros [= <-].
    pose proof Hfind as [[[k node] [Hl Hp]] _]%findNode_Some. simpl in Hp.
    apply isLoadAudio_spec in Hp as [Hc Hkeys].
    assert (i ≠ i0) as Hne.
    { intros ->. rewrite Hl1 in Hl. injection Hl as _ <-. simpl in Hc. congruence. }
    exists i0, k0, (setInput "image" (JStr (name imageInfo)) node0).
    split; [by rewrite updateNode_lookup_ne|]. split; [done|]. split; [done|].
    intros a' [= <-]. exists i, k, (writeAudio (name a) node).
    split; [done|]. split; [by apply updateNode_lookup|].
    destruct (writeAudio_cases (name a) node) as [-> | [Ha ->]].
    + split; [done|]. left. apply getInput_setInput_eq.
      destruct Hkeys as [H|H]; by apply getInput_is_Some_inputs in H.
    + split; [done|]. right. apply getInput_setInput_eq.
      destruct Hkeys as [H|H]; by apply getInput_is_Some_inputs in H.
  - intros [= <-]. exists i0, k0, (setInput "image" (JStr (name imageInfo)) node0).
    split; [done|]. split; [done|]. split; [done|]. done.
Qed.

Lemma patchWorkflow_success_names_witness :
  exists i0 k0 n0,
    (patchWorkflow sampleImageInfo (Some sampleAudioInfo) sampleGraph).1 !! i0
      = Some (k0, n0) ∧
    class_type n0 = "LoadImage" ∧
    getInput "image" n0 = Some (JStr "input (1).png") ∧
    forall a, Some sampleAudioInfo = Some a ->
      exists i k n,
        i ≠ i0 ∧
        (patchWorkflow sampleImageInfo (Some sampleAudioInfo) sampleGraph).1 !! i
          = Some (k, n) ∧
        class_type n = "LoadAudio" ∧
        (getInput "audio" n = Some (JStr (name a)) ∨
         getInput "filename" n = Some (JStr (name a))).
Proof.
  apply (patchWorkflow_success_names sampleImageInfo (Some sampleAudioInfo) sampleGraph).
  vm_compute. reflexivity.
Defined.

(** ** Preparing the input image *)

Lemma assoc_In {A} (key : string) (l : list (string * A)) v :
  assoc key l = Some v -> In (key, v) l.
Proof.
  induction l as [|[k x] l IH]; simpl; [done|].
  destruct (String.eqb k key) eqn:Hk.
  - apply String.eqb_eq in Hk as ->. intros [= ->]. by left.
  - intros H. right. by apply IH.
Qed.

Lemma assoc_NoDup {A} (key : string) (l : list (string * A)) v :
  NoDup (l.*1) -> In (key, v) l -> assoc key l = Some v.
Proof.
  induction l as [|[k x] l IH]; simpl; [done|].
  intros [Hk Hnd]%NoDup_cons [[= -> ->]|Hin].
  - by rewrite String.eqb_refl.
  - destruct (String.eqb k key) eqn:Hkk; [|by apply IH].
    apply String.eqb_eq in Hkk as ->. destruct Hk.
    apply list_elem_of_In. apply (in_map fst) in Hin. exact Hin.
Qed.

Lemma find_first {A} (f : A -> bool) (xs zs : list A) (y : A) :
  (forall x, In x xs -> f x = false) -> f y = true ->
  List.find f (xs ++ y :: zs) = Some y.
Proof.
  intros Hxs Hy. induction xs as [|x xs IH]; simpl.
  - by rewrite Hy.
  - rewrite (Hxs x (or_introl eq_refl)). apply IH. intros x' Hx'. apply Hxs. by right.
Qed.

(** X4: in binary mode, when the named property is attached, it alone
    decides: its bytes are used if its MIME type starts with [image/], and
    the execution fails with the invalid-media error otherwise.  No other
    attached property is looked at and no request is made. *)
Theorem prepareImage_named_property
    (be : Backend) (p : Params) (tr : Trace) (b : IBinaryData) :
  inputType p = "binary" ->
  binaryProperty (binary p) (binaryPropertyName p) = Some b ->
  prepareImage be p tr =
    (tr, if mimeStartsWith (mimeType b) "image/" then Ok (data b)
         else Err InvalidInputImage).
Proof.
  intros Htype Hprop. by rewrite (prepareImage_binary be p tr Htype), Hprop.
Qed.

Lemma prepareImage_named_property_witness :
  prepareImage idleBackend wrongTypeParams [] = ([], Err InvalidInputImage).
Proof.
  apply (prepareImage_named_property idleBackend wrongTypeParams []
           (mkBinary (Some "video/mp4") (Some "clip.mp4") [Byte.x00])); reflexivity.
Defined.

(** X5: in binary mode, when the given name reads nothing (no property of
    that name is attached and it is not a member that every object inherits),
    the bytes of the first attached property (in key order) whose MIME type
    starts with [image/] are used instead. *)
Theorem prepareImage_fallback
    (be : Backend) (p : Params) (tr : Trace)
    (pre post : list (string * IBinaryData)) (key : string) (b : IBinaryData) :
  inputType p = "binary" ->
  binary p = Some (pre ++ (key, b) :: post) ->
  NoDup ((pre ++ (key, b) :: post).*1) ->
  binaryMember (binary p) (binaryPropertyName p) = Absent ->
  (forall k' b', In (k', b') pre -> mimeStartsWith (mimeType b') "image/" = false) ->
  mimeStartsWith (mimeType b) "image/" = true ->
  key ≠ "" ->
  prepareImage be p tr = (tr, Ok (data b)).
Proof.
  intros Htype Hbin Hnd [Hprop Hinh]%binaryMember_Absent Hpre Hb Hkey.
  rewrite (prepareImage_binary be p tr Htype), Hprop, Hinh.
  assert (binaryProperty (binary p) key = Some b) as Hassoc.
  { rewrite Hbin. simpl. apply assoc_NoDup; [done|]. apply in_or_app. right. by left. }
  assert (List.find
            (fun key0 => match binaryProperty (binary p) key0 with
                         | Some b0 => mimeStartsWith (mimeType b0) "image/"
                         | None => false
                         end) (default [] (binary p)).*1 = Some key) as ->.
  { rewrite Hbin in Hassoc |- *. simpl in Hassoc |- *. rewrite fmap_app. simpl.
    apply find_first.
    - intros k' Hk'. apply in_map_iff in Hk' as [[k1 b1] [<- Hin]]. simpl.
      rewrite (assoc_NoDup k1 _ b1); [by apply (Hpre k1) | done |].
      apply in_or_app. by left.
    - by rewrite Hassoc. }
  apply truthy_true in Hkey. rewrite Hkey.
  apply binaryMember_Own in Hassoc. by rewrite Hassoc, Hb.
Qed.

Lemma prepareImage_fallback_witness :
  prepareImage idleBackend fallbackParams [] = ([], Ok [Byte.x89]).
Proof.
  apply (prepareImage_fallback idleBackend fallbackParams []
           [("notes", mkBinary (Some "text/plain") None [Byte.x41])]
           [("scan", mkBinary (Some "image/jpeg") None [Byte.xff])]
           "photo" (mkBinary (Some "image/png") (Some "p.png") [Byte.x89])).
  - reflexivity.
  - reflexivity.
  - simpl. apply (bool_decide_unpack (NoDup ["notes"; "photo"; "scan"])).
    vm_compute. exact I.
  - reflexivity.
  - intros k' b' [[= <- <-]|[]]. reflexivity.
  - reflexivity.
  - discriminate.
Defined.

(** X6: in binary mode, when the given name reads nothing (no property of
    that name is attached and it is not a member that every object inherits)
    and no attached property has a MIME type starting with [image/] (in
    particular when nothing is attached), the execution fails with the
    no-binary-data error before any request. *)
Theorem prepareImage_no_image (be : Backend) (p : Params) (tr : Trace) :
  inputType p = "binary" ->
  binaryMember (binary p) (binaryPropertyName p) = Absent ->
  (forall k b, In (k, b) (default [] (binary p)) ->
     mimeStartsWith (mimeType b) "image/" = false) ->
  prepareImage be p tr = (tr, Err NoBinaryData).
Proof.
  intros Htype [Hprop Hinh]%binaryMember_Absent Hnone.
  rewrite (prepareImage_binary be p tr Htype), Hprop, Hinh.
  destruct (List.find _ _) as [imageProperty|] eqn:Hfind; [|done].
  apply List.find_some in Hfind as [_ Hp].
  destruct (binaryProperty (binary p) imageProperty) as [b|] eqn:Hb; [|done].
  destruct (binary p) as [l|]; [|done]. simpl in Hb, Hnone.
  apply assoc_In in Hb. rewrite (Hnone _ _ Hb) in Hp. done.
Qed.

Lemma prepareImage_no_image_witness :
  prepareImage idleBackend noImageParams [] = ([], Err NoBinaryData).
Proof.
  apply (prepareImage_no_image idleBackend noImageParams []).
  - reflexivity.
  - reflexivity.
  - intros k b [[= <- <-]|[[= <- <-]|[]]]; reflexivity.
Defined.

(** X7: only the URL mode makes a request while the image is prepared, one
    GET of the given address, and a rejected download is the error of the
    execution; every input type other than [url] and [binary] is read as
    inline base64 data and cannot fail. *)
Theorem prepareImage_requests (be : Backend) (p : Params) (tr : Trace) :
  (inputType p = "url" ->
     prepareImage be p tr =
       (tr ++ [GetUrl (inputImage p)],
        match fetchUrl be (inputImage p) with
        | Some image => Ok image
        | None => Err RequestFailed
        end)) ∧
  (inputType p ≠ "url" -> (prepareImage be p tr).1 = tr) ∧
  (inputType p ≠ "url" -> inputType p ≠ "binary" ->
     prepareImage be p tr = (tr, Ok (fromBase64 be (inputImage p)))).
Proof.
  split; [|split].
  - unfold prepareImage. intros ->. done.
  - intros Hurl. destruct (String.eqb (inputType p) "binary") eqn:Hbin.
    + apply String.eqb_eq in Hbin. rewrite (prepareImage_binary be p tr Hbin).
      destruct (binaryProperty (binary p) (binaryPropertyName p)) as [b|]; [done|].
      destruct (inheritedMember _ _); [done|].
      destruct (List.find _ _) as [imageProperty|]; [|done].
      destruct (truthy imageProperty); [|done].
      by destruct (binaryMember (binary p) imageProperty).
    + unfold prepareImage. apply String.eqb_neq in Hurl. by rewrite Hurl, Hbin.
  - intros Hurl Hbin. unfold prepareImage.
    apply String.eqb_neq in Hurl. apply String.eqb_neq in Hbin.
    by rewrite Hurl, Hbin.
Qed.

Lemma prepareImage_requests_witness :
  prepareImage idleBackend otherTypeParams [] = ([], Ok []) ∧
  (prepareImage idleBackend fallbackParams []).1 = [].
Proof.
  split.
  - destruct (prepareImage_requests idleBackend otherTypeParams []) as (_ & _ & Hother).
    apply Hother; discriminate.
  - destruct (prepareImage_requests idleBackend fallbackParams []) as (_ & Hquiet & _).
    apply Hquiet. discriminate.
Defined.

(** ** The poll phase: how it ends *)

Lemma pollTick_rejected (be : Backend) (p : Params) (promptId : string) (tr : Trace) :
  history be (historyQueries tr) promptId = None ->
  pollTick be p promptId tr = (tr ++ ticks p promptId 1, Err RequestFailed).
Proof.
  intros Hrej. unfold pollTick, bind, sleep, getHistory, request.
  rewrite historyQueries_app. change (historyQueries [Sleep 1000]) with O.
  rewrite Nat.add_0_r, <- app_assoc. simpl. by rewrite Hrej.
Qed.

Lemma pollTick_completed (be : Backend) (p : Params) (promptId : string) (tr : Trace)
    pr st :
  completedAnswer (history be (historyQueries tr) promptId) pr st ->
  pollTick be p promptId tr =
    match retrieve be p st (outputs pr) (tr ++ ticks p promptId 1) with
    | (tr', Ok item) => (tr', Ok (Return item))
    | (tr', Err e) => (tr', Err e)
    end.
Proof.
  intros (Ha & Hst & Hc & Herr). unfold pollTick, bind, sleep, getHistory, request.
  rewrite historyQueries_app. change (historyQueries [Sleep 1000]) with O.
  rewrite Nat.add_0_r, <- app_assoc. simpl.
  apply String.eqb_neq in Herr. rewrite Ha, Hst, Hc, Herr.
  by destruct (retrieve be p st (outputs pr) _) as [tr' [item|e]].
Qed.

(** After [n] passes of "not completed" within the cap, the outcome of the
    poll phase is that of the next pass. *)
Lemma poll_at_tick (be : Backend) (p : Params) (promptId : string) (tr : Trace) (n : nat) :
  (inject_Z (Z.of_nat n) < 60 * timeout p)%Q ->
  (forall k, (k < n)%nat ->
     pendingAnswer (history be (historyQueries tr + k) promptId)) ->
  historyQueries (tr ++ Sleep 5000 :: ticks p promptId n) = (historyQueries tr + n)%nat ∧
  poll be p promptId tr =
    match pollTick be p promptId (tr ++ Sleep 5000 :: ticks p promptId n) with
    | (tr', Ok Continue) =>
        pollLoop (attemptCap p - n) be p promptId (60 * timeout p)
                 (Z.of_nat n + 1) tr'
    | (tr', Ok (Return item)) => Some (tr', Ok item)
    | (tr', Err e) => Some (tr', Err e)
    end.
Proof.
  intros Hcap%below_ceiling Hpend.
  assert (tr ++ Sleep 5000 :: ticks p promptId n
          = (tr ++ [Sleep 5000]) ++ ticks p promptId n) as Hshape
    by by rewrite <- app_assoc.
  assert (historyQueries (tr ++ [Sleep 5000]) = historyQueries tr) as Hwarm.
  { rewrite historyQueries_app. change (historyQueries [Sleep 5000]) with O. lia. }
  split.
  { by rewrite Hshape, historyQueries_app, historyQueries_ticks, Hwarm. }
  unfold poll, sleep, attemptCap, passes.
  set (cap := Z.to_nat (Qceiling (60 * timeout p))).
  replace (S cap) with (n + S (cap - n))%nat by lia.
  rewrite pollLoop_skip; [|lia|].
  2:{ intros k Hk. rewrite Hwarm. by apply Hpend. }
  cbn [pollLoop].
  assert (belowCap (0 + Z.of_nat n) (60 * timeout p) = true) as ->
    by (apply belowCap_true; lia).
  rewrite <- Hshape. replace (0 + Z.of_nat n + 1) with (Z.of_nat n + 1) by lia.
  done.
Qed.

Lemma ticks_succ (p : Params) (promptId : string) (tr : Trace) (n : nat) :
  (tr ++ Sleep 5000 :: ticks p promptId n) ++ ticks p promptId 1
  = tr ++ Sleep 5000 :: ticks p promptId (S n).
Proof.
  replace (S n) with (n + 1)%nat by lia. rewrite ticks_app.
  by rewrite <- app_assoc.
Qed.

(** X8: when the first [n] status queries are answered "not completed" and
    the next one, still within the attempt cap, reports a completed job with
    a status other than ['error'] whose outputs resolve to a video output,
    the poll phase makes no further status query, downloads that output with
    one GET of its address and, unless the response code is 404, returns its
    bytes with the file name, the mapped MIME type and extension, the file
    type [video] and the reported status. *)
Theorem poll_returns_video
    (be : Backend) (p : Params) (promptId : string) (tr : Trace) (n : nat)
    (pr : PromptResult) (st : Status) (videoOutput : MediaOutput) (code : Z)
    (body : Buffer) :
  (inject_Z (Z.of_nat n) < 60 * timeout p)%Q ->
  (forall k, (k < n)%nat ->
     pendingAnswer (history be (historyQueries tr + k) promptId)) ->
  completedAnswer (history be (historyQueries tr + n) promptId) pr st ->
  resolveOutput (apiUrl p) (outputs pr) = Ok videoOutput ->
  view be (url videoOutput) = Some (code, body) ->
  code ≠ 404 ->
  poll be p promptId tr =
    Some (tr ++ Sleep 5000 :: ticks p promptId (S n) ++ [GetView (url videoOutput)],
          Ok (videoItem st videoOutput body)).
Proof.
  intros Hcap Hpend Hdone Hres Hview Hcode.
  destruct (poll_at_tick be p promptId tr n Hcap Hpend) as [Hcount ->].
  rewrite (pollTick_completed be p promptId _ pr st); [|by rewrite Hcount].
  rewrite ticks_succ. unfold retrieve. rewrite Hres. unfold bind, request.
  rewrite Hview. simpl. apply Z.eqb_neq in Hcode. rewrite Hcode.
  unfold ret. by rewrite <- app_assoc.
Qed.

Lemma poll_returns_video_witness :
  poll successBackend sampleParams "job-1" [] =
    Some (Sleep 5000 :: ticks sampleParams "job-1" 2
            ++ [GetView "http://comfy/view?filename=result.webp&subfolder=&type=output"],
          Ok {| out_mimeType := "image/webp";
                out_fileName := "result.webp";
                out_data := [Byte.x52; Byte.x49];
                out_status := mkStatus true "success";
                out_fileType := "video";
                out_fileExtension := "webp" |}).
Proof.
  apply (poll_returns_video successBackend sampleParams "job-1" [] 1
           (mkPromptResult (Some (mkStatus true "success"))
              [("9", mkNodeOutput (Some [mkEntry "result.webp" None "output"]) None)])
           (mkStatus true "success")
           (mkMedia (mkEntry "result.webp" None "output")
              "http://comfy/view?filename=result.webp&subfolder=&type=output")
           200 [Byte.x52; Byte.x49]).
  - reflexivity.
  - intros [|k] Hk; [by left | lia].
  - repeat split. discriminate.
  - reflexivity.
  - reflexivity.
  - lia.
Defined.

(** X9: in the same situation, a download answered with code 404 ends the
    execution with the output-not-found error, and a rejected download with
    the request error; in both cases the download is the last request and it
    is not repeated. *)
Theorem poll_download_fails
    (be : Backend) (p : Params) (promptId : string) (tr : Trace) (n : nat)
    (pr : PromptResult) (st : Status) (videoOutput : MediaOutput) :
  (inject_Z (Z.of_nat n) < 60 * timeout p)%Q ->
  (forall k, (k < n)%nat ->
     pendingAnswer (history be (historyQueries tr + k) promptId)) ->
  completedAnswer (history be (historyQueries tr + n) promptId) pr st ->
  resolveOutput (apiUrl p) (outputs pr) = Ok videoOutput ->
  (forall body, view be (url videoOutput) = Some (404, body) ->
     poll be p promptId tr =
       Some (tr ++ Sleep 5000 :: ticks p promptId (S n) ++ [GetView (url videoOutput)],
             Err OutputNotFound)) ∧
  (view be (url videoOutput) = None ->
     poll be p promptId tr =
       Some (tr ++ Sleep 5000 :: ticks p promptId (S n) ++ [GetView (url videoOutput)],
             Err RequestFailed)).
Proof.
  intros Hcap Hpend Hdone Hres.
  destruct (poll_at_tick be p promptId tr n Hcap Hpend) as [Hcount ->].
  rewrite (pollTick_completed be p promptId _ pr st); [|by rewrite Hcount].
  rewrite ticks_succ. unfold retrieve. rewrite Hres. unfold bind, request.
  split.
  - intros body ->. simpl. by rewrite <- app_assoc.
  - intros ->. by rewrite <- app_assoc.
Qed.

Lemma poll_download_fails_witness :
  poll goneBackend sampleParams "job-1" [] =
    Some (Sleep 5000 :: ticks sampleParams "job-1" 2
            ++ [GetView "http://comfy/view?filename=result.webp&subfolder=&type=output"],
          Err OutputNotFound).
Proof.
  destruct (poll_download_fails goneBackend sampleParams "job-1" [] 1
              (mkPromptResult (Some (mkStatus true "success"))
                 [("9", mkNodeOutput (Some [mkEntry "result.webp" None "output"]) None)])
              (mkStatus true "success")
              (mkMedia (mkEntry "result.webp" None "output")
                 "http://comfy/view?filename=result.webp&subfolder=&type=output"))
    as [Hgone _].
  - reflexivity.
  - intros [|k] Hk; [by left | lia].
  - repeat split. discriminate.
  - reflexivity.
  - apply (Hgone []). reflexivity.
Defined.

(** X10: when the completed job has no usable output, the poll phase ends
    with the error of the resolution (no media outputs, or no video outputs)
    right after that status query: nothing is downloaded and the job is not
    polled again. *)
Theorem poll_unresolved_output
    (be : Backend) (p : Params) (promptId : string) (tr : Trace) (n : nat)
    (pr : PromptResult) (st : Status) (e : Error) :
  (inject_Z (Z.of_nat n) < 60 * timeout p)%Q ->
  (forall k, (k < n)%nat ->
     pendingAnswer (history be (historyQueries tr + k) promptId)) ->
  completedAnswer (history be (historyQueries tr + n) promptId) pr st ->
  resolveOutput (apiUrl p) (outputs pr) = Err e ->
  poll be p promptId tr = Some (tr ++ Sleep 5000 :: ticks p promptId (S n), Err e) ∧
  (e = NoMediaOutputs ∨ e = NoVideoOutputs).
Proof.
  intros Hcap Hpend Hdone Hres. split; [|by apply resolveOutput_errors in Hres].
  destruct (poll_at_tick be p promptId tr n Hcap Hpend) as [Hcount ->].
  rewrite (pollTick_completed be p promptId _ pr st); [|by rewrite Hcount].
  rewrite ticks_succ. unfold retrieve. by rewrite Hres.
Qed.

Lemma poll_unresolved_output_witness :
  poll stillImageBackend sampleParams "job-1" [] =
    Some (Sleep 5000 :: ticks sampleParams "job-1" 1, Err NoVideoOutputs) ∧
  (NoVideoOutputs = NoMediaOutputs ∨ NoVideoOutputs = NoVideoOutputs).
Proof.
  apply (poll_unresolved_output stillImageBackend sampleParams "job-1" [] 0
           (mkPromptResult (Some (mkStatus true "success"))
              [("9", mkNodeOutput (Some [mkEntry "frame.png" None "output"]) None)])
           (mkStatus true "success")).
  - reflexivity.
  - intros k Hk. lia.
  - repeat split. discriminate.
  - reflexivity.
Defined.

(** X11: a rejected status query is not retried: after [n] passes of "not
    completed", a rejected query within the cap ends the execution with the
    request error, that query being the last event. *)
Theorem poll_status_query_rejected
    (be : Backend) (p : Params) (promptId : string) (tr : Trace) (n : nat) :
  (inject_Z (Z.of_nat n) < 60 * timeout p)%Q ->
  (forall k, (k < n)%nat ->
     pendingAnswer (history be (historyQueries tr + k) promptId)) ->
  history be (historyQueries tr + n) promptId = None ->
  poll be p promptId tr =
    Some (tr ++ Sleep 5000 :: ticks p promptId (S n), Err RequestFailed).
Proof.
  intros Hcap Hpend Hrej.
  destruct (poll_at_tick be p promptId tr n Hcap Hpend) as [Hcount ->].
  rewrite pollTick_rejected; [|by rewrite Hcount].
  by rewrite ticks_succ.
Qed.

Lemma poll_status_query_rejected_witness :
  poll flakyBackend sampleParams "job-1" [] =
    Some (Sleep 5000 :: ticks sampleParams "job-1" 2, Err RequestFailed).
Proof.
  apply (poll_status_query_rejected flakyBackend sampleParams "job-1" [] 1).
  - reflexivity.
  - intros [|k] Hk; [by left | lia].
  - reflexivity.
Defined.



(** ** The poll phase: what every run looks like *)

Lemma answer_cases (a : option (option PromptResult)) :
  a = None ∨ pendingAnswer a ∨ errorAnswer a ∨ exists pr st, completedAnswer a pr st.
Proof.
  destruct a as [[pr|]|]; [|right; left; by left | by left].
  destruct (status pr) as [st|] eqn:Hst.
  - destruct (completed st) eqn:Hc.
    + destruct (decide (status_str st = "error")) as [Herr|Herr].
      * right. right. left. by exists pr, st.
      * right. right. right. by exists pr, st.
    + right. left. right. exists pr. split; [done|]. right. by exists st.
  - right. left. right. exists pr. split; [done|]. by left.
Qed.

Lemma retrieve_inv (be : Backend) (p : Params) st outs (tr tr' : Trace) r :
  retrieve be p st outs tr = (tr', r) ->
  (exists e, resolveOutput (apiUrl p) outs = Err e ∧ tr' = tr ∧ r = Err e) ∨
  (exists videoOutput,
     resolveOutput (apiUrl p) outs = Ok videoOutput ∧
     tr' = tr ++ [GetView (url videoOutput)] ∧
     (r = Err RequestFailed ∨ r = Err OutputNotFound ∨
      exists code body,
        view be (url videoOutput) = Some (code, body) ∧ code ≠ 404 ∧
        r = Ok (videoItem st videoOutput body))).
Proof.
  unfold retrieve. destruct (resolveOutput (apiUrl p) outs) as [videoOutput|e].
  - unfold bind, request. destruct (view be (url videoOutput)) as [[code body]|] eqn:Hview.
    + simpl. destruct (code =? 404) eqn:Hcode; intros [= <- <-]; right;
        exists videoOutput; (split; [done|]); (split; [done|]); [by auto|].
      right. right. exists code, body. apply Z.eqb_neq in Hcode. done.
    + intros [= <- <-]. right. exists videoOutput. by auto.
  - intros [= <- <-]. left. by exists e.
Qed.

(** One pass through the loop body: one wait and one status query, then at
    most one download, which ends the loop. *)
Lemma pollTick_inv (be : Backend) (p : Params) (promptId : string) (tr tr' : Trace) r :
  pollTick be p promptId tr = (tr', r) ->
  (tr' = tr ++ ticks p promptId 1 ∧
   (r = Ok Continue ∨ r = Err RequestFailed ∨ r = Err GenerationFailed ∨
    r = Err NoMediaOutputs ∨ r = Err NoVideoOutputs)) ∨
  (exists u, tr' = tr ++ ticks p promptId 1 ++ [GetView u] ∧
     (r = Err RequestFailed ∨ r = Err OutputNotFound ∨
      exists item, r = Ok (Return item) ∧ retrievedItem be p item)).
Proof.
  destruct (answer_cases (history be (historyQueries tr) promptId))
    as [Ha|[Ha|[Ha|(pr & st & Ha)]]].
  - rewrite (pollTick_rejected _ _ _ _ Ha). intros [= <- <-]. left. by auto.
  - rewrite (pollTick_pending _ _ _ _ Ha). intros [= <- <-]. left. by auto.
  - rewrite (pollTick_error _ _ _ _ Ha). intros [= <- <-]. left. by auto 6.
  - rewrite (pollTick_completed _ _ _ _ _ _ Ha).
    destruct (retrieve be p st (outputs pr) (tr ++ ticks p promptId 1)) as [tr1 r1] eqn:Hret.
    apply retrieve_inv in Hret
      as [(e & Hres & -> & ->)|(v & Hres & -> & [->|[->|(code & body & Hview & Hcode & ->)]])].
    + intros [= <- <-]. left. split; [done|].
      apply resolveOutput_errors in Hres as [-> | ->]; by auto 6.
    + intros [= <- <-]. right. exists (url v). rewrite <- app_assoc. by auto.
    + intros [= <- <-]. right. exists (url v). rewrite <- app_assoc. by auto.
    + intros [= <- <-]. right. exists (url v). rewrite <- app_assoc. split; [done|].
      right. right. eexists. split; [done|].
      destruct Ha as (_ & _ & Hc & Herr). by exists (outputs pr), st, v, code, body.
Qed.

Lemma pollLoop_shape (be : Backend) (p : Params) (promptId : string) (maxAttempts : Q)
    (fuel : nat) (attempts : Z) (tr tr' : Trace) r :
  pollLoop fuel be p promptId maxAttempts attempts tr = Some (tr', r) ->
  exists n v,
    tr' = tr ++ ticks p promptId n ++ v ∧
    (n <= Z.to_nat (Qceiling maxAttempts - attempts))%nat ∧
    (v = [] ∨ exists u, v = [GetView u]) ∧
    (forall item, r = Ok item -> retrievedItem be p item ∧ exists u, v = [GetView u]) ∧
    (r = Err GenerationTimeout -> v = [] ∧ n = Z.to_nat (Qceiling maxAttempts - attempts)) ∧
    (forall e, r = Err e -> pollError e).
Proof.
  revert attempts tr. induction fuel as [|fuel IH]; intros attempts tr; simpl; [done|].
  destruct (belowCap attempts maxAttempts) eqn:Hlt.
  - apply belowCap_true in Hlt.
    destruct (pollTick be p promptId tr) as [tr1 r1] eqn:Htick.
    apply pollTick_inv in Htick as [[-> Hr1]|(u & -> & Hr1)].
    + destruct Hr1 as [->|[->|[->|[->| ->]]]].
      * intros (n & v & -> & Hn & Hv & Hok & Hto & Herr)%IH.
        exists (S n), v.
        split. { change (S n) with (1 + n)%nat. rewrite ticks_app. by rewrite <- !app_assoc. }
        split; [lia|]. split; [done|]. split; [done|].
        split; [|done]. intros Hr. destruct (Hto Hr) as [-> ->]. split; [done|]. lia.
      * intros [= <- <-]. exists 1%nat, []. rewrite app_nil_r.
        split; [done|]. split; [lia|]. split; [by left|]. split; [done|].
        split; [done|]. intros e [= <-]. unfold pollError. by auto.
      * intros [= <- <-]. exists 1%nat, []. rewrite app_nil_r.
        split; [done|]. split; [lia|]. split; [by left|]. split; [done|].
        split; [done|]. intros e [= <-]. unfold pollError. by auto.
      * intros [= <- <-]. exists 1%nat, []. rewrite app_nil_r.
        split; [done|]. split; [lia|]. split; [by left|]. split; [done|].
        split; [done|]. intros e [= <-]. unfold pollError. by auto.
      * intros [= <- <-]. exists 1%nat, []. rewrite app_nil_r.
        split; [done|]. split; [lia|]. split; [by left|]. split; [done|].
        split; [done|]. intros e [= <-]. unfold pollError. by auto 6.
    + destruct Hr1 as [->|[->|(item & -> & Hitem)]]; intros [= <- <-];
        exists 1%nat, [GetView u];
        (split; [done|]); (split; [lia|]); (split; [right; by exists u|]).
      * split; [done|]. split; [done|]. intros e [= <-]. unfold pollError. by auto.
      * split; [done|]. split; [done|]. intros e [= <-]. unfold pollError. by auto 6.
      * split; [|done]. intros item' [= <-]. split; [done | by exists u].
  - apply belowCap_false in Hlt. intros [= <- <-]. exists O, []. simpl. rewrite app_nil_r.
    split; [done|]. split; [lia|]. split; [by left|]. split; [done|].
    split; [intros _; split; [done | lia]|]. intros e [= <-]. unfold pollError. by auto 7.
Qed.


(** ** The steps before polling, exit by exit *)

Lemma submitJob_Submitted (be : Backend) (p : Params) (tr : Trace) r :
  submitJob be p [] = (tr, r) -> Submitted be p tr r.
Proof.
  unfold submitJob. unfold bind at 1. unfold request at 1.
  change ([] ++ [GetSystemStats (apiUrl p +:+ "/system_stats")]) with [healthCheck p].
  destruct (systemStats be) as [[]|] eqn:Hhealth;
    [|intros [= <- <-]; by apply SubmitUnreachable].
  unfold bind at 1.
  destruct (prepareImage be p [healthCheck p]) as [tr1 [imageBuffer|e1]] eqn:H1;
    [|intros [= <- <-]; by apply SubmitNoImage].
  unfold bind at 1. unfold uploadBuffer at 1. unfold request at 1.
  fold (uploadRequest p imageBuffer "input.png").
  destruct (uploadImage be (uploadForm imageBuffer "input.png")) as [imageInfo|] eqn:H2;
    [|intros [= <- <-]; by apply SubmitImageUploadFailed].
  unfold bind at 1.
  destruct (uploadAudio be p (tr1 ++ [uploadRequest p imageBuffer "input.png"]))
    as [tr3 [audioInfo|e3]] eqn:H3;
    [|intros [= <- <-]; by apply (SubmitAudioFailed be p tr1 imageBuffer imageInfo)].
  assert (inputsUploaded be p tr3 imageInfo audioInfo) as Hup
    by by exists tr1, imageBuffer.
  unfold bind at 1. unfold parseWorkflow.
  destruct (workflow p) as [| |wf] eqn:Hwf;
    try (intros [= <- <-]; apply (SubmitMalformed be p tr3 imageInfo audioInfo);
         [done | intros wf' Hc; congruence]).
  unfold ret at 1.
  destruct (patchWorkflow imageInfo audioInfo wf) as [patched [[]|e5]] eqn:H5;
    [|intros [= <- <-]; by apply (SubmitUnpatchable be p tr3 imageInfo audioInfo wf patched)].
  unfold bind, queue, bind, request. fold (promptRequest p patched).
  destruct (queuePrompt be patched) as [[promptId|]|] eqn:H6.
  - destruct (truthy promptId) eqn:Hpid.
    + intros [= <- <-]. apply truthy_true in Hpid.
      by apply (SubmitQueued be p tr3 imageInfo audioInfo wf).
    + intros [= <- <-]. apply truthy_false in Hpid. subst.
      apply (SubmitRejected be p tr3 imageInfo audioInfo wf patched (Some "")); auto.
  - intros [= <- <-].
    apply (SubmitRejected be p tr3 imageInfo audioInfo wf patched None); auto.
  - intros [= <- <-]. by apply (SubmitQueueFailed be p tr3 imageInfo audioInfo wf).
Qed.

Lemma prepareImage_outcome (be : Backend) (p : Params) (tr tr' : Trace) r :
  prepareImage be p tr = (tr', r) ->
  (inputType p = "url" ∧ tr' = tr ++ [GetUrl (inputImage p)] ∧
   (r = Err RequestFailed ∨ exists image, r = Ok image)) ∨
  (inputType p ≠ "url" ∧ tr' = tr ∧
   (r = Err NoBinaryData ∨ r = Err InvalidInputImage ∨ r = Err HelperFailed ∨
    exists image, r = Ok image)).
Proof.
  destruct (String.eqb (inputType p) "url") eqn:Hurl.
  - unfold prepareImage. rewrite Hurl. apply String.eqb_eq in Hurl. unfold request.
    intros [= <- <-]. left. split; [done|]. split; [done|].
    destruct (fetchUrl be (inputImage p)); eauto.
  - intros H. right. split; [by apply String.eqb_neq|]. revert H.
    destruct (String.eqb (inputType p) "binary") eqn:Hbin.
    + apply String.eqb_eq in Hbin. rewrite (prepareImage_binary be p tr Hbin).
      assert (forall b : IBinaryData,
                (tr, if mimeStartsWith (mimeType b) "image/" then Ok (data b)
                     else Err InvalidInputImage) = (tr', r) ->
                tr' = tr ∧
                (r = Err NoBinaryData ∨ r = Err InvalidInputImage ∨ r = Err HelperFailed ∨
                 exists image, r = Ok image)) as Hown.
      { intros b. destruct (mimeStartsWith _ _); intros [= <- <-]; eauto 6. }
      assert ((tr, match foreignBuffer be with
                   | Some _ => Err InvalidInputImage
                   | None => Err HelperFailed
                   end) = (tr', r) ->
              tr' = tr ∧
              (r = Err NoBinaryData ∨ r = Err InvalidInputImage ∨ r = Err HelperFailed ∨
               exists image : Buffer, r = Ok image)) as Hforeign.
      { destruct (foreignBuffer be); intros [= <- <-]; eauto 6. }
      destruct (binaryProperty (binary p) (binaryPropertyName p)) as [b|]; [apply Hown|].
      destruct (inheritedMember _ _); [apply Hforeign|].
      destruct (List.find _ _) as [imageProperty|]; [|intros [= <- <-]; eauto].
      destruct (truthy imageProperty); [|intros [= <- <-]; eauto].
      destruct (binaryMember (binary p) imageProperty) as [b| |];
        [apply Hown | apply Hforeign..].
    + unfold prepareImage. rewrite Hurl, Hbin. intros [= <- <-]. eauto 6.
Qed.

Lemma uploadAudio_trace (be : Backend) (p : Params) (tr tr' : Trace) r :
  uploadAudio be p tr = (tr', r) ->
  (tr' = tr ∧ (r = Ok None ∨ r = Err InvalidInputAudio)) ∨
  (exists audioBinary,
     binaryProperty (binary p) (audioBinaryPropertyName p) = Some audioBinary ∧
     tr' = tr ++ [uploadRequest p (data audioBinary) "input.mp3"] ∧
     (r = Err RequestFailed ∨ exists info, r = Ok (Some info))).
Proof.
  rewrite uploadAudio_unfold.
  destruct (truthy (audioBinaryPropertyName p)); [|intros [= <- <-]; auto].
  destruct (binaryProperty (binary p) (audioBinaryPropertyName p)) as [audioBinary|];
    [|destruct (inheritedMember _ _); intros [= <- <-]; auto].
  destruct (negb _); [intros [= <- <-]; auto|].
  unfold bind, uploadBuffer, request. fold (uploadRequest p (data audioBinary) "input.mp3").
  intros H. right. exists audioBinary. split; [done|].
  destruct (uploadImage be _); injection H as <- <-; eauto.
Qed.

(** The trace once the inputs are uploaded: the health check, the download
    in URL mode, the image upload and, with audio, the audio upload. *)
Lemma inputsUploaded_trace (be : Backend) (p : Params) (tr : Trace) imageInfo audioInfo :
  inputsUploaded be p tr imageInfo audioInfo ->
  exists dl imageBuffer,
    (dl = [] ∨ (inputType p = "url" ∧ dl = [GetUrl (inputImage p)])) ∧
    ((audioInfo = None ∧
      tr = healthCheck p :: dl ++ [uploadRequest p imageBuffer "input.png"]) ∨
     (exists audioBinary,
        is_Some audioInfo ∧
        binaryProperty (binary p) (audioBinaryPropertyName p) = Some audioBinary ∧
        tr = healthCheck p :: dl ++ [uploadRequest p imageBuffer "input.png";
                                     uploadRequest p (data audioBinary) "input.mp3"])).
Proof.
  intros (tr1 & imageBuffer & _ & H1 & _ & H3).
  assert (exists dl, (dl = [] ∨ (inputType p = "url" ∧ dl = [GetUrl (inputImage p)])) ∧
                     tr1 = healthCheck p :: dl) as (dl & Hdl & ->).
  { apply prepareImage_outcome in H1 as [(Hurl & -> & _)|(_ & -> & _)].
    - exists [GetUrl (inputImage p)]. split; [by right | done].
    - exists []. split; [by left | done]. }
  exists dl, imageBuffer. split; [done|].
  apply uploadAudio_trace in H3 as [[-> Hr]|(audioBinary & Hprop & -> & Hr)].
  - left. destruct Hr as [Hr|Hr]; [|discriminate Hr]. injection Hr as ->. done.
  - right. exists audioBinary. destruct Hr as [Hr|[info Hr]]; [discriminate Hr|].
    injection Hr as ->. split; [by eexists|]. split; [done|].
    simpl. by rewrite <- app_assoc.
Qed.

Lemma execute_cases (be : Backend) (p : Params) (tr : Trace) r :
  execute be p = Some (tr, r) ->
  (exists e, r = Err e ∧ Submitted be p tr (Err e)) ∨
  (exists tr0 promptId patched,
     Submitted be p tr0 (Ok (promptId, patched)) ∧ poll be p promptId tr0 = Some (tr, r)).
Proof.
  unfold execute. destruct (submitJob be p []) as [tr0 [[promptId patched]|e]] eqn:Hsub;
    apply submitJob_Submitted in Hsub.
  - intros Hpoll. right. by exists tr0, promptId, patched.
  - intros [= <- <-]. left. by exists e.
Qed.

Lemma poll_result (be : Backend) (p : Params) (promptId : string) (tr tr' : Trace) r :
  poll be p promptId tr = Some (tr', r) ->
  exists n v,
    tr' = tr ++ Sleep 5000 :: ticks p promptId n ++ v ∧
    (n <= Z.to_nat (Qceiling (60 * timeout p)))%nat ∧
    (v = [] ∨ exists u, v = [GetView u]) ∧
    (forall item, r = Ok item -> retrievedItem be p item ∧ exists u, v = [GetView u]) ∧
    (forall e, r = Err e -> pollError e).
Proof.
  unfold poll, sleep. intros (n & v & -> & Hn & Hv & Hok & _ & Herr)%pollLoop_shape.
  exists n, v. split; [by rewrite <- app_assoc|]. split; [lia|]. done.
Qed.

Lemma prompts_app (tr tr' : Trace) : prompts (tr ++ tr') = prompts tr ++ prompts tr'.
Proof. apply List.filter_app. Qed.

Lemma prompts_ticks (p : Params) (promptId : string) (n : nat) :
  prompts (ticks p promptId n) = [].
Proof. induction n as [|n IH]; [done|]. simpl. exact IH. Qed.

(** Equations between traces that differ in the bracketing of appends. *)
Ltac trace_eq :=
  repeat (rewrite <- app_comm_cons || rewrite <- app_assoc || rewrite app_nil_r);
  reflexivity.

(** The trace of the steps before polling: health check, download, uploads,
    prompt. *)
Lemma Submitted_trace (be : Backend) (p : Params) (tr : Trace) r :
  Submitted be p tr r ->
  exists dl ups q,
    tr = healthCheck p :: dl ++ ups ++ q ∧
    (dl = [] ∨ (inputType p = "url" ∧ dl = [GetUrl (inputImage p)])) ∧
    canonicalUploads p ups ∧
    (q = [] ∨
     exists tr3 imageInfo audioInfo wf patched,
       inputsUploaded be p tr3 imageInfo audioInfo ∧
       workflow p = Graph wf ∧
       patchWorkflow imageInfo audioInfo wf = (patched, Ok tt) ∧
       tr = tr3 ++ q ∧ q = [promptRequest p patched]) ∧
    (ups = [] -> q = []) ∧
    (forall x, r = Ok x -> q = [promptRequest p x.2]).
Proof.
  assert (forall tr3 imageInfo audioInfo q,
            inputsUploaded be p tr3 imageInfo audioInfo ->
            exists dl ups,
              tr3 ++ q = healthCheck p :: dl ++ ups ++ q ∧
              (dl = [] ∨ (inputType p = "url" ∧ dl = [GetUrl (inputImage p)])) ∧
              canonicalUploads p ups ∧ ups ≠ []) as Hup.
  { intros tr3 imageInfo audioInfo q
      (dl & imageBuffer & Hdl & [[_ ->]|(audioBinary & _ & Hprop & ->)])%inputsUploaded_trace.
    - exists dl, [uploadRequest p imageBuffer "input.png"].
      split; [trace_eq|]. split; [done|]. split; [|done].
      right. exists imageBuffer. by left.
    - exists dl, [uploadRequest p imageBuffer "input.png";
                  uploadRequest p (data audioBinary) "input.mp3"].
      split; [trace_eq|]. split; [done|].
      split; [|done]. right. exists imageBuffer. right. by exists audioBinary. }
  assert (forall tr1 r1, prepareImage be p [healthCheck p] = (tr1, r1) ->
            exists dl, (dl = [] ∨ (inputType p = "url" ∧ dl = [GetUrl (inputImage p)])) ∧
                       tr1 = healthCheck p :: dl) as Hprep.
  { intros tr1 r1 [(Hurl & -> & _)|(_ & -> & _)]%prepareImage_outcome.
    - exists [GetUrl (inputImage p)]. split; [by right | done].
    - exists []. split; [by left | done]. }
  assert (canonicalUploads p []) as Hnone by by left.
  assert (forall buf, canonicalUploads p [uploadRequest p buf "input.png"]) as Hone
    by (intros buf; right; exists buf; by left).
  intros Hsub. destruct Hsub as
    [Hh|tr1 e Hh H1|tr1 buf Hh H1 H2|tr1 buf info tr3 e Hh H1 H2 H3
     |tr3 info ainfo Hin Hwf|tr3 info ainfo wf wf' e Hin Hwf H5
     |tr3 info ainfo wf g Hin Hwf H5 H6|tr3 info ainfo wf g answer Hin Hwf H5 H6 Ha
     |tr3 info ainfo wf g promptId Hin Hwf H5 H6 Hpid].
  - exists [], [], []. split; [done|]. split; [by left|]. split; [done|].
    split; [by left|]. split; [done|]. intros x Hx. discriminate Hx.
  - destruct (Hprep _ _ H1) as (dl & Hdl & ->). exists dl, [], [].
    split; [trace_eq|]. split; [done|]. split; [done|].
    split; [by left|]. split; [done|]. intros x Hx. discriminate Hx.
  - destruct (Hprep _ _ H1) as (dl & Hdl & ->).
    exists dl, [uploadRequest p buf "input.png"], [].
    split; [trace_eq|]. split; [done|]. split; [done|].
    split; [by left|]. split; [done|]. intros x Hx. discriminate Hx.
  - destruct (Hprep _ _ H1) as (dl & Hdl & ->).
    apply uploadAudio_trace in H3 as [[-> _]|(audioBinary & Hprop & -> & _)].
    + exists dl, [uploadRequest p buf "input.png"], [].
      split; [trace_eq|]. split; [done|]. split; [done|].
      split; [by left|]. split; [done|]. intros x Hx. discriminate Hx.
    + exists dl, [uploadRequest p buf "input.png";
                  uploadRequest p (data audioBinary) "input.mp3"], [].
      split; [trace_eq|]. split; [done|].
      split; [right; exists buf; right; by exists audioBinary|].
      split; [by left|]. split; [done|]. intros x Hx. discriminate Hx.
  - destruct (Hup tr3 info ainfo [] Hin) as (dl & ups & Htr & Hdl & Hups & _).
    rewrite app_nil_r in Htr. exists dl, ups, [].
    split; [done|]. split; [done|]. split; [done|].
    split; [by left|]. split; [done|]. intros x Hx. discriminate Hx.
  - destruct (Hup tr3 info ainfo [] Hin) as (dl & ups & Htr & Hdl & Hups & _).
    rewrite app_nil_r in Htr. exists dl, ups, [].
    split; [done|]. split; [done|]. split; [done|].
    split; [by left|]. split; [done|]. intros x Hx. discriminate Hx.
  - destruct (Hup tr3 info ainfo [promptRequest p g] Hin) as (dl & ups & Htr & Hdl & Hups & Hne).
    exists dl, ups, [promptRequest p g]. split; [done|]. split; [done|]. split; [done|].
    split; [right; by exists tr3, info, ainfo, wf, g|]. split; [done|]. intros x Hx. discriminate Hx.
  - destruct (Hup tr3 info ainfo [promptRequest p g] Hin) as (dl & ups & Htr & Hdl & Hups & Hne).
    exists dl, ups, [promptRequest p g]. split; [done|]. split; [done|]. split; [done|].
    split; [right; by exists tr3, info, ainfo, wf, g|]. split; [done|]. intros x Hx. discriminate Hx.
  - destruct (Hup tr3 info ainfo [promptRequest p g] Hin) as (dl & ups & Htr & Hdl & Hups & Hne).
    exists dl, ups, [promptRequest p g]. split; [done|]. split; [done|]. split; [done|].
    split; [right; by exists tr3, info, ainfo, wf, g|]. split; [done|]. by intros x [= <-].
Qed.


(** ** What a returned item looks like *)

Lemma resolveOutput_video (api : string) outs videoOutput :
  resolveOutput api outs = Ok videoOutput -> videoName (filename (img videoOutput)).
Proof.
  intros [_ [rest Hrest]]%resolveOutput_Ok.
  assert (In (img videoOutput) (img videoOutput :: rest)) as Hin by by left.
  rewrite <- Hrest in Hin. apply filter_In in Hin as [_ Hv]. by apply isVideoName_spec.
Qed.

Lemma mimeAndExtension_video (f : string) :
  videoName f ->
  exists stem,
    (f = stem +:+ ".webp" ∧ mimeAndExtension f = ("image/webp", "webp")) ∨
    (f = stem +:+ ".mp4" ∧ mimeAndExtension f = ("video/mp4", "mp4")) ∨
    (f = stem +:+ ".gif" ∧ mimeAndExtension f = ("image/gif", "gif")).
Proof.
  intros [stem [Hf|[Hf|Hf]]]; exists stem; unfold mimeAndExtension.
  - left. split; [done|].
    assert (endsWith f ("." +:+ "webp") = true) as Hw by (apply endsWith_spec; by exists stem).
    rewrite (endsWith_disjoint f "." "webp" ".mp4" eq_refl); [|discriminate|exact Hw].
    by rewrite (endsWith_disjoint f "." "webp" ".gif" eq_refl); [|discriminate|exact Hw].
  - right. left. split; [done|].
    assert (endsWith f ".mp4" = true) as -> by (apply endsWith_spec; by exists stem). done.
  - right. right. split; [done|].
    assert (endsWith f ("" +:+ ".gif") = true) as Hg by (apply endsWith_spec; by exists stem).
    rewrite (endsWith_disjoint f "" ".gif" ".mp4" eq_refl); [|discriminate|exact Hg].
    change ("" +:+ ".gif") with ".gif" in Hg. by rewrite Hg.
Qed.

(** X15: an execution that returns an item returns a video: the status it
    reports is completed and not ['error'], the file type is [video], the
    file name ends in a dot followed by the reported extension, the extension
    and MIME type are one of webp with image/webp, mp4 with video/mp4 and gif
    with image/gif, and the download of the file is the last request. *)
Theorem execute_returns_video (be : Backend) (p : Params) (tr : Trace) (item : VideoItem) :
  execute be p = Some (tr, Ok item) ->
  out_fileType item = "video" ∧
  completed (out_status item) = true ∧
  status_str (out_status item) ≠ "error" ∧
  (exists stem, out_fileName item = stem +:+ "." +:+ out_fileExtension item) ∧
  ((out_fileExtension item = "webp" ∧ out_mimeType item = "image/webp") ∨
   (out_fileExtension item = "mp4" ∧ out_mimeType item = "video/mp4") ∨
   (out_fileExtension item = "gif" ∧ out_mimeType item = "image/gif")) ∧
  (exists u, last tr = Some (GetView u)).
Proof.
  intros [(e & [=] & _)|(tr0 & promptId & patched & _ & Hpoll)]%execute_cases.
  apply poll_result in Hpoll as (n & v & -> & _ & _ & Hok & _).
  destruct (Hok item eq_refl) as
    [(outs & st & videoOutput & code & body & Hc & Herr & Hres & _ & _ & ->) [u ->]].
  split; [done|]. split; [done|]. split; [done|].
  apply resolveOutput_video in Hres.
  destruct (mimeAndExtension_video _ Hres) as [stem Hcases].
  unfold videoItem. simpl.
  split; [|split].
  - exists stem. destruct Hcases as [[Hf ->]|[[Hf ->]|[Hf ->]]]; exact Hf.
  - destruct Hcases as [[_ ->]|[[_ ->]|[_ ->]]]; simpl; auto.
  - exists u.
    replace (tr0 ++ Sleep 5000 :: ticks p promptId n ++ [GetView u])
      with ((tr0 ++ Sleep 5000 :: ticks p promptId n) ++ [GetView u]) by trace_eq.
    apply last_snoc.
Qed.

Lemma execute_returns_video_witness :
  exists tr item,
    execute successBackend sampleParams = Some (tr, Ok item) ∧
    out_fileType item = "video" ∧
    (exists stem, out_fileName item = stem +:+ "." +:+ out_fileExtension item) ∧
    (exists u, last tr = Some (GetView u)).
Proof.
  destruct (execute successBackend sampleParams) as [[tr [item|e]]|] eqn:Hex;
    [|vm_compute in Hex; discriminate Hex..].
  exists tr, item. split; [reflexivity|].
  destruct (execute_returns_video successBackend sampleParams tr item Hex)
    as (Htype & _ & _ & Hname & _ & Hlast).
  split; [exact Htype|]. split; [exact Hname | exact Hlast].
Defined.

(** ** Where an execution stops on each error *)

(** The errors of the steps before polling and the trace at each. *)
Lemma Submitted_error (be : Backend) (p : Params) (tr : Trace) (e : Error) :
  Submitted be p tr (Err e) ->
  e = RequestFailed ∨
  ((e = NoBinaryData ∨ e = InvalidInputImage ∨ e = HelperFailed) ∧ tr = [healthCheck p]) ∨
  (e = InvalidInputAudio ∧
   exists dl imageBuffer,
     (dl = [] ∨ (inputType p = "url" ∧ dl = [GetUrl (inputImage p)])) ∧
     tr = healthCheck p :: dl ++ [uploadRequest p imageBuffer "input.png"]) ∨
  ((e = MalformedGraph ∨ e = MissingImageNode ∨ e = MissingAudioNode) ∧
   exists imageInfo audioInfo,
     inputsUploaded be p tr imageInfo audioInfo ∧
     (e = MissingAudioNode -> is_Some audioInfo)) ∨
  (e = SubmissionRejected ∧
   exists tr3 imageInfo audioInfo wf patched,
     inputsUploaded be p tr3 imageInfo audioInfo ∧
     workflow p = Graph wf ∧
     patchWorkflow imageInfo audioInfo wf = (patched, Ok tt) ∧
     tr = tr3 ++ [promptRequest p patched]).
Proof.
  intros Hsub. inversion Hsub as
    [Hh|tr1 e1 Hh H1|tr1 buf Hh H1 H2|tr1 buf info tr3 e3 Hh H1 H2 H3
     |tr3 info ainfo Hin Hwf|tr3 info ainfo wf wf' e5 Hin Hwf H5
     |tr3 info ainfo wf g Hin Hwf H5 H6|tr3 info ainfo wf g answer Hin Hwf H5 H6 Ha|];
    subst.
  - by left.
  - apply prepareImage_outcome in H1
      as [(_ & _ & [Hr|[b Hr]])|(_ & -> & [Hr|[Hr|[Hr|[b Hr]]]])];
      try discriminate Hr; injection Hr as ->; auto 6.
  - by left.
  - assert (exists dl, (dl = [] ∨ (inputType p = "url" ∧ dl = [GetUrl (inputImage p)])) ∧
                       tr1 = healthCheck p :: dl) as (dl & Hdl & ->).
    { apply prepareImage_outcome in H1 as [(Hurl & -> & _)|(_ & -> & _)].
      - exists [GetUrl (inputImage p)]. split; [by right | done].
      - exists []. split; [by left | done]. }
    apply uploadAudio_trace in H3 as [[-> [Hr|Hr]]|(b & _ & _ & [Hr|[i Hr]])];
      try discriminate Hr; injection Hr as ->; [|by left].
    right. right. left. split; [done|]. exists dl, buf. split; [done|]. trace_eq.
  - right. right. right. left. split; [by auto|]. exists info, ainfo. by split.
  - right. right. right. left.
    apply patchWorkflow_errors in H5 as [->|[-> Hsome]].
    + split; [by auto|]. exists info, ainfo. by split.
    + split; [by auto|]. exists info, ainfo. by split.
  - by left.
  - right. right. right. right. split; [done|]. by exists tr3, info, ainfo, wf, g.
Qed.

Lemma execute_error_cases (be : Backend) (p : Params) (tr : Trace) (e : Error) :
  execute be p = Some (tr, Err e) -> pollError e ∨ Submitted be p tr (Err e).
Proof.
  intros [(e' & [= <-] & Hsub)|(tr0 & promptId & patched & _ & Hpoll)]%execute_cases.
  - by right.
  - left. apply poll_result in Hpoll as (n & v & _ & _ & _ & _ & Herr). by apply Herr.
Qed.

(** X16: when the attached image data is missing or is not an image, the
    execution stops right after the health check: nothing is downloaded,
    uploaded or queued. *)
Theorem execute_invalid_image_stops_early
    (be : Backend) (p : Params) (tr : Trace) (e : Error) :
  execute be p = Some (tr, Err e) ->
  e = NoBinaryData ∨ e = InvalidInputImage ->
  tr = [healthCheck p].
Proof.
  intros [Hpoll|Hsub]%execute_error_cases He.
  - unfold pollError in Hpoll. destruct He as [-> | ->];
      repeat (destruct Hpoll as [Hpoll|Hpoll]; [discriminate Hpoll|]); discriminate Hpoll.
  - apply Submitted_error in Hsub
      as [->|[[_ Htr]|[[-> _]|[[Hg _]|[-> _]]]]]; try done.
    + by destruct He.
    + by destruct He.
    + destruct He as [-> | ->]; by destruct Hg as [|[|]].
    + by destruct He.
Qed.

Lemma execute_invalid_image_stops_early_witness :
  execute idleBackend wrongTypeParams
    = Some ([healthCheck wrongTypeParams], Err InvalidInputImage).
Proof.
  destruct (execute idleBackend wrongTypeParams) as [[tr [item|e]]|] eqn:Hex;
    [vm_compute in Hex; discriminate Hex| |vm_compute in Hex; discriminate Hex].
  assert (e = InvalidInputImage) as -> by (vm_compute in Hex; congruence).
  rewrite (execute_invalid_image_stops_early idleBackend wrongTypeParams tr _ Hex);
    [reflexivity | by right].
Defined.

(** X17: the audio MIME check comes after the image upload: an execution that
    fails because the named audio property is not audio has uploaded the
    image as its last request, and has uploaded no audio and queued
    nothing. *)
Theorem execute_invalid_audio_after_image_upload
    (be : Backend) (p : Params) (tr : Trace) :
  execute be p = Some (tr, Err InvalidInputAudio) ->
  exists dl imageBuffer,
    (dl = [] ∨ (inputType p = "url" ∧ dl = [GetUrl (inputImage p)])) ∧
    tr = healthCheck p :: dl ++ [uploadRequest p imageBuffer "input.png"].
Proof.
  intros [Hpoll|Hsub]%execute_error_cases.
  - unfold pollError in Hpoll.
    repeat (destruct Hpoll as [Hpoll|Hpoll]; [discriminate Hpoll|]); discriminate Hpoll.
  - apply Submitted_error in Hsub
      as [[=]|[[[[=]|[[=]|[=]]] _]|[[_ Htr]|[[[[=]|[[=]|[=]]] _]|[[=] _]]]]].
    exact Htr.
Qed.

Lemma execute_invalid_audio_after_image_upload_witness :
  exists dl imageBuffer,
    (dl = [] ∨ (inputType textAsAudioParams = "url" ∧
                dl = [GetUrl (inputImage textAsAudioParams)])) ∧
    (default ([], Err RequestFailed) (execute successBackend textAsAudioParams)).1
      = healthCheck textAsAudioParams :: dl
          ++ [uploadRequest textAsAudioParams imageBuffer "input.png"].
Proof.
  destruct (execute successBackend textAsAudioParams) as [[tr [item|e]]|] eqn:Hex;
    [vm_compute in Hex; discriminate Hex| |vm_compute in Hex; discriminate Hex].
  assert (e = InvalidInputAudio) as -> by (vm_compute in Hex; congruence).
  exact (execute_invalid_audio_after_image_upload successBackend textAsAudioParams tr Hex).
Defined.

(** X18: the workflow is parsed and checked only after the uploads: an
    execution that fails on a malformed workflow or on a missing LoadImage or
    LoadAudio node has already uploaded the image (and, for a missing
    LoadAudio node, the audio), and has queued nothing. *)
Theorem execute_graph_checked_after_uploads
    (be : Backend) (p : Params) (tr : Trace) (e : Error) :
  execute be p = Some (tr, Err e) ->
  e = MalformedGraph ∨ e = MissingImageNode ∨ e = MissingAudioNode ->
  exists dl imageBuffer,
    (dl = [] ∨ (inputType p = "url" ∧ dl = [GetUrl (inputImage p)])) ∧
    ((e ≠ MissingAudioNode ∧
      tr = healthCheck p :: dl ++ [uploadRequest p imageBuffer "input.png"]) ∨
     (exists audioBinary,
        binaryProperty (binary p) (audioBinaryPropertyName p) = Some audioBinary ∧
        tr = healthCheck p :: dl ++ [uploadRequest p imageBuffer "input.png";
                                     uploadRequest p (data audioBinary) "input.mp3"])).
Proof.
  intros [Hpoll|Hsub]%execute_error_cases He.
  - unfold pollError in Hpoll. destruct He as [->|[-> | ->]];
      repeat (destruct Hpoll as [Hpoll|Hpoll]; [discriminate Hpoll|]); discriminate Hpoll.
  - apply Submitted_error in Hsub
      as [->|[[Hi _]|[[-> _]|[[_ (info & ainfo & Hin & Haudio)]|[-> _]]]]].
    + by destruct He as [|[|]].
    + destruct He as [->|[-> | ->]]; by destruct Hi as [|[|]].
    + by destruct He as [|[|]].
    + apply inputsUploaded_trace in Hin
        as (dl & buf & Hdl & [[-> ->]|(b & Hsome & Hprop & ->)]).
      * exists dl, buf. split; [done|]. left. split; [|done].
        intros ->. by destruct (Haudio eq_refl).
      * exists dl, buf. split; [done|]. right. by exists b.
    + by destruct He as [|[|]].
Qed.

Lemma execute_graph_checked_after_uploads_witness :
  exists dl imageBuffer,
    (dl = [] ∨ (inputType brokenJsonParams = "url" ∧
                dl = [GetUrl (inputImage brokenJsonParams)])) ∧
    (default ([], Err RequestFailed) (execute successBackend brokenJsonParams)).1
      = healthCheck brokenJsonParams :: dl
          ++ [uploadRequest brokenJsonParams imageBuffer "input.png"].
Proof.
  destruct (execute successBackend brokenJsonParams) as [[tr [item|e]]|] eqn:Hex;
    [vm_compute in Hex; discriminate Hex| |vm_compute in Hex; discriminate Hex].
  assert (e = MalformedGraph) as -> by (vm_compute in Hex; congruence).
  destruct (execute_graph_checked_after_uploads successBackend brokenJsonParams tr _ Hex)
    as (dl & buf & Hdl & [[_ Htr]|(b & Hb & _)]); [by left| |discriminate Hb].
  by exists dl, buf.
Defined.

(** ** Queueing the graph *)

(** Every exit listed in [Submitted] is an exit of [submitJob]. *)
Lemma Submitted_submitJob (be : Backend) (p : Params) (tr : Trace) r :
  Submitted be p tr r -> submitJob be p [] = (tr, r).
Proof.
  assert (forall tr3 imageInfo audioInfo,
            inputsUploaded be p tr3 imageInfo audioInfo ->
            submitJob be p [] =
              (do workflowData <- parseWorkflow p;
               match patchWorkflow imageInfo audioInfo workflowData with
               | (_, Err e) => throw e
               | (patched, Ok _) =>
                   do promptId <- queue be p patched;
                   ret (promptId, patched)
               end) tr3) as Hup.
  { intros tr3 imageInfo audioInfo (tr1 & buf & Hh & H1 & H2 & H3).
    unfold submitJob. unfold bind at 1. unfold request at 1. rewrite Hh.
    change ([] ++ [GetSystemStats (apiUrl p +:+ "/system_stats")]) with [healthCheck p].
    unfold bind at 1. rewrite H1.
    unfold bind at 1. unfold uploadBuffer at 1. unfold request at 1. rewrite H2.
    fold (uploadRequest p buf "input.png").
    unfold bind at 1. by rewrite H3. }
  intros Hsub. destruct Hsub as
    [Hh|tr1 e Hh H1|tr1 buf Hh H1 H2|tr1 buf info tr3 e Hh H1 H2 H3
     |tr3 info ainfo Hin Hwf|tr3 info ainfo wf wf' e Hin Hwf H5
     |tr3 info ainfo wf g Hin Hwf H5 H6|tr3 info ainfo wf g answer Hin Hwf H5 H6 Ha
     |tr3 info ainfo wf g promptId Hin Hwf H5 H6 Hpid].
  - unfold submitJob, bind, request. by rewrite Hh.
  - unfold submitJob. unfold bind at 1. unfold request at 1. rewrite Hh.
    change ([] ++ [GetSystemStats (apiUrl p +:+ "/system_stats")]) with [healthCheck p].
    unfold bind at 1. by rewrite H1.
  - unfold submitJob. unfold bind at 1. unfold request at 1. rewrite Hh.
    change ([] ++ [GetSystemStats (apiUrl p +:+ "/system_stats")]) with [healthCheck p].
    unfold bind at 1. rewrite H1.
    unfold bind at 1. unfold uploadBuffer at 1. unfold request at 1. by rewrite H2.
  - unfold submitJob. unfold bind at 1. unfold request at 1. rewrite Hh.
    change ([] ++ [GetSystemStats (apiUrl p +:+ "/system_stats")]) with [healthCheck p].
    unfold bind at 1. rewrite H1.
    unfold bind at 1. unfold uploadBuffer at 1. unfold request at 1. rewrite H2.
    fold (uploadRequest p buf "input.png").
    unfold bind at 1. by rewrite H3.
  - rewrite (Hup tr3 info ainfo Hin). unfold bind, parseWorkflow.
    destruct (workflow p) as [| |wf]; [done | done | by destruct (Hwf wf)].
  - rewrite (Hup tr3 info ainfo Hin). unfold bind, parseWorkflow.
    rewrite Hwf. unfold ret at 1. by rewrite H5.
  - rewrite (Hup tr3 info ainfo Hin). unfold bind, parseWorkflow.
    rewrite Hwf. unfold ret at 1. rewrite H5. unfold queue, bind, request. by rewrite H6.
  - rewrite (Hup tr3 info ainfo Hin). unfold bind, parseWorkflow.
    rewrite Hwf. unfold ret at 1. rewrite H5. unfold queue, bind, request. rewrite H6.
    by destruct Ha as [-> | ->].
  - rewrite (Hup tr3 info ainfo Hin). unfold bind, parseWorkflow.
    rewrite Hwf. unfold ret at 1. rewrite H5. unfold queue, bind, request. rewrite H6.
    apply truthy_true in Hpid. by rewrite Hpid.
Qed.

Lemma historyQueries_inputsUploaded (be : Backend) (p : Params) (tr : Trace) info ainfo :
  inputsUploaded be p tr info ainfo -> historyQueries tr = O ∧ prompts tr = [].
Proof.
  intros (dl & buf & [->|[_ ->]] & [[_ ->]|(b & _ & _ & ->)])%inputsUploaded_trace;
    by split.
Qed.

(** X19: an execution ends with the submission error exactly when the inputs
    were uploaded, the graph was patched and the backend answered the prompt
    request without a prompt id or with an empty one.  The prompt request is
    then its last request, sent once, and the job is never polled. *)
Theorem execute_submission_rejected (be : Backend) (p : Params) (tr : Trace) :
  execute be p = Some (tr, Err SubmissionRejected) <->
  exists tr3 imageInfo audioInfo wf patched answer,
    inputsUploaded be p tr3 imageInfo audioInfo ∧
    workflow p = Graph wf ∧
    patchWorkflow imageInfo audioInfo wf = (patched, Ok tt) ∧
    queuePrompt be patched = Some answer ∧
    (answer = None ∨ answer = Some "") ∧
    tr = tr3 ++ [promptRequest p patched] ∧
    prompts tr = [promptRequest p patched] ∧
    historyQueries tr = O.
Proof.
  split.
  - intros [Hpoll|Hsub]%execute_error_cases.
    + unfold pollError in Hpoll.
      repeat (destruct Hpoll as [Hpoll|Hpoll]; [discriminate Hpoll|]); discriminate Hpoll.
    + inversion Hsub as
        [|tr1 e1 Hh H1|? ? ? ? ?|tr1 buf info tr3 e3 Hh H1 H2 H3
         |? ? ? ? ?|tr3 info ainfo wf wf' e5 Hin Hwf H5
         |? ? ? ? ? ? ? ? ?|tr3 info ainfo wf g answer Hin Hwf H5 H6 Ha|]; subst.
      * apply prepareImage_outcome in H1
          as [(_ & _ & [Hr|[b Hr]])|(_ & _ & [Hr|[Hr|[Hr|[b Hr]]]])]; discriminate Hr.
      * apply uploadAudio_trace in H3 as [[_ [Hr|Hr]]|(b & _ & _ & [Hr|[i Hr]])];
          discriminate Hr.
      * apply patchWorkflow_errors in H5 as [Hr|[Hr _]]; discriminate Hr.
      * exists tr3, info, ainfo, wf, g, answer.
        destruct (historyQueries_inputsUploaded _ _ _ _ _ Hin) as [Hq Hp].
        repeat (split; [done|]).
        split; [by rewrite prompts_app, Hp|].
        by rewrite historyQueries_app, Hq.
  - intros (tr3 & info & ainfo & wf & g & answer & Hin & Hwf & H5 & H6 & Ha & -> & _).
    unfold execute.
    by rewrite (Submitted_submitJob be p _ _
                  (SubmitRejected be p tr3 info ainfo wf g answer Hin Hwf H5 H6 Ha)).
Qed.

Lemma execute_submission_rejected_witness :
  exists tr3 patched,
    (default ([], Err RequestFailed) (execute rejectingBackend sampleParams)).1
      = tr3 ++ [promptRequest sampleParams patched] ∧
    historyQueries (tr3 ++ [promptRequest sampleParams patched]) = O.
Proof.
  destruct (execute rejectingBackend sampleParams) as [[tr [item|e]]|] eqn:Hex;
    [vm_compute in Hex; discriminate Hex| |vm_compute in Hex; discriminate Hex].
  assert (e = SubmissionRejected) as -> by (vm_compute in Hex; congruence).
  apply (execute_submission_rejected rejectingBackend sampleParams tr) in Hex
    as (tr3 & _ & _ & _ & patched & _ & _ & _ & _ & _ & _ & -> & _ & Hq).
  by exists tr3, patched.
Defined.

Lemma prompts_prefix (p : Params) (dl ups rest : Trace) :
  (dl = [] ∨ (inputType p = "url" ∧ dl = [GetUrl (inputImage p)])) ->
  canonicalUploads p ups ->
  prompts (healthCheck p :: dl ++ ups ++ rest) = prompts rest.
Proof.
  intros Hdl Hups.
  change (healthCheck p :: dl ++ ups ++ rest) with ([healthCheck p] ++ dl ++ ups ++ rest).
  rewrite !prompts_app.
  assert (prompts dl = []) as -> by by destruct Hdl as [->|[_ ->]].
  assert (prompts ups = []) as ->; [|done].
  by destruct Hups as [->|(buf & [->|(b & _ & ->)])].
Qed.

(** X20: an execution sends at most one prompt request, and the graph it
    carries is the parsed workflow after the patch step, patched with the
    names that the backend returned for the uploads; an execution that
    returns an item has sent it. *)
Theorem execute_queues_patched_graph (be : Backend) (p : Params) :
  exists tr r,
    execute be p = Some (tr, r) ∧
    (prompts tr = [] ∨
     exists tr3 imageInfo audioInfo wf patched,
       inputsUploaded be p tr3 imageInfo audioInfo ∧
       workflow p = Graph wf ∧
       patchWorkflow imageInfo audioInfo wf = (patched, Ok tt) ∧
       prompts tr = [promptRequest p patched]) ∧
    (forall item, r = Ok item -> prompts tr ≠ []).
Proof.
  destruct (execute_total be p) as [[tr r] Hex]. exists tr, r. split; [done|].
  assert (forall tr0 r0 rest,
            Submitted be p tr0 r0 ->
            prompts rest = [] ->
            (prompts (tr0 ++ rest) = [] ∧ forall x, r0 ≠ Ok x) ∨
            exists tr3 imageInfo audioInfo wf patched,
              inputsUploaded be p tr3 imageInfo audioInfo ∧
              workflow p = Graph wf ∧
              patchWorkflow imageInfo audioInfo wf = (patched, Ok tt) ∧
              prompts (tr0 ++ rest) = [promptRequest p patched]) as Hprompt.
  { intros tr0 r0 rest Hsub Hrest.
    apply Submitted_trace in Hsub as (dl & ups & q & -> & Hdl & Hups & Hq & _ & Hok).
    replace ((healthCheck p :: dl ++ ups ++ q) ++ rest)
      with (healthCheck p :: dl ++ ups ++ (q ++ rest)) by trace_eq.
    rewrite (prompts_prefix p dl ups _ Hdl Hups), prompts_app, Hrest, app_nil_r.
    destruct Hq as [->|(tr3 & info & ainfo & wf & patched & Hin & Hwf & H5 & _ & ->)].
    - left. split; [done|]. intros x Hx. by specialize (Hok x Hx).
    - right. by exists tr3, info, ainfo, wf, patched. }
  destruct (execute_cases be p tr r Hex)
    as [(e & -> & Hsub)|(tr0 & promptId & patched & Hsub & Hpoll)].
  - destruct (Hprompt tr (Err e) [] Hsub eq_refl) as [[Hnone _]|Hsome];
      rewrite app_nil_r in *; by auto.
  - apply poll_result in Hpoll as (n & v & -> & _ & Hv & _).
    assert (prompts (Sleep 5000 :: ticks p promptId n ++ v) = []) as Hrest.
    { change (Sleep 5000 :: ticks p promptId n ++ v)
        with ([Sleep 5000] ++ ticks p promptId n ++ v).
      rewrite !prompts_app, prompts_ticks. by destruct Hv as [->|[u ->]]. }
    destruct (Hprompt tr0 _ _ Hsub Hrest) as [[_ Hno]|Hsome].
    + by destruct (Hno (promptId, patched)).
    + destruct Hsome as (tr3 & info & ainfo & wf & g & Hin & Hwf & H5 & Hp).
      split; [right; by exists tr3, info, ainfo, wf, g|]. intros _ _. by rewrite Hp.
Qed.

(** X21: when the health check is rejected, it is the only request of the
    execution: nothing is downloaded, uploaded or queued. *)
Theorem execute_unreachable_backend (be : Backend) (p : Params) :
  systemStats be = None ->
  execute be p = Some ([healthCheck p], Err RequestFailed).
Proof.
  intros Hh. unfold execute.
  by rewrite (Submitted_submitJob be p _ _ (SubmitUnreachable be p Hh)).
Qed.

Lemma execute_unreachable_backend_witness :
  execute (mkBackend None (fun _ => None) (fun _ => []) (fun _ => None)
             (fun _ => None) (fun _ _ => None) (fun _ => None) None) audioParams
    = Some ([healthCheck audioParams], Err RequestFailed).
Proof. apply execute_unreachable_backend. reflexivity. Defined.

(** X22: the steps compose: once the inputs are uploaded, the graph is
    patched and the backend returns a prompt id, if the first [n] status
    queries for that id are answered "not completed" and the next one, within
    the cap, reports a completed job whose outputs resolve to a video output
    that can be downloaded, the execution returns that video; its trace is
    the uploads, the prompt request, the warm-up delay, [n + 1] polls and the
    download. *)
Theorem execute_happy_path
    (be : Backend) (p : Params) (tr3 : Trace) (imageInfo : ImageInfo)
    (audioInfo : option ImageInfo) (wf patched : ComfyUIWorkflow) (promptId : string)
    (n : nat) (pr : PromptResult) (st : Status) (videoOutput : MediaOutput)
    (code : Z) (body : Buffer) :
  inputsUploaded be p tr3 imageInfo audioInfo ->
  workflow p = Graph wf ->
  patchWorkflow imageInfo audioInfo wf = (patched, Ok tt) ->
  queuePrompt be patched = Some (Some promptId) ->
  promptId ≠ "" ->
  (inject_Z (Z.of_nat n) < 60 * timeout p)%Q ->
  (forall k, (k < n)%nat -> pendingAnswer (history be k promptId)) ->
  completedAnswer (history be n promptId) pr st ->
  resolveOutput (apiUrl p) (outputs pr) = Ok videoOutput ->
  view be (url videoOutput) = Some (code, body) ->
  code ≠ 404 ->
  execute be p =
    Some (tr3 ++ promptRequest p patched :: Sleep 5000 :: ticks p promptId (S n)
              ++ [GetView (url videoOutput)],
          Ok (videoItem st videoOutput body)).
Proof.
  intros Hin Hwf H5 H6 Hpid Hcap Hpend Hdone Hres Hview Hcode.
  unfold execute.
  rewrite (Submitted_submitJob be p _ _
             (SubmitQueued be p tr3 imageInfo audioInfo wf patched promptId
                Hin Hwf H5 H6 Hpid)).
  assert (historyQueries (tr3 ++ [promptRequest p patched]) = O) as Hq0.
  { destruct (historyQueries_inputsUploaded _ _ _ _ _ Hin) as [Hq _].
    by rewrite historyQueries_app, Hq. }
  destruct (poll_at_tick be p promptId (tr3 ++ [promptRequest p patched]) n Hcap)
    as [Hcount ->].
  { intros k Hk. rewrite Hq0. by apply Hpend. }
  rewrite (pollTick_completed be p promptId _ pr st); [|by rewrite Hcount, Hq0].
  rewrite ticks_succ. unfold retrieve. rewrite Hres. unfold bind, request.
  rewrite Hview. simpl. apply Z.eqb_neq in Hcode. rewrite Hcode.
  unfold ret. do 2 f_equal. trace_eq.
Qed.

Lemma execute_happy_path_witness :
  execute successBackend sampleParams =
    Some ([healthCheck sampleParams; uploadRequest sampleParams [] "input.png"]
            ++ promptRequest sampleParams
                 (patchWorkflow sampleImageInfo None imageOnlyGraph).1
            :: Sleep 5000 :: ticks sampleParams "job-1" 2
            ++ [GetView "http://comfy/view?filename=result.webp&subfolder=&type=output"],
          Ok (videoItem (mkStatus true "success")
                (mkMedia (mkEntry "result.webp" None "output")
                   "http://comfy/view?filename=result.webp&subfolder=&type=output")
                [Byte.x52; Byte.x49])).
Proof.
  apply (execute_happy_path successBackend sampleParams
           [healthCheck sampleParams; uploadRequest sampleParams [] "input.png"]
           sampleImageInfo None imageOnlyGraph
           (patchWorkflow sampleImageInfo None imageOnlyGraph).1 "job-1" 1
           (mkPromptResult (Some (mkStatus true "success"))
              [("9", mkNodeOutput (Some [mkEntry "result.webp" None "output"]) None)])
           (mkStatus true "success")
           (mkMedia (mkEntry "result.webp" None "output")
              "http://comfy/view?filename=result.webp&subfolder=&type=output")
           200 [Byte.x52; Byte.x49]).
  - exists [healthCheck sampleParams], []. repeat split; reflexivity.
  - reflexivity.
  - vm_compute. reflexivity.
  - reflexivity.
  - discriminate.
  - reflexivity.
  - intros [|k] Hk; [by left | lia].
  - repeat split. discriminate.
  - reflexivity.
  - reflexivity.
  - lia.
Defined.

(** ** Uploading the audio *)

(** X23: when the named audio property is attached, its MIME type decides:
    if it starts with [audio/] (whatever the audio format), its bytes are
    uploaded under the name [input.mp3] and the answer of the backend is the
    audio asset; otherwise, and in particular when it has no MIME type, the
    audio phase fails with the not-audio error without any request. *)
Theorem uploadAudio_named_property
    (be : Backend) (p : Params) (tr : Trace) (audioBinary : IBinaryData) :
  audioBinaryPropertyName p ≠ "" ->
  binaryProperty (binary p) (audioBinaryPropertyName p) = Some audioBinary ->
  (startsWith (default "" (mimeType audioBinary)) "audio/" = true ->
     uploadAudio be p tr =
       (tr ++ [uploadRequest p (data audioBinary) "input.mp3"],
        match uploadImage be (uploadForm (data audioBinary) "input.mp3") with
        | Some info => Ok (Some info)
        | None => Err RequestFailed
        end)) ∧
  (startsWith (default "" (mimeType audioBinary)) "audio/" = false ->
     uploadAudio be p tr = (tr, Err InvalidInputAudio)) ∧
  (mimeType audioBinary = None -> uploadAudio be p tr = (tr, Err InvalidInputAudio)).
Proof.
  intros Hname%truthy_true Hprop. rewrite uploadAudio_unfold, Hname, Hprop.
  split; [|split].
  - intros ->. simpl. unfold bind, uploadBuffer, request.
    fold (uploadRequest p (data audioBinary) "input.mp3").
    by destruct (uploadImage be _).
  - by intros ->.
  - by intros ->.
Qed.

Lemma uploadAudio_named_property_witness :
  uploadAudio successBackend untypedAudioParams [] = ([], Err InvalidInputAudio) ∧
  uploadAudio successBackend audioParams [] =
    ([uploadRequest audioParams [Byte.x01] "input.mp3"], Ok (Some sampleImageInfo)).
Proof.
  split.
  - destruct (uploadAudio_named_property successBackend untypedAudioParams []
                (mkBinary None (Some "voice.mp3") [Byte.x01])) as (_ & _ & Huntyped).
    + discriminate.
    + reflexivity.
    + apply Huntyped. reflexivity.
  - destruct (uploadAudio_named_property successBackend audioParams []
                (mkBinary (Some "audio/wav") (Some "voice.wav") [Byte.x01]))
      as (Haudio & _).
    + discriminate.
    + reflexivity.
    + apply Haudio. reflexivity.
Defined.

(** X24: when an audio property name is given but reading it finds nothing
    (no property of that name is attached and it is not a member that every
    object inherits, or the item has no binary data at all), the audio phase
    returns without an upload and without an error, the whole execution
    (trace and result) is the one obtained with the audio property name left
    empty, and it ends with neither of the two audio failures.  In any
    execution, the failure of the audio MIME check implies that reading the
    name finds something whose type does not start with [audio/]. *)
Theorem absent_audio_property_is_skipped (be : Backend) (p : Params) :
  audioBinaryPropertyName p ≠ "" ->
  binaryMember (binary p) (audioBinaryPropertyName p) = Absent ->
  (forall tr, uploadAudio be p tr = (tr, Ok None)) ∧
  execute be p = execute be (withoutAudio p) ∧
  (forall tr e, execute be p = Some (tr, Err e) ->
     e ≠ InvalidInputAudio ∧ e ≠ MissingAudioNode) ∧
  (forall be' p' tr, execute be' p' = Some (tr, Err InvalidInputAudio) ->
     binaryMember (binary p') (audioBinaryPropertyName p') ≠ Absent ∧
     startsWith
       (default "" (memberMime (binaryMember (binary p') (audioBinaryPropertyName p'))))
       "audio/" = false).
Proof.
  intros Hname Hprop.
  destruct (execute_withoutAudio be p Hname Hprop) as [Hskip Hsame].
  split; [by rewrite Hskip|]. split; [done|]. split.
  - intros tr e Hex. split; intros ->.
    + destruct (execute_audio_errors be p tr _ Hex) as (_ & Hmime & _); [auto|].
      by destruct (Hmime eq_refl).
    + destruct (execute_audio_errors be p tr _ Hex) as (_ & _ & Hnode); [auto|].
      destruct (Hnode eq_refl) as (b & Hb%binaryMember_Own & _). congruence.
  - intros be' p' tr Hex.
    destruct (execute_audio_errors be' p' tr _ Hex) as (_ & Hmime & _); [auto|].
    by apply Hmime.
Qed.

Lemma absent_audio_property_is_skipped_witness :
  (forall tr, uploadAudio successBackend missingAudioParams tr = (tr, Ok None)) ∧
  execute successBackend missingAudioParams
    = execute successBackend (withoutAudio missingAudioParams).
Proof.
  destruct (absent_audio_property_is_skipped successBackend missingAudioParams)
    as (Hskip & Hsame & _).
  - discriminate.
  - reflexivity.
  - split; [exact Hskip | exact Hsame].
Defined.

(** X25: when the audio property name is not attached but is the name of a
    member that every object inherits, the audio phase does not skip: the
    MIME check runs on that member, which has no MIME type, and the phase
    fails with the not-audio error without any request. *)
Theorem uploadAudio_inherited_name (be : Backend) (p : Params) (tr : Trace) :
  audioBinaryPropertyName p ≠ "" ->
  binaryProperty (binary p) (audioBinaryPropertyName p) = None ->
  is_Some (binary p) ->
  In (audioBinaryPropertyName p) objectPrototype ->
  uploadAudio be p tr = (tr, Err InvalidInputAudio).
Proof.
  intros Hname%truthy_true Hprop [l Hbin] Hin.
  rewrite uploadAudio_unfold, Hname, Hprop.
  assert (inheritedMember (binary p) (audioBinaryPropertyName p) = true) as ->; [|done].
  rewrite Hbin. simpl. unfold inObjectPrototype. apply existsb_exists.
  exists (audioBinaryPropertyName p). split; [done | apply String.eqb_refl].
Qed.

Lemma uploadAudio_inherited_name_witness :
  uploadAudio successBackend inheritedAudioParams [] = ([], Err InvalidInputAudio).
Proof.
  apply (uploadAudio_inherited_name successBackend inheritedAudioParams []).
  - discriminate.
  - reflexivity.
  - by eexists.
  - simpl. tauto.
Defined.

(** X26: in binary mode, when the image property name is not attached but is
    the name of a member that every object inherits, no other attached
    property is searched for: the bytes are asked of the helper for that
    name, and the execution fails before any request, with the helper's
    failure or else with the invalid-media error, since the member has no
    MIME type. *)
Theorem prepareImage_inherited_name (be : Backend) (p : Params) (tr : Trace) :
  inputType p = "binary" ->
  binaryProperty (binary p) (binaryPropertyName p) = None ->
  is_Some (binary p) ->
  In (binaryPropertyName p) objectPrototype ->
  prepareImage be p tr =
    (tr, Err (match foreignBuffer be with
              | Some _ => InvalidInputImage
              | None => HelperFailed
              end)) ∧
  (systemStats be = Some tt ->
   execute be p =
     Some ([healthCheck p], Err (match foreignBuffer be with
                                 | Some _ => InvalidInputImage
                                 | None => HelperFailed
                                 end))).
Proof.
  intros Htype Hprop [l Hbin] Hin.
  assert (forall tr0, prepareImage be p tr0 =
            (tr0, Err (match foreignBuffer be with
                       | Some _ => InvalidInputImage
                       | None => HelperFailed
                       end))) as Hprep.
  { intros tr0. rewrite (prepareImage_binary be p tr0 Htype), Hprop.
    assert (inheritedMember (binary p) (binaryPropertyName p) = true) as ->.
    { rewrite Hbin. simpl. unfold inObjectPrototype. apply existsb_exists.
      exists (binaryPropertyName p). split; [done | apply String.eqb_refl]. }
    by destruct (foreignBuffer be). }
  split; [apply Hprep|]. intros Hh. unfold execute.
  by rewrite (Submitted_submitJob be p _ _ (SubmitNoImage be p _ _ Hh (Hprep _))).
Qed.

Lemma prepareImage_inherited_name_witness :
  prepareImage idleBackend inheritedImageParams [] = ([], Err HelperFailed) ∧
  execute idleBackend inheritedImageParams
    = Some ([healthCheck inheritedImageParams], Err HelperFailed).
Proof.
  destruct (prepareImage_inherited_name idleBackend inheritedImageParams [])
    as [Hprep Hexec].
  - reflexivity.
  - reflexivity.
  - by eexists.
  - simpl. tauto.
  - split; [exact Hprep | by apply Hexec].
Defined.
